(** * parse.c: the incremental reader of the gst runtime

    A shallow embedding of [src/parse.c] and the properties of it that the
    specification states.

    Conventions of the embedding.
    - A byte ([uint8_t], [char]) is a [Z] in [0, 255]; character constants are
      written [ch "a"].
    - A [double] is a primitive binary64 float; every operation rounds to
      nearest even, as the C code does on an IEEE 754 platform without
      contraction of multiply and add.
    - [int] arithmetic that overflows, a dereference of [NULL], a read of
      memory nothing wrote and a store outside a block are undefined
      behaviour in C: the embedding returns [Undef] there.
    - Loops whose bound is not the length of the input take fuel; for each
      of them a lemma shows that the fuel given is never used up.
    - The counters [count], [cap], [index] and [bytesRead] are unbounded
      naturals: overflowing them needs an input of 2^31 bytes. *)

From Stdlib Require Import ZArith List Bool Lia String Ascii Floats Uint63 QArith Qpower.
Import ListNotations.
Local Open Scope Z_scope.

Set Implicit Arguments.
Set Warnings "-inexact-float,-register-all".

(** ** Executions: a result, undefined behaviour, or fuel used up *)

Inductive exec (A : Type) : Type :=
| Done (a : A)
| Undef
| OutOfFuel.

Arguments Done {A} a.
Arguments Undef {A}.
Arguments OutOfFuel {A}.

Definition bind {A B : Type} (c : exec A) (k : A -> exec B) : exec B :=
  match c with
  | Done a => k a
  | Undef => Undef
  | OutOfFuel => OutOfFuel
  end.

Declare Scope exec_scope.
Delimit Scope exec_scope with exec.
Notation "x <- c ;; k" := (bind c (fun x => k))
  (at level 61, c at next level, right associativity) : exec_scope.
Notation "' pat <- c ;; k" := (bind c (fun x => match x with pat => k end))
  (at level 61, pat pattern, c at next level, right associativity) : exec_scope.
Local Open Scope exec_scope.

(** ** Bytes and C strings *)

Definition ch (a : ascii) : Z := Z.of_N (N_of_ascii a).
Arguments ch a%_char_scope.

(** The bytes of a C string literal, without its terminating NUL. *)
Definition bytes_of (s : string) : list Z := map ch (list_ascii_of_string s).
Arguments bytes_of s%_string_scope.

(** ** [int] and [double] *)

Definition INT_MAX : Z := 2147483647.
Definition INT_MIN : Z := -2147483648.

(** The result of an [int] operation: undefined when it overflows. *)
Definition int_op (z : Z) : exec Z :=
  if (INT_MIN <=? z) && (z <=? INT_MAX) then Done z else Undef.

(** Conversion of an [int] to [double]; exact on the whole range of [int]. *)
Definition int_to_double (z : Z) : float :=
  if z <? 0 then PrimFloat.opp (PrimFloat.of_uint63 (Uint63.of_Z (- z)))
  else PrimFloat.of_uint63 (Uint63.of_Z z).

(** Conversion of a [double] to [int]: truncation toward zero, undefined
    when the truncated value is no [int] (C11 6.3.1.4). *)
Definition double_to_int (x : float) : exec Z :=
  match Prim2SF x with
  | S754_zero _ => Done 0
  | S754_finite s m e =>
      let a := Z.shiftl (Z.pos m) e in
      int_op (if s then - a else a)
  | S754_infinity _ | S754_nan => Undef
  end.

(** ** Values (datatypes.h), as far as the reader builds them *)

Inductive GstValue : Type :=
| GstNil
| GstBoolean (boolean : bool)
| GstNumber (number : float)
| GstString (string : list Z)
| GstArray (array : list GstValue).

(** Modelled from the spec: the allocator's interface of section 6, which is
    not part of parse.c. [gst_buffer] allocates an empty growable byte
    buffer, [gst_buffer_push] appends a byte to it, [gst_buffer_to_string]
    takes its bytes as an immutable string, [gst_array] allocates an empty
    growable sequence, [gst_array_push] appends a value to it and
    [gst_load_cstring] builds the string value of a C string. Every buffer
    and array is referenced by one frame only, so they are held by value. *)
Definition gst_buffer (capacity : nat) : list Z := [].
Definition gst_buffer_push (buffer : list Z) (c : Z) : list Z := buffer ++ [c].
Definition gst_buffer_to_string (buffer : list Z) : list Z := buffer.
Definition gst_array (capacity : nat) : list GstValue := [].
Definition gst_array_push (array : list GstValue) (x : GstValue) : list GstValue :=
  array ++ [x].
Definition gst_load_cstring (s : string) : GstValue := GstString (bytes_of s).
Arguments gst_load_cstring s%_string_scope.

(** ** Character classes *)

(* static int is_whitespace(uint8_t c) *)
Definition is_whitespace (c : Z) : bool :=
  (c =? ch " ") || (c =? ch "009") || (c =? ch "010") || (c =? ch "013")
  || (c =? ch "000") || (c =? ch ",").

(* static int is_symbol_char(uint8_t c) *)
Definition is_symbol_char (c : Z) : bool :=
  if (ch "a" <=? c) && (c <=? ch "z") then true
  else if (ch "A" <=? c) && (c <=? ch "Z") then true
  else if (ch "0" <=? c) && (c <=? ch ":") then true
  else if (ch "<" <=? c) && (c <=? ch "@") then true
  else if (ch "*" <=? c) && (c <=? ch "/") then true
  else if (ch "#" <=? c) && (c <=? ch "&") then true
  else if c =? ch "_" then true
  else if c =? ch "^" then true
  else if c =? ch "!" then true
  else false.

(** The closing delimiters, as token_state and root_state test them. *)
Definition is_closing (c : Z) : bool :=
  (c =? ch ")") || (c =? ch "]") || (c =? ch "}").

Definition is_digit (c : Z) : bool := (ch "0" <=? c) && (c <=? ch "9").

(** ** exp10: an integer power of ten

    The function is written once over the arithmetic it uses, so that the
    same text runs on [double] (the program) and on the rationals (where it
    can be compared with the exact power). *)

Section Exp10.
Variable num : Type.
Variables (n_one n_ten : num) (n_mul n_div : num -> num -> num).

(* while (currentPower * 2 <= power) { result = result * result; currentPower *= 2; } *)
Fixpoint exp10_while (fuel : nat) (power : Z) (result : num) (currentPower : Z)
  : exec (num * Z) :=
  match fuel with
  | O => OutOfFuel
  | S fuel' =>
      twice <- int_op (currentPower * 2) ;;
      if twice <=? power
      then exp10_while fuel' power (n_mul result result) twice
      else Done (result, currentPower)
  end.

(* static double exp10(int power) *)
Fixpoint exp10_fuel (fuel : nat) (power : Z) : exec num :=
  match fuel with
  | O => OutOfFuel
  | S fuel' =>
      if power =? 0 then Done n_one
      else if 0 <? power then
        '(result, currentPower) <- exp10_while 32 power n_ten 1 ;;
        rest <- exp10_fuel fuel' (power - currentPower) ;;
        Done (n_mul result rest)
      else
        negated <- int_op (- power) ;;
        rest <- exp10_fuel fuel' negated ;;
        Done (n_div n_one rest)
  end.
End Exp10.

Definition exp10_gen (num : Type) (n_one n_ten : num) (n_mul n_div : num -> num -> num)
  (power : Z) : exec num :=
  exp10_fuel n_one n_ten n_mul n_div 64 power.

(** [exp10] of the program, on [double]. *)
Definition exp10 (power : Z) : exec float :=
  exp10_gen 1%float 10%float PrimFloat.mul PrimFloat.div power.

(** The same function on exact rationals. *)
Definition exp10_Q (power : Z) : exec Q :=
  exp10_gen 1%Q (10 # 1)%Q Qmult Qdiv power.

(** ** read_number

    [string] holds the bytes of the range [string, end). The function calls
    itself once, for the exponent, with [forceInt] set; in that mode it
    never calls itself again, so the recursion is tied in two layers
    ([read_number] below) and [read_number_unfold] gives back the equation
    of the C function. *)

Section ReadNumber.
(** The recursive call [read_number(string, end, &exp, 1)]. *)
Variable read_exponent : list Z -> exec (option float).

(* while (string < end) { ... } *ret = accum * sign * exp; return 1; *)
Fixpoint read_number_loop (forceInt : bool) (sign : Z) (string : list Z)
  (accum place : float) : exec (option float) :=
  match string with
  | [] => Done (Some (accum * int_to_double sign * 1)%float)
  | c :: rest =>
      if (c =? ch ".") && negb forceInt then
        read_number_loop forceInt sign rest accum 0.1%float
      else if negb forceInt && ((c =? ch "e") || (c =? ch "E")) then
        match rest with
        | [] => Done None
        | _ :: _ =>
            r <- read_exponent rest ;;
            match r with
            | None => Done None
            | Some e =>
                power <- double_to_int e ;;
                exp <- exp10 power ;;
                Done (Some (accum * int_to_double sign * exp)%float)
            end
        end
      else
        let x := c in
        if (x <? ch "0") || (ch "9" <? x) then Done None
        else
          let x := x - ch "0" in
          if (place <? 1)%float then
            read_number_loop forceInt sign rest
              (accum + int_to_double x * place)%float (place * 0.1)%float
          else
            read_number_loop forceInt sign rest
              (accum * 10 + int_to_double x)%float place
  end.

(* static int read_number(const uint8_t *string, const uint8_t *end,
                          double *ret, int forceInt)
   On an empty range the first test reads the byte at [end]; whatever it
   is, the range is empty afterwards and the function returns 0. *)
Definition read_number_body (string : list Z) (forceInt : bool)
  : exec (option float) :=
  match string with
  | [] => Done None
  | c :: rest =>
      let '(sign, string') :=
        if c =? ch "-" then (-1, rest)
        else if c =? ch "+" then (1, rest)
        else (1, string) in
      match string' with
      | [] => Done None
      | _ :: _ => read_number_loop forceInt sign string' 0%float 1%float
      end
  end.
End ReadNumber.

Definition read_number (string : list Z) (forceInt : bool) : exec (option float) :=
  read_number_body
    (fun exponent => read_number_body (fun _ => Undef) exponent true)
    string forceInt.

(** ** check_str_const *)

(* static int check_str_const(const char *ref, const uint8_t *start, const uint8_t *end) *)
Fixpoint check_str_const (ref : list Z) (slice : list Z) : bool :=
  match ref, slice with
  | r :: ref', s :: slice' =>
      if negb (r =? s) then false else check_str_const ref' slice'
  | [], [] => true
  | _, _ => false
  end.

(** ** The parse stack (struct GstParseState, struct GstParser) *)

Inductive ParseType : Type :=
| PTYPE_ROOT
| PTYPE_FORM
| PTYPE_STRING
| PTYPE_TOKEN.

Inductive StringState : Type :=
| STRING_STATE_BASE
| STRING_STATE_ESCAPE
| STRING_STATE_ESCAPE_UNICODE
| STRING_STATE_ESCAPE_HEX.

(** A frame: the tag [type] and the member of the union [buf] that goes with
    it. [endDelimiter] is [None] as long as nothing stored one. *)
Inductive GstParseState : Type :=
| StRoot
| StForm (endDelimiter : option Z) (array : list GstValue)
| StString (buffer : list Z) (state : StringState)
| StToken (buffer : list Z).

Definition frame_type (f : GstParseState) : ParseType :=
  match f with
  | StRoot => PTYPE_ROOT
  | StForm _ _ => PTYPE_FORM
  | StString _ _ => PTYPE_STRING
  | StToken _ => PTYPE_TOKEN
  end.

Inductive GstParserStatus : Type :=
| GST_PARSER_PENDING
| GST_PARSER_FULL
| GST_PARSER_ERROR.

Definition status_eqb (a b : GstParserStatus) : bool :=
  match a, b with
  | GST_PARSER_PENDING, GST_PARSER_PENDING
  | GST_PARSER_FULL, GST_PARSER_FULL
  | GST_PARSER_ERROR, GST_PARSER_ERROR => true
  | _, _ => false
  end.

(** [data] is the block the stack lives in, one entry per slot; a slot that
    nothing wrote is [None]. [error] is [None] for the NULL pointer. The
    handle [vm] of the allocator is left out. *)
Record GstParser : Type := mkGstParser {
  data : list (option GstParseState);
  count : nat;
  cap : nat;
  index : nat;
  error : option string;
  status : GstParserStatus;
  value : GstValue
}.

Definition set_data (p : GstParser) (d : list (option GstParseState)) : GstParser :=
  mkGstParser d (count p) (cap p) (index p) (error p) (status p) (value p).
Definition set_count (p : GstParser) (n : nat) : GstParser :=
  mkGstParser (data p) n (cap p) (index p) (error p) (status p) (value p).
Definition set_cap (p : GstParser) (n : nat) : GstParser :=
  mkGstParser (data p) (count p) n (index p) (error p) (status p) (value p).
Definition set_index (p : GstParser) (n : nat) : GstParser :=
  mkGstParser (data p) (count p) (cap p) n (error p) (status p) (value p).
Definition set_error (p : GstParser) (e : option string) : GstParser :=
  mkGstParser (data p) (count p) (cap p) (index p) e (status p) (value p).
Definition set_status (p : GstParser) (s : GstParserStatus) : GstParser :=
  mkGstParser (data p) (count p) (cap p) (index p) (error p) s (value p).
Definition set_value (p : GstParser) (x : GstValue) : GstParser :=
  mkGstParser (data p) (count p) (cap p) (index p) (error p) (status p) x.

(** The frames of the stack, bottom first: the slots below [count]. *)
Definition frames (p : GstParser) : list (option GstParseState) :=
  firstn (count p) (data p).

(** sizeof(GstParseState): the enum, its padding and a union of two
    words, with the 4-byte [int] and the 8-byte pointers of 64-bit C. (What
    is proved of a block too small holds for every size above one byte.) *)
Definition sizeof_GstParseState : nat := 24.

(** Modelled from the spec: [gst_alloc] belongs to the allocator, which is
    not part of parse.c (section 6 lists it as an external collaborator). A
    block it returns is fresh memory of the number of bytes asked for: it
    has a slot for every frame that fits into them, and no slot of it holds
    a frame. *)
Definition gst_alloc (bytes : nat) : list (option GstParseState) :=
  repeat None (bytes / sizeof_GstParseState).

(** [*top], for a pointer [top] to slot [i]. *)
Definition load (p : GstParser) (i : nat) : exec GstParseState :=
  match nth_error (data p) i with
  | Some (Some f) => Done f
  | _ => Undef
  end.

Fixpoint list_store {A : Type} (l : list A) (i : nat) (x : A) : list A :=
  match l, i with
  | [], _ => []
  | _ :: l', O => x :: l'
  | y :: l', S i' => y :: list_store l' i' x
  end.

(** [*top = f], for a pointer [top] to slot [i]. *)
Definition store (p : GstParser) (i : nat) (f : GstParseState) : exec GstParser :=
  if (i <? List.length (data p))%nat
  then Done (set_data p (list_store (data p) i (Some f)))
  else Undef.

(* #define p_error(p, e) ((p)->error = (e), (p)->status = GST_PARSER_ERROR) *)
Definition p_error (p : GstParser) (e : string) : GstParser :=
  set_status (set_error p (Some e)) GST_PARSER_ERROR.
Arguments p_error p e%_string_scope.

(** The pointers parser_peek and parser_pop return are slot numbers, [None]
    for NULL. *)

(* static GstParseState *parser_peek(GstParser *p) *)
Definition parser_peek (p : GstParser) : GstParser * option nat :=
  match count p with
  | O => (p_error p "parser stack underflow", None)
  | S n => (p, Some n)
  end.

(* static GstParseState *parser_pop(GstParser * p) *)
Definition parser_pop (p : GstParser) : GstParser * option nat :=
  match count p with
  | O => (p_error p "parser stack underflow", None)
  | S n => (set_count p n, Some n)
  end.

(* static void parser_push(GstParser *p, ParseType type, uint8_t character)
   gst_alloc(p->vm, newCap) asks for newCap bytes, and nothing is copied
   from the old block. *)
Definition parser_push (p : GstParser) (type : ParseType) (character : Z)
  : exec GstParser :=
  let p :=
    if (cap p <=? count p)%nat then
      let newCap := (2 * count p)%nat in
      set_cap (set_data p (gst_alloc newCap)) newCap
    else p in
  let p := set_count p (S (count p)) in
  let '(p, top) := parser_peek p in
  match top with
  | None => Done p
  | Some top =>
      match type with
      | PTYPE_ROOT => store p top StRoot
      | PTYPE_STRING => store p top (StString (gst_buffer 10) STRING_STATE_BASE)
      | PTYPE_TOKEN => store p top (StToken (gst_buffer 10))
      | PTYPE_FORM =>
          let array := gst_array 10 in
          let endDelimiter := if character =? ch "(" then Some (ch ")") else None in
          let '(endDelimiter, array) :=
            if character =? ch "["
            then (Some (ch "]"), gst_array_push array (gst_load_cstring "array"))
            else (endDelimiter, array) in
          let '(endDelimiter, array) :=
            if character =? ch "{"
            then (Some (ch "}"), gst_array_push array (gst_load_cstring "obj"))
            else (endDelimiter, array) in
          store p top (StForm endDelimiter array)
      end
  end.

(* static void parser_append(GstParser *p, GstValue x) *)
Definition parser_append (p : GstParser) (x : GstValue) : exec GstParser :=
  let '(p, top) := parser_peek p in
  match top with
  | None => Done p
  | Some top =>
      f <- load p top ;;
      match f with
      | StRoot => Done (set_status (set_value p x) GST_PARSER_FULL)
      | StForm endDelimiter array =>
          store p top (StForm endDelimiter (gst_array_push array x))
      | _ => Done (p_error p "Expected container type.")
      end
  end.

(* static GstValue build_token(GstParser *p, GstBuffer *buf)
   buf->data[0] of an empty buffer is a byte nothing wrote. *)
Definition build_token (p : GstParser) (buf : list Z) : exec (GstParser * GstValue) :=
  number <- read_number buf false ;;
  match number with
  | Some number => Done (p, GstNumber number)
  | None =>
      if check_str_const (bytes_of "nil") buf then Done (p, GstNil)
      else if check_str_const (bytes_of "false") buf then Done (p, GstBoolean false)
      else if check_str_const (bytes_of "true") buf then Done (p, GstBoolean true)
      else
        match buf with
        | [] => Undef
        | first :: _ =>
            if (ch "0" <=? first) && (first <=? ch "9")
            then Done (p_error p "Symbols cannot start with digits.", GstNil)
            else Done (p, GstString (gst_buffer_to_string buf))
        end
  end.

(** [top->...] where [top] comes from parser_peek: NULL is dereferenced
    without a test. *)
Definition load_top (p : GstParser) : exec (GstParser * nat * GstParseState) :=
  let '(p, top) := parser_peek p in
  match top with
  | None => Undef
  | Some top => f <- load p top ;; Done (p, top, f)
  end.

(* static int token_state(GstParser *p, uint8_t c)
   [top->buf.string.buffer] is the buffer of a Token or of a String frame. *)
Definition token_state (p : GstParser) (c : Z) : exec (GstParser * bool) :=
  '(p, top, f) <- load_top p ;;
  match f with
  | StRoot | StForm _ _ => Undef
  | StToken buf | StString buf _ =>
      if is_whitespace c || (c =? ch ")") || (c =? ch "]") || (c =? ch "}") then
        let '(p, _) := parser_pop p in
        '(p, x) <- build_token p buf ;;
        p <- parser_append p x ;;
        Done (p, negb ((c =? ch ")") || (c =? ch "]") || (c =? ch "}")))
      else if is_symbol_char c then
        p <- store p top
               match f with
               | StString _ state => StString (gst_buffer_push buf c) state
               | _ => StToken (gst_buffer_push buf c)
               end ;;
        Done (p, true)
      else Done (p_error p "Expected symbol character.", true)
  end.

(** The escapes of STRING_STATE_ESCAPE; [None] is the default case. *)
Definition string_escape (c : Z) : option Z :=
  if c =? ch "n" then Some (ch "010")
  else if c =? ch "r" then Some (ch "013")
  else if c =? ch "t" then Some (ch "009")
  else if c =? ch "f" then Some (ch "012")
  else if c =? ch "0" then Some (ch "000")
  else if c =? 34 then Some 34
  else if c =? ch "'" then Some (ch "'")
  else if c =? ch "z" then Some (ch "000")
  else None.

(* static int string_state(GstParser *p, uint8_t c)
   The byte 34 is the double quote, 92 the backslash. *)
Definition string_state (p : GstParser) (c : Z) : exec (GstParser * bool) :=
  '(p, top, f) <- load_top p ;;
  match f with
  | StString buffer STRING_STATE_BASE =>
      if c =? 92 then
        p <- store p top (StString buffer STRING_STATE_ESCAPE) ;;
        Done (p, true)
      else if c =? 34 then
        let x := GstString (gst_buffer_to_string buffer) in
        let array := gst_array 2 in
        let array := gst_array_push array (gst_load_cstring "quote") in
        let array := gst_array_push array x in
        let '(p, _) := parser_pop p in
        p <- parser_append p (GstArray array) ;;
        Done (p, true)
      else
        p <- store p top (StString (gst_buffer_push buffer c) STRING_STATE_BASE) ;;
        Done (p, true)
  | StString buffer STRING_STATE_ESCAPE =>
      match string_escape c with
      | None => Done (p_error p "Unknown string escape sequence.", true)
      | Some next =>
          p <- store p top (StString (gst_buffer_push buffer next) STRING_STATE_BASE) ;;
          Done (p, true)
      end
  | StString _ STRING_STATE_ESCAPE_HEX => Done (p, true)
  | StString _ STRING_STATE_ESCAPE_UNICODE => Done (p, true)
  | _ => Undef
  end.

(* static int root_state(GstParser *p, uint8_t c) *)
Definition root_state (p : GstParser) (c : Z) : exec (GstParser * bool) :=
  if (c =? ch "]") || (c =? ch ")") || (c =? ch "}") then
    Done (p_error p "Unexpected closing delimiter", true)
  else if (c =? ch "(") || (c =? ch "[") || (c =? ch "{") then
    p <- parser_push p PTYPE_FORM c ;; Done (p, true)
  else if c =? 34 then
    p <- parser_push p PTYPE_STRING c ;; Done (p, true)
  else if is_whitespace c then Done (p, true)
  else if is_symbol_char c then
    p <- parser_push p PTYPE_TOKEN c ;; Done (p, false)
  else Done (p_error p "Unexpected character.", true).

(* static int form_state(GstParser *p, uint8_t c) *)
Definition form_state (p : GstParser) (c : Z) : exec (GstParser * bool) :=
  '(p, top, f) <- load_top p ;;
  match f with
  | StForm (Some endDelimiter) array =>
      if c =? endDelimiter then
        let x := GstArray array in
        let '(p, _) := parser_pop p in
        p <- parser_append p x ;;
        Done (p, true)
      else root_state p c
  | _ => Undef
  end.

(* GstParseState *top = parser_peek(p); switch (top->type) { ... }
   the body of the loop of dispatch_char *)
Definition dispatch_step (p : GstParser) (c : Z) : exec (GstParser * bool) :=
  '(p, _, f) <- load_top p ;;
  match frame_type f with
  | PTYPE_ROOT => root_state p c
  | PTYPE_TOKEN => token_state p c
  | PTYPE_FORM => form_state p c
  | PTYPE_STRING => string_state p c
  end.

(* while (!done && p->status == GST_PARSER_PENDING) { ... } *)
Fixpoint dispatch_loop (fuel : nat) (p : GstParser) (c : Z) (done : bool)
  : exec (GstParser * bool) :=
  if negb done && status_eqb (status p) GST_PARSER_PENDING then
    match fuel with
    | O => OutOfFuel
    | S fuel' =>
        '(p, done) <- dispatch_step p c ;;
        dispatch_loop fuel' p c done
    end
  else Done (p, done).

(* static int dispatch_char(GstParser *p, uint8_t c) *)
Definition dispatch_char (p : GstParser) (c : Z) : exec (GstParser * bool) :=
  '(p, done) <- dispatch_loop 3 p c false ;;
  Done (set_index p (S (index p)), negb done).

(* while ((p->status == GST_PARSER_PENDING) && (string[bytesRead] != '\0'))
     dispatch_char(p, string[bytesRead++]);
   [string] holds the bytes at the pointer; the end of the list stands for
   the NUL that ends every C string. *)
Fixpoint parse_loop (p : GstParser) (string : list Z) (bytesRead : nat)
  : exec (GstParser * nat) :=
  match string with
  | [] => Done (p, bytesRead)
  | c :: rest =>
      if status_eqb (status p) GST_PARSER_PENDING && negb (c =? 0) then
        '(p, _) <- dispatch_char p c ;;
        parse_loop p rest (S bytesRead)
      else Done (p, bytesRead)
  end.

(* int gst_parse_cstring(GstParser *p, const char *string) *)
Definition gst_parse_cstring (p : GstParser) (string : list Z) : exec (GstParser * nat) :=
  let bytesRead := 0%nat in
  let p := set_status p GST_PARSER_PENDING in
  parse_loop p string bytesRead.

(* void gst_parser(GstParser *p, Gst *vm)
   Before the call the fields of [*p] hold nothing the function reads, but
   [value]'s payload, which stays as it was; it is taken as nil. *)
Definition gst_parser : exec GstParser :=
  let data := gst_alloc (sizeof_GstParseState * 10) in
  let p := mkGstParser data 0 10 0 None GST_PARSER_PENDING GstNil in
  parser_push p PTYPE_ROOT (ch " ").

(** ** Definitions the statements below use *)

(** The parser gst_parser leaves behind: the Root frame alone, in a block
    of ten slots. *)
Definition fresh_parser : GstParser :=
  mkGstParser (Some StRoot :: repeat None 9) 1 10 0 None GST_PARSER_PENDING GstNil.

(** A byte sequence without NUL. *)
Definition nul_free (s : list Z) : bool := forallb (fun c => negb (c =? 0)) s.

(** The bytes before the first NUL. *)
Fixpoint before_nul (s : list Z) : list Z :=
  match s with
  | [] => []
  | c :: rest => if c =? 0 then [] else c :: before_nul rest
  end.

(** A caller that feeds the chunks in turn, one gst_parse_cstring call for
    each, and adds up the byte counts the calls return. As section 3 of the
    specification asks, it makes no further call once a call has left the
    parser Complete or Error. *)
Fixpoint feed_while_pending (p : GstParser) (chunks : list (list Z)) (total : nat)
  : exec (GstParser * nat) :=
  match chunks with
  | [] => Done (p, total)
  | chunk :: chunks' =>
      '(p, n) <- gst_parse_cstring p chunk ;;
      if status_eqb (status p) GST_PARSER_PENDING
      then feed_while_pending p chunks' (total + n)
      else Done (p, (total + n)%nat)
  end.

(** What a caller can observe after a call: status, value, error message,
    the count the call returned, and the parser's own count of bytes. *)
Definition outcome (r : exec (GstParser * nat))
  : option (GstParserStatus * GstValue * option string * nat * nat) :=
  match r with
  | Done (p, n) => Some (status p, value p, error p, n, index p)
  | _ => None
  end.

(** The rational a finite [double] stands for. *)
Definition double_value (x : float) : option Q :=
  match Prim2SF x with
  | S754_zero _ => Some 0%Q
  | S754_finite s m e =>
      let q := if 0 <=? e then inject_Z (Z.pos m * 2 ^ e)
                else (Z.pos m # Z.to_pos (2 ^ (- e)))%Q in
      Some (if s then Qopp q else q)
  | S754_infinity _ | S754_nan => None
  end.

Definition exp10_double_exact_at (power : Z) : bool :=
  match exp10 power with
  | Done x =>
      match double_value x with
      | Some q => Qeq_bool q (inject_Z (10 ^ power))
      | None => false
      end
  | _ => false
  end.

(** The sign read_number takes off the front of a literal, and what is left. *)
Definition strip_sign (s : list Z) : Z * list Z :=
  match s with
  | [] => (1, [])
  | c :: rest =>
      if c =? ch "-" then (-1, rest)
      else if c =? ch "+" then (1, rest)
      else (1, s)
  end.

Definition no_digits (s : list Z) : bool := forallb (fun c => negb (is_digit c)) s.

Definition all_dots (s : list Z) : bool := forallb (fun c => c =? ch ".") s.

Definition list_Z_eqb (a b : list Z) : bool :=
  if list_eq_dec Z.eq_dec a b then true else false.

(** The value a string literal stands for: the form (quote "..."). *)
Definition quoted (buffer : list Z) : GstValue :=
  GstArray [GstString (bytes_of "quote"); GstString buffer].

(** The frame parser_push stores for a type and a triggering character. *)
Definition new_frame (type : ParseType) (character : Z) : GstParseState :=
  match type with
  | PTYPE_ROOT => StRoot
  | PTYPE_STRING => StString [] STRING_STATE_BASE
  | PTYPE_TOKEN => StToken []
  | PTYPE_FORM =>
      if character =? ch "{" then StForm (Some (ch "}")) [GstString (bytes_of "obj")]
      else if character =? ch "[" then StForm (Some (ch "]")) [GstString (bytes_of "array")]
      else if character =? ch "(" then StForm (Some (ch ")")) []
      else StForm None []
  end.

(** The stack as section 3 of the specification wants it while a parse is
    under way: at least one frame, the stack inside its block, the Root
    frame in slot 0 and every other slot of the stack holding a frame that
    is not a Root frame. *)
Definition stack_ok (p : GstParser) : Prop :=
  (1 <= count p <= cap p)%nat
  /\ (cap p <= List.length (data p))%nat
  /\ nth_error (data p) 0 = Some (Some StRoot)
  /\ forall i, (1 <= i < count p)%nat ->
       exists f, nth_error (data p) i = Some (Some f) /\ frame_type f <> PTYPE_ROOT.

(** The messages p_error is called with in parse.c. *)
Definition parser_messages : list string :=
  [ "parser stack underflow"; "Expected container type.";
    "Symbols cannot start with digits."; "Expected symbol character.";
    "Unknown string escape sequence."; "Unexpected closing delimiter";
    "Unexpected character." ]%string.

(** What a call leaves in [error] when it ends in Error. *)
Definition error_recorded (p : GstParser) : Prop :=
  status p = GST_PARSER_ERROR ->
  exists m, error p = Some m /\ In m parser_messages.

(** The bytes of all the strings inside a value, and inside a frame. *)
Fixpoint value_bytes (v : GstValue) : list Z :=
  match v with
  | GstString s => s
  | GstArray a => flat_map value_bytes a
  | _ => []
  end.

Definition frame_bytes (f : GstParseState) : list Z :=
  match f with
  | StRoot => []
  | StForm _ a => flat_map value_bytes a
  | StString b _ => b
  | StToken b => b
  end.

(** No byte of the list is a backslash. *)
Definition no_backslash (l : list Z) : Prop :=
  forallb (fun c => negb (c =? 92)) l = true.

(** No string the parser holds, in its value or in a slot of its block,
    contains a backslash. *)
Definition backslash_free (p : GstParser) : Prop :=
  no_backslash (value_bytes (value p))
  /\ forall i f, nth_error (data p) i = Some (Some f) -> no_backslash (frame_bytes f).

(** The opening delimiters, as root_state tests them. *)
Definition is_opening (c : Z) : bool :=
  (c =? ch "(") || (c =? ch "[") || (c =? ch "{").

(** The closing delimiter parser_push pairs with an opening one. *)
Definition closer (opening : Z) : Z :=
  if opening =? ch "{" then ch "}"
  else if opening =? ch "[" then ch "]"
  else ch ")".

(** The items parser_push seeds the form of an opening delimiter with. *)
Definition sentinel (opening : Z) : list GstValue :=
  if opening =? ch "{" then [GstString (bytes_of "obj")]
  else if opening =? ch "[" then [GstString (bytes_of "array")]
  else [].

(** A byte a token is made of: a symbol byte that is not whitespace (the
    comma lies in the range '*' to '/' but is whitespace). *)
Definition token_byte (c : Z) : bool := is_symbol_char c && negb (is_whitespace c).

(** What the bytes of a token stand for, when build_token raises no error
    for them. *)
Definition token_value (t : list Z) : option GstValue :=
  match read_number t false with
  | Done (Some number) => Some (GstNumber number)
  | Done None =>
      if list_Z_eqb t (bytes_of "nil") then Some GstNil
      else if list_Z_eqb t (bytes_of "false") then Some (GstBoolean false)
      else if list_Z_eqb t (bytes_of "true") then Some (GstBoolean true)
      else match t with
           | [] => None
           | first :: _ => if is_digit first then None else Some (GstString t)
           end
  | _ => None
  end.

(** The bytes a string literal stands for, given the text between its
    quotes: a backslash and the byte after it stand for the escaped byte,
    every other byte for itself; [None] when the text holds a quote, a NUL,
    an unknown escape or a backslash at its end. *)
Fixpoint string_decode (body : list Z) : option (list Z) :=
  match body with
  | [] => Some []
  | c :: rest =>
      if c =? 92 then
        match rest with
        | [] => None
        | e :: rest' =>
            match string_escape e with
            | Some x => option_map (cons x) (string_decode rest')
            | None => None
            end
        end
      else if (c =? 34) || (c =? 0) then None
      else option_map (cons c) (string_decode rest)
  end.

(** The text of a value: a token, a string literal, or a form whose items
    are separated by one space. *)
Inductive sexp : Type :=
| Atom (token : list Z)
| Str (body : list Z)
| Seq (opening : Z) (items : list sexp).

Fixpoint render (v : sexp) : list Z :=
  match v with
  | Atom t => t
  | Str body => 34 :: body ++ [34]
  | Seq o items =>
      o :: (fix join (l : list sexp) : list Z :=
              match l with
              | [] => []
              | i :: rest =>
                  match rest with
                  | [] => render i
                  | _ :: _ => render i ++ 32 :: join rest
                  end
              end) items ++ [closer o]
  end.

(** The text of the items of a form, one space between two of them. *)
Fixpoint items_text (items : list sexp) : list Z :=
  match items with
  | [] => []
  | i :: rest =>
      match rest with
      | [] => render i
      | _ :: _ => render i ++ 32 :: items_text rest
      end
  end.

(** The value the text stands for. *)
Fixpoint denote (v : sexp) : GstValue :=
  match v with
  | Atom t => match token_value t with Some x => x | None => GstNil end
  | Str body => quoted (match string_decode body with Some bs => bs | None => [] end)
  | Seq o items => GstArray (sentinel o ++ map denote items)
  end.

(** Texts the reader accepts without error. *)
Fixpoint well_formed (v : sexp) : bool :=
  match v with
  | Atom t =>
      match t with [] => false | _ :: _ => true end
      && forallb token_byte t
      && match token_value t with Some _ => true | None => false end
  | Str body => match string_decode body with Some _ => true | None => false end
  | Seq o items => is_opening o && forallb well_formed items
  end.

(** The frames a text needs above the frame it is appended to. *)
Fixpoint height (v : sexp) : nat :=
  match v with
  | Atom _ => 1
  | Str _ => 1
  | Seq _ items => S (fold_right (fun i m => Nat.max (height i) m) 0%nat items)
  end.

(** A byte that ends a token: whitespace or a closing delimiter, but not
    the NUL, at which the feed loop stops. *)
Definition ends_token (c : Z) : bool :=
  negb (c =? 0) && (is_whitespace c || is_closing c).

(** The bytes after a text let the reader see its end: a token is followed
    by a byte that ends it; a string literal and a form end by themselves. *)
Definition terminated (v : sexp) (rest : list Z) : bool :=
  match v with
  | Atom _ => match rest with c :: _ => ends_token c | [] => false end
  | _ => true
  end.

(** [p'] is [p] some bytes later, as far as the frames below slot [k] and
    the fields no handler has touched are concerned. *)
Definition evolves (p p' : GstParser) (k n : nat) : Prop :=
  cap p' = cap p /\ List.length (data p') = List.length (data p)
  /\ status p' = status p /\ error p' = error p /\ value p' = value p
  /\ index p' = (index p + n)%nat
  /\ forall i, (i < k)%nat -> nth_error (data p') i = nth_error (data p) i.

(** The top of the stack is the frame [f], in slot [k]. *)
Definition at_top (p : GstParser) (k : nat) (f : GstParseState) : Prop :=
  count p = S k /\ nth_error (data p) k = Some (Some f).


(** The bytes a reader at the Root frame takes for a text: a token ends at
    the byte after it, which is consumed with it; a string literal and a
    form end at their own last byte. *)
Definition consumed (v : sexp) : nat :=
  match v with
  | Atom t => S (List.length t)
  | _ => List.length (render v)
  end.

(** Reading the text [v] in a Form frame appends the value of [v] to the
    items of the form and leaves everything else as it was; the bytes after
    the text are still to be read. *)
Definition item_fed (v : sexp) : Prop :=
  forall p k d a rest n,
    status p = GST_PARSER_PENDING -> at_top p k (StForm (Some d) a) ->
    is_closing d = true ->
    (count p + height v <= cap p)%nat -> (cap p <= List.length (data p))%nat ->
    terminated v rest = true ->
    exists p',
      parse_loop p (render v ++ rest) n
      = parse_loop p' rest (n + List.length (render v))
      /\ at_top p' k (StForm (Some d) (a ++ [denote v]))
      /\ evolves p p' k (List.length (render v)).

(** A frame as the handlers leave it between two bytes: a Form frame knows
    its closing delimiter and a Token frame holds at least one byte. *)
Definition frame_ok (f : GstParseState) : bool :=
  match f with
  | StForm (Some d) _ => is_closing d
  | StForm None _ => false
  | StToken [] => false
  | _ => true
  end.

(** The stack between two bytes: well-formed, and every frame on it as the
    handlers leave it. *)
Definition sound_stack (p : GstParser) : Prop :=
  stack_ok p
  /\ forall i f, (i < count p)%nat -> nth_error (data p) i = Some (Some f) ->
                 frame_ok f = true.

(** The top frame is a token whose text read_number has no defined result
    for (its exponent is outside int, or overflows in exp10). *)
Definition undefined_token (p : GstParser) : Prop :=
  exists k buf, at_top p k (StToken buf) /\ read_number buf false = Undef.
(** * Properties *)

Unset Implicit Arguments.

(** ** exec *)

Lemma bind_Done (A B : Type) (c : exec A) (k : A -> exec B) (b : B) :
  bind c k = Done b -> exists a, c = Done a /\ k a = Done b.
Proof. destruct c; simpl; intros H; try discriminate. eauto. Qed.

Lemma bind_fuel (A B : Type) (c : exec A) (k : A -> exec B) :
  c <> OutOfFuel -> (forall a, k a <> OutOfFuel) -> bind c k <> OutOfFuel.
Proof. destruct c; simpl; auto. intros _ _; discriminate. Qed.

Lemma int_op_fuel (z : Z) : int_op z <> OutOfFuel.
Proof. unfold int_op. destruct (_ && _); discriminate. Qed.

Lemma int_op_Done (z r : Z) :
  int_op z = Done r -> r = z /\ INT_MIN <= z <= INT_MAX.
Proof.
  unfold int_op. destruct (INT_MIN <=? z) eqn:E1; destruct (z <=? INT_MAX) eqn:E2;
    simpl; intros H; inversion H; subst. lia.
Qed.

Section Exp10Facts.
Variable num : Type.
Variables (n_one n_ten : num) (n_mul n_div : num -> num -> num).

Lemma exp10_while_fuel (fuel : nat) :
  forall power result k,
    0 <= k <= 30 -> 31 <= k + Z.of_nat fuel ->
    exp10_while n_mul fuel power result (2 ^ k) <> OutOfFuel.
Proof.
  induction fuel as [|fuel IH]; intros power result k Hk Hf.
  - lia.
  - cbn [exp10_while]. destruct (int_op (2 ^ k * 2)) as [twice| |] eqn:E; cbn [bind].
    + apply int_op_Done in E. destruct E as [-> Hr].
      destruct (2 ^ k * 2 <=? power); [|discriminate].
      replace (2 ^ k * 2) with (2 ^ (k + 1)) in *
        by (rewrite Z.pow_add_r by lia; reflexivity).
      apply IH; [|lia].
      assert (k + 1 <= 30 \/ k = 30) as [Hk1|Hk1] by lia; [lia|].
      exfalso. subst k. unfold INT_MAX in Hr. change (2 ^ (30 + 1)) with 2147483648 in Hr. lia.
    + discriminate.
    + exfalso. exact (int_op_fuel _ E).
Qed.

Lemma exp10_while_bounds (fuel : nat) :
  forall power result currentPower r cp,
    1 <= currentPower <= power -> currentPower <= INT_MAX ->
    exp10_while n_mul fuel power result currentPower = Done (r, cp) ->
    currentPower <= cp /\ cp <= power /\ power < 2 * cp /\ cp <= INT_MAX.
Proof.
  induction fuel as [|fuel IH]; intros power result currentPower r cp Hc Hm H.
  - discriminate.
  - cbn [exp10_while] in H. apply bind_Done in H. destruct H as (twice & E & H).
    apply int_op_Done in E. destruct E as [-> Hr].
    destruct (currentPower * 2 <=? power) eqn:Ele.
    + apply Z.leb_le in Ele. apply IH in H; lia.
    + apply Z.leb_gt in Ele. inversion H; subst. lia.
Qed.

Lemma exp10_fuel_enough (n : nat) :
  forall f1 f2 power,
    0 <= power < 2 ^ Z.of_nat n -> (n < f1)%nat -> (n < f2)%nat ->
    exp10_fuel n_one n_ten n_mul n_div f1 power
    = exp10_fuel n_one n_ten n_mul n_div f2 power
    /\ exp10_fuel n_one n_ten n_mul n_div f1 power <> OutOfFuel.
Proof.
  induction n as [|n IH]; intros f1 f2 power Hp H1 H2;
    destruct f1 as [|f1]; try lia; destruct f2 as [|f2]; try lia;
    cbn [exp10_fuel].
  - change (2 ^ Z.of_nat 0) with 1 in Hp. assert (power = 0) as -> by lia.
    split; [reflexivity|discriminate].
  - destruct (power =? 0) eqn:E0; [split; [reflexivity|discriminate]|].
    apply Z.eqb_neq in E0.
    assert (0 < power) as Hpos by lia.
    apply Z.ltb_lt in Hpos. rewrite Hpos. apply Z.ltb_lt in Hpos.
    destruct (exp10_while n_mul 32 power n_ten 1) as [[r cp]| |] eqn:Ew; cbn [bind].
    + apply exp10_while_bounds in Ew; [|lia|unfold INT_MAX; lia].
      assert (0 <= power - cp < 2 ^ Z.of_nat n) as Hrec.
      { rewrite Nat2Z.inj_succ, Z.pow_succ_r in Hp by lia. lia. }
      destruct (IH f1 f2 (power - cp) Hrec) as [Heq Hne]; [lia|lia|].
      rewrite <- Heq. split; [reflexivity|].
      destruct (exp10_fuel n_one n_ten n_mul n_div f1 (power - cp)); cbn [bind];
        congruence.
    + split; [reflexivity|discriminate].
    + exfalso. revert Ew. change 1 with (2 ^ 0). apply exp10_while_fuel; lia.
Qed.

Lemma exp10_fuel_S (fuel : nat) (power : Z) :
  exp10_fuel n_one n_ten n_mul n_div (S fuel) power =
  if power =? 0 then Done n_one
  else if 0 <? power then
    '(result, currentPower) <- exp10_while n_mul 32 power n_ten 1 ;;
    rest <- exp10_fuel n_one n_ten n_mul n_div fuel (power - currentPower) ;;
    Done (n_mul result rest)
  else
    negated <- int_op (- power) ;;
    rest <- exp10_fuel n_one n_ten n_mul n_div fuel negated ;;
    Done (n_div n_one rest).
Proof. reflexivity. Qed.

Lemma exp10_fuel_any (f1 f2 : nat) (power : Z) :
  (32 < f1)%nat -> (32 < f2)%nat ->
  exp10_fuel n_one n_ten n_mul n_div (S f1) power
  = exp10_fuel n_one n_ten n_mul n_div (S f2) power
  /\ exp10_fuel n_one n_ten n_mul n_div (S f1) power <> OutOfFuel.
Proof.
  intros H1 H2. rewrite !exp10_fuel_S.
  destruct (power =? 0); [split; [reflexivity|discriminate]|].
  destruct (0 <? power) eqn:Hpos.
  - apply Z.ltb_lt in Hpos.
    destruct (exp10_while n_mul 32 power n_ten 1) as [[r cp]| |] eqn:Ew; cbn [bind].
    + apply exp10_while_bounds in Ew; [|lia|unfold INT_MAX; lia].
      assert (0 <= power - cp < 2 ^ Z.of_nat 32) as Hrec
          by (unfold INT_MAX in Ew; change (2 ^ Z.of_nat 32) with 4294967296; lia).
      destruct (exp10_fuel_enough 32 f1 f2 _ Hrec) as [Heq Hne]; [lia|lia|].
      rewrite <- Heq. split; [reflexivity|].
      destruct (exp10_fuel n_one n_ten n_mul n_div f1 (power - cp)); cbn [bind];
        congruence.
    + split; [reflexivity|discriminate].
    + exfalso. revert Ew. change 1 with (2 ^ 0). apply exp10_while_fuel; lia.
  - apply Z.ltb_ge in Hpos.
    destruct (int_op (- power)) as [np| |] eqn:En; cbn [bind].
    + apply int_op_Done in En. destruct En as [-> Hr].
      assert (0 <= - power < 2 ^ Z.of_nat 32) as Hrec
          by (unfold INT_MAX in Hr; change (2 ^ Z.of_nat 32) with 4294967296; lia).
      destruct (exp10_fuel_enough 32 f1 f2 _ Hrec) as [Heq Hne]; [lia|lia|].
      rewrite <- Heq. split; [reflexivity|].
      destruct (exp10_fuel n_one n_ten n_mul n_div f1 (- power)); cbn [bind];
        congruence.
    + split; [reflexivity|discriminate].
    + exfalso. exact (int_op_fuel _ En).
Qed.

(** The fuel of [exp10_gen] is never used up. *)
Lemma exp10_gen_fuel (power : Z) :
  exp10_gen n_one n_ten n_mul n_div power <> OutOfFuel.
Proof. unfold exp10_gen. apply (exp10_fuel_any 63 63); lia. Qed.

(** The equation of the C function: the recursive calls are calls of
    [exp10_gen] itself. *)
Lemma exp10_gen_unfold (power : Z) :
  exp10_gen n_one n_ten n_mul n_div power =
  if power =? 0 then Done n_one
  else if 0 <? power then
    '(result, currentPower) <- exp10_while n_mul 32 power n_ten 1 ;;
    rest <- exp10_gen n_one n_ten n_mul n_div (power - currentPower) ;;
    Done (n_mul result rest)
  else
    negated <- int_op (- power) ;;
    rest <- exp10_gen n_one n_ten n_mul n_div negated ;;
    Done (n_div n_one rest).
Proof.
  unfold exp10_gen. rewrite exp10_fuel_S.
  destruct (power =? 0); [reflexivity|].
  destruct (0 <? power).
  - destruct (exp10_while n_mul 32 power n_ten 1) as [[r cp]| |]; cbn [bind];
      [|reflexivity|reflexivity].
    destruct (exp10_fuel_any 62 63 (power - cp)) as [-> _]; [lia|lia|].
    reflexivity.
  - destruct (int_op (- power)) as [np| |]; cbn [bind];
      [|reflexivity|reflexivity].
    destruct (exp10_fuel_any 62 63 np) as [-> _]; [lia|lia|].
    reflexivity.
Qed.
End Exp10Facts.

(** *** exp10 on the rationals is the exact power of ten *)

Lemma Qten_nonzero : ~ (10 # 1 == 0)%Q.
Proof. discriminate. Qed.

Lemma exp10_while_Q (fuel : nat) :
  forall power result currentPower r cp,
    (result == (10 # 1) ^ currentPower)%Q ->
    exp10_while Qmult fuel power result currentPower = Done (r, cp) ->
    (r == (10 # 1) ^ cp)%Q.
Proof.
  induction fuel as [|fuel IH]; intros power result currentPower r cp Hinv H.
  - discriminate.
  - cbn [exp10_while] in H. apply bind_Done in H. destruct H as (twice & E & H).
    apply int_op_Done in E. destruct E as [-> _].
    destruct (currentPower * 2 <=? power).
    + apply IH in H; [exact H|].
      rewrite Hinv. replace (currentPower * 2) with (currentPower + currentPower) by lia.
      rewrite Qpower_plus by exact Qten_nonzero. reflexivity.
    + inversion H; subst. exact Hinv.
Qed.

Lemma exp10_while_defined (num : Type) (n_mul : num -> num -> num) (fuel : nat) :
  forall power result currentPower,
    1 <= currentPower <= power -> power < 2 ^ 30 ->
    exp10_while n_mul fuel power result currentPower <> Undef.
Proof.
  induction fuel as [|fuel IH]; intros power result currentPower Hc Hp.
  - discriminate.
  - cbn [exp10_while]. unfold int_op.
    change (2 ^ 30) with 1073741824 in Hp.
    replace ((INT_MIN <=? currentPower * 2) && (currentPower * 2 <=? INT_MAX))
      with true
      by (symmetry; apply andb_true_iff; unfold INT_MIN, INT_MAX; split;
          apply Z.leb_le; lia).
    cbn [bind].
    destruct (currentPower * 2 <=? power) eqn:Ele; [|discriminate].
    apply Z.leb_le in Ele. apply IH; lia.
Qed.

Lemma exp10_fuel_Q (n : nat) :
  forall power,
    0 <= power < 2 ^ Z.of_nat n -> power < 2 ^ 30 ->
    exists q, exp10_fuel 1%Q (10 # 1)%Q Qmult Qdiv (S n) power = Done q
              /\ (q == (10 # 1) ^ power)%Q.
Proof.
  induction n as [|n IH]; intros power Hp H30; rewrite exp10_fuel_S.
  - change (2 ^ Z.of_nat 0) with 1 in Hp. assert (power = 0) as -> by lia.
    exists 1%Q. split; reflexivity.
  - destruct (power =? 0) eqn:E0.
    { apply Z.eqb_eq in E0. subst. exists 1%Q. split; reflexivity. }
    apply Z.eqb_neq in E0.
    assert (0 < power) as Hpos by lia.
    apply Z.ltb_lt in Hpos. rewrite Hpos. apply Z.ltb_lt in Hpos.
    destruct (exp10_while Qmult 32 power (10 # 1)%Q 1) as [[r cp]| |] eqn:Ew.
    + assert (Hb := Ew).
      apply exp10_while_bounds in Hb; [|lia|unfold INT_MAX; lia].
      apply exp10_while_Q in Ew; [|reflexivity].
      destruct (IH (power - cp)) as (q & Hq & Hv).
      { rewrite Nat2Z.inj_succ, Z.pow_succ_r in Hp by lia. lia. }
      { lia. }
      cbn [bind]. rewrite Hq. cbn [bind]. exists (r * q)%Q. split; [reflexivity|].
      rewrite Ew, Hv, <- Qpower_plus by exact Qten_nonzero.
      replace (cp + (power - cp)) with power by lia. reflexivity.
    + exfalso. revert Ew. apply exp10_while_defined; lia.
    + exfalso. revert Ew. change 1 with (2 ^ 0). apply exp10_while_fuel; lia.
Qed.

(** On exact arithmetic [exp10] computes the integer power of ten, for every
    exponent whose doubling stays an [int]. *)
Lemma exp10_Q_exact (power : Z) :
  - 2 ^ 30 < power < 2 ^ 30 ->
  exists q, exp10_Q power = Done q /\ (q == (10 # 1) ^ power)%Q.
Proof.
  intros Hp. change (2 ^ 30) with 1073741824 in Hp.
  assert (Hnonneg : forall x, 0 <= x < 1073741824 -> forall f, (30 < f)%nat ->
            exists q, exp10_fuel 1%Q (10 # 1)%Q Qmult Qdiv f x = Done q
                      /\ (q == (10 # 1) ^ x)%Q).
  { intros x Hx f Hf.
    destruct (exp10_fuel_enough Q 1%Q (10 # 1)%Q Qmult Qdiv 30 f 31 x) as [-> _];
      [change (2 ^ Z.of_nat 30) with 1073741824; lia|lia|lia|].
    apply exp10_fuel_Q; change (2 ^ Z.of_nat 30) with 1073741824;
      change (2 ^ 30) with 1073741824; lia. }
  unfold exp10_Q, exp10_gen.
  destruct (Z_lt_le_dec power 0) as [Hneg|Hpos].
  - rewrite exp10_fuel_S.
    replace (power =? 0) with false by (symmetry; apply Z.eqb_neq; lia).
    replace (0 <? power) with false by (symmetry; apply Z.ltb_ge; lia).
    unfold int_op.
    replace ((INT_MIN <=? - power) && (- power <=? INT_MAX)) with true
      by (symmetry; apply andb_true_iff; unfold INT_MIN, INT_MAX; split;
          apply Z.leb_le; lia).
    cbn [bind].
    destruct (Hnonneg (- power) ltac:(lia) 63%nat ltac:(lia)) as (q & -> & Hv).
    cbn [bind]. exists (1 / q)%Q. split; [reflexivity|].
    rewrite Hv. rewrite <- (Z.opp_involutive power) at 2.
    rewrite (Qpower_opp _ (- power)). unfold Qdiv. ring.
  - apply Hnonneg; lia.
Qed.

(** *** exp10 on [double] is exact as long as the power of ten is a [double] *)

Lemma exp10_double_exact_all :
  forallb exp10_double_exact_at (map Z.of_nat (seq 0 23)) = true.
Proof. vm_compute. reflexivity. Qed.

Lemma exp10_double_exact (power : Z) :
  0 <= power <= 22 ->
  exists x q, exp10 power = Done x /\ double_value x = Some q
              /\ (q == inject_Z (10 ^ power))%Q.
Proof.
  intros Hp.
  assert (exp10_double_exact_at power = true) as Hall.
  { apply (proj1 (forallb_forall _ _) exp10_double_exact_all).
    apply in_map_iff. exists (Z.to_nat power). split; [lia|].
    apply in_seq. lia. }
  revert Hall. unfold exp10_double_exact_at.
  destruct (exp10 power) as [x| |].
  - destruct (double_value x) as [q|] eqn:Eq.
    + intros Hall. exists x, q. split; [reflexivity|]. split; [exact Eq|].
      apply Qeq_bool_iff. exact Hall.
    + intros Hall. exfalso. exact (Bool.diff_false_true Hall).
  - intros Hall. exfalso. exact (Bool.diff_false_true Hall).
  - intros Hall. exfalso. exact (Bool.diff_false_true Hall).
Qed.

(** *** read_number *)

Lemma double_to_int_fuel (x : float) : double_to_int x <> OutOfFuel.
Proof.
  unfold double_to_int. destruct (Prim2SF x); try discriminate. apply int_op_fuel.
Qed.

Lemma read_number_loop_ext (r1 r2 : list Z -> exec (option float)) :
  (forall e, r1 e = r2 e) ->
  forall string forceInt sign accum place,
    read_number_loop r1 forceInt sign string accum place
    = read_number_loop r2 forceInt sign string accum place.
Proof.
  intros Hext string. induction string as [|c rest IH]; intros forceInt sign accum place.
  - reflexivity.
  - cbn [read_number_loop].
    destruct ((c =? ch ".") && negb forceInt); [apply IH|].
    destruct (negb forceInt && ((c =? ch "e") || (c =? ch "E"))).
    + destruct rest; [reflexivity|]. rewrite Hext. reflexivity.
    + destruct ((c <? ch "0") || (ch "9" <? c)); [reflexivity|].
      destruct (place <? 1)%float; apply IH.
Qed.

(** With [forceInt] set the function does not call itself. *)
Lemma read_number_loop_forceInt (r1 r2 : list Z -> exec (option float)) :
  forall string sign accum place,
    read_number_loop r1 true sign string accum place
    = read_number_loop r2 true sign string accum place.
Proof.
  induction string as [|c rest IH]; intros sign accum place.
  - reflexivity.
  - cbn [read_number_loop]. rewrite andb_false_r. cbn [negb andb].
    destruct ((c <? ch "0") || (ch "9" <? c)); [reflexivity|].
    destruct (place <? 1)%float; apply IH.
Qed.

Ltac destruct_sign c :=
  destruct (c =? ch "-"); [|destruct (c =? ch "+")]; cbv beta iota zeta;
  try match goal with |- context [match ?s with [] => _ | _ :: _ => _ end] => destruct s end.

Lemma read_number_body_forceInt (r1 r2 : list Z -> exec (option float)) string :
  read_number_body r1 string true = read_number_body r2 string true.
Proof.
  unfold read_number_body. destruct string as [|c rest]; [reflexivity|].
  destruct_sign c; try reflexivity; apply read_number_loop_forceInt.
Qed.

(** The equation of the C function: the call for the exponent is a call of
    [read_number] itself, with [forceInt] set. *)
Lemma read_number_unfold (string : list Z) (forceInt : bool) :
  read_number string forceInt
  = read_number_body (fun exponent => read_number exponent true) string forceInt.
Proof.
  unfold read_number at 1. unfold read_number_body.
  destruct string as [|c rest]; [reflexivity|].
  destruct_sign c; try reflexivity; apply read_number_loop_ext; intros e;
    unfold read_number; apply read_number_body_forceInt.
Qed.

Lemma read_number_loop_fuel (r : list Z -> exec (option float)) :
  (forall e, r e <> OutOfFuel) ->
  forall string forceInt sign accum place,
    read_number_loop r forceInt sign string accum place <> OutOfFuel.
Proof.
  intros Hr string. induction string as [|c rest IH]; intros forceInt sign accum place.
  - discriminate.
  - cbn [read_number_loop].
    destruct ((c =? ch ".") && negb forceInt); [apply IH|].
    destruct (negb forceInt && ((c =? ch "e") || (c =? ch "E"))).
    + destruct rest; [discriminate|].
      apply bind_fuel; [apply Hr|]. intros [e|]; [|discriminate].
      apply bind_fuel; [apply double_to_int_fuel|]. intros power.
      apply bind_fuel; [apply exp10_gen_fuel|]. discriminate.
    + destruct ((c <? ch "0") || (ch "9" <? c)); [discriminate|].
      destruct (place <? 1)%float; apply IH.
Qed.

Lemma read_number_body_fuel (r : list Z -> exec (option float)) string forceInt :
  (forall e, r e <> OutOfFuel) ->
  read_number_body r string forceInt <> OutOfFuel.
Proof.
  intros Hr. unfold read_number_body. destruct string as [|c rest]; [discriminate|].
  destruct_sign c; try discriminate; apply read_number_loop_fuel; exact Hr.
Qed.

(** read_number returns: its fuel is never used up. *)
Lemma read_number_fuel (string : list Z) (forceInt : bool) :
  read_number string forceInt <> OutOfFuel.
Proof.
  unfold read_number. apply read_number_body_fuel. intros e.
  apply read_number_body_fuel. discriminate.
Qed.

(** *** check_str_const *)

Lemma check_str_const_eq (ref slice : list Z) :
  check_str_const ref slice = true <-> slice = ref.
Proof.
  revert slice. induction ref as [|r ref IH]; intros [|s slice]; simpl;
    try (split; [discriminate|congruence]); try (split; reflexivity).
  destruct (Z.eqb_spec r s) as [->|Hne]; simpl.
  - rewrite IH. split; congruence.
  - split; [discriminate|congruence].
Qed.

(** ** The feed loop of gst_parse_cstring *)

Lemma bind_assoc (A B C : Type) (c : exec A) (k : A -> exec B) (h : B -> exec C) :
  bind (bind c k) h = bind c (fun a => bind (k a) h).
Proof. destruct c; reflexivity. Qed.

Lemma bind_ext (A B : Type) (c : exec A) (k h : A -> exec B) :
  (forall a, k a = h a) -> bind c k = bind c h.
Proof. intros H. destruct c; simpl; auto. Qed.

Lemma status_eqb_eq (a b : GstParserStatus) : status_eqb a b = true <-> a = b.
Proof. destruct a, b; simpl; split; congruence. Qed.

Lemma set_status_same (p : GstParser) : set_status p (status p) = p.
Proof. destruct p; reflexivity. Qed.

Lemma gst_parser_fresh : gst_parser = Done fresh_parser.
Proof. reflexivity. Qed.

(** A parser that is not Pending is not touched by the loop. *)
Lemma parse_loop_stopped (p : GstParser) (string : list Z) (bytesRead : nat) :
  status p <> GST_PARSER_PENDING -> parse_loop p string bytesRead = Done (p, bytesRead).
Proof.
  intros H. destruct string as [|c rest]; [reflexivity|]. cbn [parse_loop].
  destruct (status_eqb (status p) GST_PARSER_PENDING) eqn:E; [|reflexivity].
  apply status_eqb_eq in E. contradiction.
Qed.

(** The count the loop starts from is only added to. *)
Lemma parse_loop_count (string : list Z) :
  forall p bytesRead,
    parse_loop p string bytesRead
    = '(p', k) <- parse_loop p string 0 ;; Done (p', (bytesRead + k)%nat).
Proof.
  induction string as [|c rest IH]; intros p bytesRead; cbn [parse_loop].
  - cbn [bind]. rewrite Nat.add_0_r. reflexivity.
  - destruct (status_eqb (status p) GST_PARSER_PENDING && negb (c =? 0)).
    + rewrite bind_assoc. apply bind_ext. intros [p' done].
      rewrite (IH p' (S bytesRead)), (IH p' 1%nat). rewrite bind_assoc.
      apply bind_ext. intros [p'' k]. cbn [bind]. f_equal. f_equal. lia.
    + cbn [bind]. rewrite Nat.add_0_r. reflexivity.
Qed.

(** Feeding [s1 ++ s2] is feeding [s1] and then, if the parser is still
    Pending, [s2]. *)
Lemma parse_loop_app (s1 s2 : list Z) :
  nul_free s1 = true ->
  forall p bytesRead,
    parse_loop p (s1 ++ s2) bytesRead
    = '(p', n) <- parse_loop p s1 bytesRead ;;
      if status_eqb (status p') GST_PARSER_PENDING
      then parse_loop p' s2 n else Done (p', n).
Proof.
  induction s1 as [|c rest IH]; intros Hnul p bytesRead.
  - cbn [app parse_loop bind].
    destruct (status_eqb (status p) GST_PARSER_PENDING) eqn:E; [reflexivity|].
    apply parse_loop_stopped. intros H. apply status_eqb_eq in H. congruence.
  - cbn [nul_free forallb] in Hnul. apply andb_true_iff in Hnul.
    destruct Hnul as [Hc Hrest]. cbn [app parse_loop]. rewrite Hc, andb_true_r.
    destruct (status_eqb (status p) GST_PARSER_PENDING) eqn:E.
    + rewrite bind_assoc. apply bind_ext. intros [p' done]. apply IH. exact Hrest.
    + cbn [bind]. rewrite E. reflexivity.
Qed.

Lemma gst_parse_cstring_pending (p : GstParser) (string : list Z) :
  status p = GST_PARSER_PENDING -> gst_parse_cstring p string = parse_loop p string 0.
Proof.
  intros H. unfold gst_parse_cstring. cbv zeta. rewrite <- H, set_status_same.
  reflexivity.
Qed.

(** Chunks fed to a Pending parser by a caller that stops at the first call
    leaving it Complete or Error: the result is that of the loop run once
    over the whole sequence. *)
Lemma feed_while_pending_concat (chunks : list (list Z)) :
  forallb nul_free chunks = true ->
  forall p total,
    status p = GST_PARSER_PENDING ->
    feed_while_pending p chunks total
    = '(p', k) <- parse_loop p (List.concat chunks) 0 ;; Done (p', (total + k)%nat).
Proof.
  induction chunks as [|chunk chunks IH]; intros Hnul p total Hp.
  - cbn. rewrite Nat.add_0_r. reflexivity.
  - cbn [forallb] in Hnul. apply andb_true_iff in Hnul. destruct Hnul as [Hc Hrest].
    cbn [feed_while_pending List.concat].
    rewrite (gst_parse_cstring_pending _ _ Hp), (parse_loop_app _ _ Hc).
    rewrite bind_assoc. apply bind_ext. intros [p' n].
    destruct (status_eqb (status p') GST_PARSER_PENDING) eqn:E.
    + apply status_eqb_eq in E. rewrite (IH Hrest p' (total + n)%nat E).
      rewrite (parse_loop_count (List.concat chunks) p' n), bind_assoc.
      apply bind_ext. intros [p'' k]. cbn [bind]. f_equal. f_equal. lia.
    + reflexivity.
Qed.

(** A NUL ends the input: what follows it is never looked at. *)
Lemma parse_loop_before_nul (string : list Z) :
  forall p bytesRead,
    parse_loop p string bytesRead = parse_loop p (before_nul string) bytesRead.
Proof.
  induction string as [|c rest IH]; intros p bytesRead; [reflexivity|].
  cbn [before_nul]. destruct (c =? 0) eqn:E.
  - cbn [parse_loop]. rewrite E, andb_false_r. reflexivity.
  - cbn [parse_loop]. rewrite E.
    destruct (status_eqb (status p) GST_PARSER_PENDING); [|reflexivity].
    cbn [negb andb]. apply bind_ext. intros [p' done]. apply IH.
Qed.

Lemma parse_loop_count_le (string : list Z) :
  forall p bytesRead p' n,
    parse_loop p string bytesRead = Done (p', n) ->
    (bytesRead <= n <= bytesRead + List.length string)%nat.
Proof.
  induction string as [|c rest IH]; intros p bytesRead p' n H; cbn [parse_loop] in H.
  - inversion H; subst. simpl. lia.
  - destruct (status_eqb (status p) GST_PARSER_PENDING && negb (c =? 0)).
    + apply bind_Done in H. destruct H as ([p1 done] & _ & H).
      apply IH in H. simpl. lia.
    + inversion H; subst. simpl. lia.
Qed.

(** A call that ends Complete or Error has stopped for good: bytes put
    after its input change nothing. *)
Lemma parse_loop_terminal (s1 s2 : list Z) :
  forall p bytesRead p' n,
    parse_loop p s1 bytesRead = Done (p', n) ->
    status p' <> GST_PARSER_PENDING ->
    parse_loop p (s1 ++ s2) bytesRead = Done (p', n).
Proof.
  induction s1 as [|c rest IH]; intros p bytesRead p' n H Hs.
  - cbn [parse_loop] in H. inversion H; subst. apply parse_loop_stopped. exact Hs.
  - cbn [app parse_loop] in *.
    destruct (status_eqb (status p) GST_PARSER_PENDING) eqn:E.
    + destruct (c =? 0) eqn:E0; cbn [negb andb] in *.
      * inversion H; subst. apply status_eqb_eq in E. contradiction.
      * destruct (dispatch_char p c) as [[p1 done]| |]; cbn [bind] in *;
          try discriminate. apply IH; assumption.
    + exact H.
Qed.

(** ** Chunked input, terminal states and NUL *)

(** C1. A NUL-free byte sequence fed to a fresh parser in one
    gst_parse_cstring call, or split into arbitrarily many chunks at
    arbitrary boundaries (empty chunks included) and fed by repeated calls
    until a call leaves the parser Complete or Error, ends in the same
    parser (status, value, error message, stack, count of bytes) and the
    same total of bytes read. *)
Theorem chunked_feed_equals_single_call (chunks : list (list Z)) :
  forallb nul_free chunks = true ->
  gst_parser = Done fresh_parser
  /\ feed_while_pending fresh_parser chunks 0
     = gst_parse_cstring fresh_parser (List.concat chunks).
Proof.
  intros Hnul. split; [exact gst_parser_fresh|].
  rewrite (feed_while_pending_concat chunks Hnul fresh_parser 0%nat eq_refl).
  rewrite (gst_parse_cstring_pending fresh_parser _ eq_refl).
  destruct (parse_loop fresh_parser (List.concat chunks) 0) as [[p k]| |];
    reflexivity.
Qed.

Lemma chunked_feed_equals_single_call_witness :
  forallb nul_free [bytes_of "(1 "; bytes_of "2"; []; bytes_of " 3) 4"] = true
  /\ feed_while_pending fresh_parser
       [bytes_of "(1 "; bytes_of "2"; []; bytes_of " 3) 4"] 0
     = gst_parse_cstring fresh_parser (bytes_of "(1 2 3) 4").
Proof.
  split; [reflexivity|].
  exact (proj2 (chunked_feed_equals_single_call
                  [bytes_of "(1 "; bytes_of "2"; []; bytes_of " 3) 4"] eq_refl)).
Defined.

(** C4 (as amended). Within the call that reaches it, Error or Complete is
    terminal: the loop dispatches no further byte, so the bytes [s2] that
    follow in the same input are not processed, and the loop leaves such a
    parser as it is. The next call of gst_parse_cstring sets the status back
    to Pending; on an empty input it reads no byte and changes nothing
    else. *)
Theorem terminal_within_call (p p' : GstParser) (s1 s2 : list Z) (n : nat) :
  gst_parse_cstring p s1 = Done (p', n) ->
  status p' <> GST_PARSER_PENDING ->
  gst_parse_cstring p (s1 ++ s2) = Done (p', n)
  /\ (forall s k, parse_loop p' s k = Done (p', k))
  /\ gst_parse_cstring p' [] = Done (set_status p' GST_PARSER_PENDING, 0%nat)
  /\ (forall s, gst_parse_cstring p' s
                = parse_loop (set_status p' GST_PARSER_PENDING) s 0).
Proof.
  intros H Hs. repeat split.
  - unfold gst_parse_cstring in *. cbv zeta in *.
    apply parse_loop_terminal; assumption.
  - intros s k. apply parse_loop_stopped. exact Hs.
Qed.

Lemma terminal_within_call_witness :
  gst_parse_cstring fresh_parser (bytes_of ")")
  = Done (set_index (p_error fresh_parser "Unexpected closing delimiter") 1, 1%nat)
  /\ gst_parse_cstring fresh_parser (bytes_of ")" ++ bytes_of "(a b)")
     = Done (set_index (p_error fresh_parser "Unexpected closing delimiter") 1, 1%nat).
Proof.
  split; [reflexivity|].
  refine (proj1 (terminal_within_call fresh_parser _ (bytes_of ")") (bytes_of "(a b)")
                   1%nat eq_refl _)).
  discriminate.
Defined.

(** C4, as stated, fails: after ")" has left a fresh parser in Error, the
    call on "a " reads two bytes and leaves it Complete with the value "a";
    after "1 " has left it Complete with 1, the call on "2 " replaces the
    value by 2. *)
Lemma terminal_status_counterexample :
  exists p q,
    gst_parse_cstring fresh_parser (bytes_of ")") = Done (p, 1%nat)
    /\ status p = GST_PARSER_ERROR
    /\ outcome (gst_parse_cstring p (bytes_of "a "))
       = Some (GST_PARSER_FULL, GstString (bytes_of "a"),
               Some "Unexpected closing delimiter"%string, 2%nat, 3%nat)
    /\ gst_parse_cstring fresh_parser (bytes_of "1 ") = Done (q, 2%nat)
    /\ status q = GST_PARSER_FULL /\ value q = GstNumber 1
    /\ outcome (gst_parse_cstring q (bytes_of "2 "))
       = Some (GST_PARSER_FULL, GstNumber 2, None, 2%nat, 4%nat).
Proof.
  eexists. eexists.
  split; [vm_compute; reflexivity|].
  repeat split; vm_compute; reflexivity.
Qed.

(** C10. NUL is in the whitespace class of the dispatcher, but
    gst_parse_cstring stops at the first NUL: the result of a call is that
    of the call on the bytes before the first NUL, the count returned never
    exceeds their number, and a token that a dispatched NUL would end is
    left open. *)
Theorem nul_never_consumed :
  is_whitespace 0 = true
  /\ (forall p s, gst_parse_cstring p s = gst_parse_cstring p (before_nul s))
  /\ (forall p s,
        match gst_parse_cstring p s with
        | Done (_, n) => (n <= List.length (before_nul s))%nat
        | _ => True
        end)
  /\ (exists p,
        gst_parse_cstring fresh_parser (bytes_of "ab" ++ 0 :: bytes_of " c")
        = Done (p, 2%nat)
        /\ status p = GST_PARSER_PENDING
        /\ frames p = [Some StRoot; Some (StToken (bytes_of "ab"))]
        /\ outcome (gst_parse_cstring p (0 :: bytes_of " c"))
           = Some (GST_PARSER_PENDING, GstNil, None, 0%nat, 2%nat)
        /\ outcome ('(q, _) <- dispatch_char p 0 ;; Done (q, 1%nat))
           = Some (GST_PARSER_FULL, GstString (bytes_of "ab"), None, 1%nat, 3%nat)).
Proof.
  split; [reflexivity|]. split; [|split].
  - intros p s. unfold gst_parse_cstring. cbv zeta. apply parse_loop_before_nul.
  - intros p s. unfold gst_parse_cstring. cbv zeta. rewrite parse_loop_before_nul.
    destruct (parse_loop _ (before_nul s) 0) as [[p' n]| |] eqn:E; [|exact I|exact I].
    apply parse_loop_count_le in E. lia.
  - eexists. split; [vm_compute; reflexivity|].
    repeat split; vm_compute; reflexivity.
Qed.

(** ** The stack: slots, load and store *)

Lemma nth_error_list_store_eq (A : Type) (l : list A) (i : nat) (x : A) :
  (i < List.length l)%nat -> nth_error (list_store l i x) i = Some x.
Proof.
  revert i. induction l as [|y l IH]; intros [|i] H; simpl in *; try lia.
  - reflexivity.
  - apply IH. lia.
Qed.

Lemma nth_error_list_store_neq (A : Type) (l : list A) (i j : nat) (x : A) :
  i <> j -> nth_error (list_store l i x) j = nth_error l j.
Proof.
  revert i j. induction l as [|y l IH]; intros [|i] [|j] H; simpl; try reflexivity.
  - contradiction.
  - apply IH. congruence.
Qed.

Lemma length_list_store (A : Type) (l : list A) (i : nat) (x : A) :
  List.length (list_store l i x) = List.length l.
Proof.
  revert i. induction l as [|y l IH]; intros [|i]; simpl; try reflexivity.
  f_equal. apply IH.
Qed.

Lemma nth_error_slot_length (A : Type) (l : list A) (i : nat) (x : A) :
  nth_error l i = Some x -> (i < List.length l)%nat.
Proof. intros H. apply nth_error_Some. congruence. Qed.

Lemma load_slot (p : GstParser) (i : nat) (f : GstParseState) :
  nth_error (data p) i = Some (Some f) -> load p i = Done f.
Proof. unfold load. intros ->. reflexivity. Qed.

Lemma store_slot (p : GstParser) (i : nat) (old : option GstParseState)
  (f : GstParseState) :
  nth_error (data p) i = Some old ->
  store p i f = Done (set_data p (list_store (data p) i (Some f))).
Proof.
  intros H. unfold store. apply nth_error_slot_length in H.
  apply Nat.ltb_lt in H. rewrite H. reflexivity.
Qed.

Lemma load_top_slot (p : GstParser) (k : nat) (f : GstParseState) :
  count p = S k -> nth_error (data p) k = Some (Some f) ->
  load_top p = Done (p, k, f).
Proof.
  intros Hc Hf. unfold load_top, parser_peek. rewrite Hc.
  rewrite (load_slot p k f Hf). reflexivity.
Qed.

(** parser_append on a stack whose top is the frame [f] of slot [k]. *)
Lemma parser_append_slot (p : GstParser) (k : nat) (f : GstParseState) (x : GstValue) :
  count p = S k -> nth_error (data p) k = Some (Some f) ->
  parser_append p x =
  match f with
  | StRoot => Done (set_status (set_value p x) GST_PARSER_FULL)
  | StForm endDelimiter array =>
      Done (set_data p (list_store (data p) k
                          (Some (StForm endDelimiter (array ++ [x])))))
  | _ => Done (p_error p "Expected container type.")
  end.
Proof.
  intros Hc Hf. unfold parser_append, parser_peek. rewrite Hc.
  rewrite (load_slot p k f Hf). cbn [bind].
  destruct f; try reflexivity.
  unfold gst_array_push. apply (store_slot p k _ _ Hf).
Qed.

(** *** string_state at the closing quote *)

Lemma string_state_close (p : GstParser) (k : nat) (buffer : list Z) :
  count p = S k ->
  nth_error (data p) k = Some (Some (StString buffer STRING_STATE_BASE)) ->
  string_state p 34 =
  (p' <- parser_append (set_count p k) (quoted buffer) ;; Done (p', true)).
Proof.
  intros Hc Hf. unfold string_state.
  rewrite (load_top_slot p k _ Hc Hf). cbn [bind].
  change (34 =? 92) with false. change (34 =? 34) with true. cbv iota.
  unfold parser_pop. rewrite Hc. reflexivity.
Qed.

(** *** build_token and token_state at the end of a token *)

Lemma build_token_fuel (p : GstParser) (buf : list Z) :
  build_token p buf <> OutOfFuel.
Proof.
  unfold build_token. apply bind_fuel; [apply read_number_fuel|].
  intros [number|]; [discriminate|].
  destruct (check_str_const _ buf); [discriminate|].
  destruct (check_str_const _ buf); [discriminate|].
  destruct (check_str_const _ buf); [discriminate|].
  destruct buf as [|first rest]; [discriminate|].
  destruct (_ && _); discriminate.
Qed.

Lemma check_str_const_head (r s : Z) (ref slice : list Z) :
  r <> s -> check_str_const (r :: ref) (s :: slice) = false.
Proof. intros H. cbn [check_str_const]. apply Z.eqb_neq in H. rewrite H. reflexivity. Qed.

Lemma is_digit_range (c : Z) : is_digit c = true <-> 48 <= c <= 57.
Proof.
  unfold is_digit. change (ch "0") with 48. change (ch "9") with 57.
  rewrite andb_true_iff, !Z.leb_le. reflexivity.
Qed.

(** A token that starts with a digit and is no number: the error is
    recorded and nil is the classifier's value. *)
Lemma build_token_digit_error (p : GstParser) (first : Z) (rest : list Z) :
  is_digit first = true ->
  read_number (first :: rest) false = Done None ->
  build_token p (first :: rest)
  = Done (p_error p "Symbols cannot start with digits.", GstNil).
Proof.
  intros Hd Hn. unfold build_token. rewrite Hn. cbn [bind].
  pose proof (proj1 (is_digit_range first) Hd) as Hr.
  change (bytes_of "nil") with [110; 105; 108].
  change (bytes_of "false") with [102; 97; 108; 115; 101].
  change (bytes_of "true") with [116; 114; 117; 101].
  rewrite !check_str_const_head by lia.
  fold (is_digit first). rewrite Hd. reflexivity.
Qed.

Lemma token_state_end (p : GstParser) (k : nat) (buf : list Z) (c : Z) :
  count p = S k ->
  nth_error (data p) k = Some (Some (StToken buf)) ->
  is_whitespace c || is_closing c = true ->
  token_state p c =
  ('(p1, x) <- build_token (set_count p k) buf ;;
   p2 <- parser_append p1 x ;;
   Done (p2, negb (is_closing c))).
Proof.
  intros Hc Hf Hend. unfold token_state.
  rewrite (load_top_slot p k _ Hc Hf). cbn [bind].
  unfold is_closing in *. rewrite !orb_assoc in *. rewrite Hend.
  unfold parser_pop. rewrite Hc. reflexivity.
Qed.

(** C7. A String frame in Base state that receives the closing quote is
    popped, and what is appended to the frame below is the two-element
    sequence (quote "<decoded bytes>"), never the bare string: a Root below
    takes it as the parser's value and becomes Complete, a Form below gets
    it pushed onto its items. The input "ab\ncd" in quotes, with the
    two-byte escape, yields (quote "ab<newline>cd"). *)
Theorem string_literal_is_quote_form (p : GstParser) (k : nat) (buffer : list Z)
  (parent : GstParseState) :
  count p = S (S k) ->
  nth_error (data p) (S k) = Some (Some (StString buffer STRING_STATE_BASE)) ->
  nth_error (data p) k = Some (Some parent) ->
  string_state p 34 =
    match parent with
    | StRoot =>
        Done (set_status (set_value (set_count p (S k)) (quoted buffer))
                GST_PARSER_FULL, true)
    | StForm endDelimiter array =>
        Done (set_data (set_count p (S k))
                (list_store (data p) k
                   (Some (StForm endDelimiter (array ++ [quoted buffer])))), true)
    | _ => Done (p_error (set_count p (S k)) "Expected container type.", true)
    end
  /\ quoted buffer = GstArray [GstString (bytes_of "quote"); GstString buffer]
  /\ outcome (gst_parse_cstring fresh_parser
                (34 :: bytes_of "ab" ++ 92 :: bytes_of "ncd" ++ [34]))
     = Some (GST_PARSER_FULL,
             GstArray [GstString (bytes_of "quote");
                       GstString (bytes_of "ab" ++ 10 :: bytes_of "cd")],
             None, 8%nat, 8%nat).
Proof.
  intros Hc Htop Hparent. split; [|split; [reflexivity|vm_compute; reflexivity]].
  rewrite (string_state_close p (S k) buffer Hc Htop).
  rewrite (parser_append_slot (set_count p (S k)) k parent (quoted buffer)
             eq_refl Hparent).
  destruct parent; reflexivity.
Qed.

Lemma string_literal_is_quote_form_witness :
  string_state
    (mkGstParser [Some StRoot; Some (StForm (Some (ch ")")) [GstNil]);
                  Some (StString (bytes_of "ab") STRING_STATE_BASE); None]
       3 4 5 None GST_PARSER_PENDING GstNil) 34
  = Done (mkGstParser [Some StRoot;
                       Some (StForm (Some (ch ")")) [GstNil; quoted (bytes_of "ab")]);
                       Some (StString (bytes_of "ab") STRING_STATE_BASE); None]
            2 4 5 None GST_PARSER_PENDING GstNil, true).
Proof.
  exact (proj1 (string_literal_is_quote_form
                  (mkGstParser [Some StRoot; Some (StForm (Some (ch ")")) [GstNil]);
                                Some (StString (bytes_of "ab") STRING_STATE_BASE); None]
                     3 4 5 None GST_PARSER_PENDING GstNil)
                  1 (bytes_of "ab") (StForm (Some (ch ")")) [GstNil])
                  eq_refl eq_refl eq_refl)).
Defined.

(** C9. When a finished token starts with a digit and is no number, the
    Token frame is popped first, the classifier records the error "Symbols
    cannot start with digits." and hands back nil, and that nil is still
    appended to the frame below: a Form below gets nil pushed onto its
    items (the status stays Error); a Root below takes nil as the parser's
    value. The state after the error is not the state before it. *)
Theorem digit_error_still_appends_nil (p : GstParser) (k : nat) (first : Z)
  (rest : list Z) (parent : GstParseState) (c : Z) :
  count p = S (S k) ->
  nth_error (data p) (S k) = Some (Some (StToken (first :: rest))) ->
  nth_error (data p) k = Some (Some parent) ->
  is_whitespace c || is_closing c = true ->
  is_digit first = true ->
  read_number (first :: rest) false = Done None ->
  let popped := set_count p (S k) in
  let failed := p_error popped "Symbols cannot start with digits." in
  build_token popped (first :: rest) = Done (failed, GstNil)
  /\ token_state p c =
     match parent with
     | StRoot =>
         Done (set_status (set_value failed GstNil) GST_PARSER_FULL,
               negb (is_closing c))
     | StForm endDelimiter array =>
         Done (set_data failed
                 (list_store (data p) k
                    (Some (StForm endDelimiter (array ++ [GstNil])))),
               negb (is_closing c))
     | _ => Done (p_error failed "Expected container type.", negb (is_closing c))
     end.
Proof.
  intros Hc Htop Hparent Hend Hd Hn popped failed.
  pose proof (build_token_digit_error popped first rest Hd Hn) as Hb.
  split; [exact Hb|].
  rewrite (token_state_end p (S k) _ c Hc Htop Hend).
  fold popped. rewrite Hb. cbn [bind]. cbv beta iota. fold failed.
  rewrite (parser_append_slot failed k parent GstNil eq_refl Hparent).
  destruct parent; reflexivity.
Qed.

Lemma digit_error_still_appends_nil_witness :
  token_state
    (mkGstParser [Some StRoot; Some (StForm (Some (ch ")")) [GstNumber 7]);
                  Some (StToken (bytes_of "1abc")); None]
       3 4 7 None GST_PARSER_PENDING GstNil) (ch ")")
  = Done (mkGstParser [Some StRoot;
                       Some (StForm (Some (ch ")")) [GstNumber 7; GstNil]);
                       Some (StToken (bytes_of "1abc")); None]
            2 4 7 (Some "Symbols cannot start with digits."%string)
            GST_PARSER_ERROR GstNil, false).
Proof.
  exact (proj2 (digit_error_still_appends_nil
                  (mkGstParser [Some StRoot; Some (StForm (Some (ch ")")) [GstNumber 7]);
                                Some (StToken (bytes_of "1abc")); None]
                     3 4 7 None GST_PARSER_PENDING GstNil)
                  1 (ch "1") (bytes_of "abc") (StForm (Some (ch ")")) [GstNumber 7])
                  (ch ")") eq_refl eq_refl eq_refl eq_refl eq_refl eq_refl)).
Defined.

(** ** Token classification and numeric literals *)

Lemma check_str_const_eqb (ref slice : list Z) :
  check_str_const ref slice = list_Z_eqb slice ref.
Proof.
  unfold list_Z_eqb. destruct (list_eq_dec Z.eq_dec slice ref) as [E|E].
  - apply check_str_const_eq. exact E.
  - destruct (check_str_const ref slice) eqn:H; [|reflexivity].
    apply check_str_const_eq in H. contradiction.
Qed.

(** build_token as a cascade of tests on the bytes of the token. *)
Lemma build_token_cascade (p : GstParser) (first : Z) (rest : list Z) :
  build_token p (first :: rest) =
    (number <- read_number (first :: rest) false ;;
     Done match number with
          | Some number => (p, GstNumber number)
          | None =>
              if list_Z_eqb (first :: rest) (bytes_of "nil") then (p, GstNil)
              else if list_Z_eqb (first :: rest) (bytes_of "false")
                   then (p, GstBoolean false)
              else if list_Z_eqb (first :: rest) (bytes_of "true")
                   then (p, GstBoolean true)
              else if is_digit first
                   then (p_error p "Symbols cannot start with digits.", GstNil)
              else (p, GstString (first :: rest))
          end).
Proof.
  unfold build_token. apply bind_ext. intros [number|]; [reflexivity|].
  rewrite !check_str_const_eqb.
  destruct (list_Z_eqb (first :: rest) (bytes_of "nil")); [reflexivity|].
  destruct (list_Z_eqb (first :: rest) (bytes_of "false")); [reflexivity|].
  destruct (list_Z_eqb (first :: rest) (bytes_of "true")); [reflexivity|].
  fold (is_digit first). destruct (is_digit first); reflexivity.
Qed.

Lemma not_digit_test (c : Z) :
  is_digit c = false -> (c <? ch "0") || (ch "9" <? c) = true.
Proof.
  unfold is_digit. change (ch "0") with 48. change (ch "9") with 57.
  intros H. apply andb_false_iff in H. apply orb_true_iff.
  destruct H as [H|H]; apply Z.leb_gt in H; [left|right]; apply Z.ltb_lt; lia.
Qed.

Lemma no_digits_cons (c : Z) (s : list Z) :
  no_digits (c :: s) = true -> is_digit c = false /\ no_digits s = true.
Proof.
  unfold no_digits. cbn [forallb]. intros H. apply andb_true_iff in H.
  destruct H as [H1 H2]. split; [|exact H2]. apply negb_true_iff. exact H1.
Qed.

Lemma read_number_loop_forceInt_not_digit (r : list Z -> exec (option float))
  (sign c : Z) (rest : list Z) (accum place : float) :
  is_digit c = false ->
  read_number_loop r true sign (c :: rest) accum place = Done None.
Proof.
  intros H. cbn [read_number_loop]. rewrite andb_false_r. cbn [negb andb].
  rewrite (not_digit_test c H). reflexivity.
Qed.

(** With [forceInt] set, a range without a digit is rejected. *)
Lemma read_number_forceInt_no_digits (s : list Z) :
  no_digits s = true -> read_number s true = Done None.
Proof.
  intros H. unfold read_number, read_number_body.
  destruct s as [|c rest]; [reflexivity|].
  apply no_digits_cons in H. destruct H as [Hc Hrest].
  destruct (c =? ch "-"); [|destruct (c =? ch "+")]; cbv beta iota zeta.
  - destruct rest as [|d r]; [reflexivity|].
    apply no_digits_cons in Hrest. destruct Hrest as [Hd _].
    apply read_number_loop_forceInt_not_digit. exact Hd.
  - destruct rest as [|d r]; [reflexivity|].
    apply no_digits_cons in Hrest. destruct Hrest as [Hd _].
    apply read_number_loop_forceInt_not_digit. exact Hd.
  - apply read_number_loop_forceInt_not_digit. exact Hc.
Qed.

(** Without [forceInt], the scan of a range without a digit succeeds only
    if it meets nothing but dots; the accumulator is then what it was. *)
Lemma read_number_loop_no_digits (s : list Z) :
  forall sign accum place,
    no_digits s = true ->
    read_number_loop (fun e => read_number e true) false sign s accum place
    = if all_dots s
      then Done (Some (accum * int_to_double sign * 1)%float)
      else Done None.
Proof.
  induction s as [|c rest IH]; intros sign accum place H; [reflexivity|].
  apply no_digits_cons in H. destruct H as [Hc Hrest].
  cbn [read_number_loop all_dots forallb negb andb].
  destruct (c =? ch ".") eqn:Edot; cbn [andb].
  - apply IH. exact Hrest.
  - destruct ((c =? ch "e") || (c =? ch "E")).
    + destruct rest as [|d r]; [reflexivity|].
      rewrite (read_number_forceInt_no_digits (d :: r) Hrest). reflexivity.
    + rewrite (not_digit_test c Hc). reflexivity.
Qed.

(** C3 (as amended). On a byte range without an ASCII digit read_number
    fails unless what follows the optional sign is a non-empty run of dots,
    which it accepts as zero (minus zero after '-'): "+", "-", "e" and "+-"
    fail, ".", "+." and "-.." do not. When it fails on such a token the
    failure is no parser error: build_token leaves the parser as it is and
    the token is Nil, a Boolean or a String by the later tests. *)
Theorem zero_digit_literal (s : list Z) :
  no_digits s = true ->
  read_number s false =
    (let '(sign, body) := strip_sign s in
     match body with
     | [] => Done None
     | _ :: _ =>
         if all_dots body
         then Done (Some (if sign =? -1 then (-0)%float else 0%float))
         else Done None
     end)
  /\ (forall p, s <> [] -> read_number s false = Done None ->
        build_token p s =
        Done (p, if list_Z_eqb s (bytes_of "nil") then GstNil
                 else if list_Z_eqb s (bytes_of "false") then GstBoolean false
                 else if list_Z_eqb s (bytes_of "true") then GstBoolean true
                 else GstString s)).
Proof.
  intros H. split.
  - rewrite read_number_unfold. unfold read_number_body, strip_sign.
    destruct s as [|c rest]; [reflexivity|].
    pose proof (no_digits_cons c rest H) as [Hc Hrest].
    destruct (c =? ch "-"); [|destruct (c =? ch "+")]; cbv beta iota zeta.
    + destruct rest as [|d r]; [reflexivity|].
      rewrite (read_number_loop_no_digits (d :: r) _ _ _ Hrest).
      destruct (all_dots (d :: r)); reflexivity.
    + destruct rest as [|d r]; [reflexivity|].
      rewrite (read_number_loop_no_digits (d :: r) _ _ _ Hrest).
      destruct (all_dots (d :: r)); reflexivity.
    + rewrite (read_number_loop_no_digits (c :: rest) _ _ _ H).
      destruct (all_dots (c :: rest)); reflexivity.
  - intros p Hne Hfail. destruct s as [|first rest]; [contradiction|].
    rewrite (build_token_cascade p first rest).
    rewrite Hfail. cbn [bind].
    destruct (no_digits_cons first rest H) as [-> _].
    destruct (list_Z_eqb (first :: rest) (bytes_of "nil")); [reflexivity|].
    destruct (list_Z_eqb (first :: rest) (bytes_of "false")); [reflexivity|].
    destruct (list_Z_eqb (first :: rest) (bytes_of "true")); reflexivity.
Qed.

Lemma zero_digit_literal_witness :
  no_digits (bytes_of "+") = true
  /\ read_number (bytes_of "+") false = Done None
  /\ build_token fresh_parser (bytes_of "+")
     = Done (fresh_parser, GstString (bytes_of "+")).
Proof.
  split; [reflexivity|].
  pose proof (zero_digit_literal (bytes_of "+") eq_refl) as [Hnum Htok].
  split; [exact Hnum|].
  exact (Htok fresh_parser ltac:(discriminate) Hnum).
Defined.

(** C3, as stated, fails on ".": the range holds no digit and read_number
    accepts it, so the token "." is the Number 0; "+." likewise. *)
Lemma zero_digit_counterexample :
  no_digits (bytes_of ".") = true
  /\ read_number (bytes_of ".") false = Done (Some 0%float)
  /\ build_token fresh_parser (bytes_of ".") = Done (fresh_parser, GstNumber 0%float)
  /\ no_digits (bytes_of "+.") = true
  /\ read_number (bytes_of "+.") false = Done (Some 0%float).
Proof. repeat split; vm_compute; reflexivity. Qed.

(** C6. "1e2" decodes to 100 and "-0.5" to -0.5. When the scan meets 'e' or
    'E' outside force-integer mode, it decodes all the bytes that follow by
    a call of read_number itself in force-integer mode; the literal fails
    when nothing follows or when that call fails; otherwise the value is
    accumulator times sign times exp10 of the exponent, and the scan is
    over. In force-integer mode 'e' is no digit and fails. exp10 squares its
    result while the doubled power fits and multiplies by exp10 of what is
    left; on exact arithmetic this is 10 to the given power, and on
    doubles it is exactly that for the powers 0 to 22. *)
Theorem number_exponent :
  read_number (bytes_of "1e2") false = Done (Some 100%float)
  /\ read_number (bytes_of "-0.5") false = Done (Some (-0.5)%float)
  /\ (forall s, read_number s false
                = read_number_body (fun e => read_number e true) s false)
  /\ (forall c sign rest accum place,
        c = ch "e" \/ c = ch "E" ->
        read_number_loop (fun e => read_number e true) false sign (c :: rest)
          accum place
        = match rest with
          | [] => Done None
          | _ :: _ =>
              r <- read_number rest true ;;
              match r with
              | None => Done None
              | Some e =>
                  power <- double_to_int e ;;
                  exp <- exp10 power ;;
                  Done (Some (accum * int_to_double sign * exp)%float)
              end
          end)
  /\ (forall r c sign rest accum place,
        c = ch "e" \/ c = ch "E" ->
        read_number_loop r true sign (c :: rest) accum place = Done None)
  /\ read_number (bytes_of "1e") false = Done None
  /\ read_number (bytes_of "1ex") false = Done None
  /\ read_number (bytes_of "1e2e3") false = Done None
  /\ read_number (bytes_of "1e2.5") false = Done None
  /\ read_number (bytes_of "25e-1") false = Done (Some 2.5%float)
  /\ (forall power,
        exp10 power =
        if power =? 0 then Done 1%float
        else if 0 <? power then
          '(result, currentPower) <- exp10_while PrimFloat.mul 32 power 10%float 1 ;;
          rest <- exp10 (power - currentPower) ;;
          Done (result * rest)%float
        else
          negated <- int_op (- power) ;;
          rest <- exp10 negated ;;
          Done (1 / rest)%float)
  /\ (forall power, - 2 ^ 30 < power < 2 ^ 30 ->
        exists q, exp10_Q power = Done q /\ (q == (10 # 1) ^ power)%Q)
  /\ (forall power, 0 <= power <= 22 ->
        exists x q, exp10 power = Done x /\ double_value x = Some q
                    /\ (q == inject_Z (10 ^ power))%Q).
Proof.
  split; [vm_compute; reflexivity|].
  split; [vm_compute; reflexivity|].
  split; [intros s; apply read_number_unfold|].
  split.
  { intros c sign rest accum place [-> | ->]; reflexivity. }
  split.
  { intros r c sign rest accum place [-> | ->]; reflexivity. }
  split; [vm_compute; reflexivity|].
  split; [vm_compute; reflexivity|].
  split; [vm_compute; reflexivity|].
  split; [vm_compute; reflexivity|].
  split; [vm_compute; reflexivity|].
  split; [intros power; apply exp10_gen_unfold|].
  split; [exact exp10_Q_exact|exact exp10_double_exact].
Qed.

Lemma number_exponent_witness :
  read_number_loop (fun e => read_number e true) false 1 (bytes_of "e2") 1%float
    1%float
  = Done (Some 100%float)
  /\ (exists q, exp10_Q (-3) = Done q /\ (q == (10 # 1) ^ (-3))%Q)
  /\ (exists x q, exp10 22 = Done x /\ double_value x = Some q
                  /\ (q == inject_Z (10 ^ 22))%Q).
Proof.
  destruct number_exponent
    as (_ & _ & _ & He & _ & _ & _ & _ & _ & _ & _ & Hq & Hd).
  split; [|split].
  - change (bytes_of "e2") with (ch "e" :: bytes_of "2").
    rewrite (He (ch "e") 1 (bytes_of "2") 1%float 1%float (or_introl eq_refl)).
    vm_compute. reflexivity.
  - apply Hq. split; reflexivity.
  - apply Hd. split; discriminate.
Defined.

(** ** Growth of the stack *)

Ltac two_delimiters :=
  repeat match goal with
         | H : (_ =? _) = true |- _ => apply Z.eqb_eq in H
         end;
  subst;
  match goal with
  | H : ch _ = ch _ |- _ => vm_compute in H; discriminate H
  end.

(** With room left in the block, parser_push stores the new frame in the
    slot above the top and touches nothing else. *)
Lemma parser_push_below_capacity (p : GstParser) (type : ParseType) (character : Z) :
  (count p < cap p)%nat -> (cap p <= List.length (data p))%nat ->
  parser_push p type character
  = Done (set_data (set_count p (S (count p)))
            (list_store (data p) (count p) (Some (new_frame type character)))).
Proof.
  intros Hroom Hblock. unfold parser_push.
  replace (cap p <=? count p)%nat with false
    by (symmetry; apply Nat.leb_gt; exact Hroom).
  unfold parser_peek. cbn [count set_count].
  assert (forall f,
            store (set_count p (S (count p))) (count p) f
            = Done (set_data (set_count p (S (count p)))
                      (list_store (data p) (count p) (Some f)))) as Hstore.
  { intros f. unfold store. cbn [data set_count].
    replace (count p <? List.length (data p))%nat with true
      by (symmetry; apply Nat.ltb_lt; lia).
    reflexivity. }
  destruct type; try apply Hstore.
  unfold gst_array, gst_array_push, gst_load_cstring.
  destruct (character =? ch "(") eqn:E1; destruct (character =? ch "[") eqn:E2;
    destruct (character =? ch "{") eqn:E3;
    try (rewrite Hstore; unfold new_frame; rewrite E1, E2, E3; reflexivity);
    exfalso; clear Hstore; two_delimiters.
Qed.

Lemma gst_alloc_too_small (n : nat) : (List.length (gst_alloc (2 * n)) <= n)%nat.
Proof.
  unfold gst_alloc, sizeof_GstParseState. rewrite repeat_length.
  apply Nat.Div0.div_le_upper_bound. lia.
Qed.

Lemma gst_alloc_empty (bytes : nat) : Forall (fun slot => slot = None) (gst_alloc bytes).
Proof.
  unfold gst_alloc. apply Forall_forall. intros slot H.
  apply repeat_spec in H. exact H.
Qed.

(** When [count] has reached [cap], parser_push replaces the block by one
    of [2 * count] bytes, which has no slot [count], and stores the new
    frame there: a store outside the block. *)
Lemma parser_push_at_capacity (p : GstParser) (type : ParseType) (character : Z) :
  (cap p <= count p)%nat -> parser_push p type character = Undef.
Proof.
  intros Hfull. unfold parser_push.
  replace (cap p <=? count p)%nat with true
    by (symmetry; apply Nat.leb_le; exact Hfull).
  unfold parser_peek. cbn [count set_count set_cap set_data].
  assert (forall f,
            store (set_count (set_cap (set_data p (gst_alloc (2 * count p)))
                                (2 * count p)%nat) (S (count p))) (count p) f
            = Undef) as Hstore.
  { intros f. unfold store. cbn [data set_count set_cap set_data].
    replace (count p <? List.length (gst_alloc (2 * count p)))%nat with false;
      [reflexivity|].
    symmetry. apply Nat.ltb_ge. apply gst_alloc_too_small. }
  destruct type; try apply Hstore.
  destruct (character =? ch "("), (character =? ch "["), (character =? ch "{");
    apply Hstore.
Qed.

(** C2. parser_push grows the stack by one initialized frame and keeps the
    frames below it while the block has room (parser_push_below_capacity),
    but not "for every parser state". Once the frame count has reached the
    capacity it asks the allocator for a block of [2 * count] bytes, which
    is shorter than [count] frames and holds none of the frames of the
    stack, makes it the stack without copying anything, and stores the new
    frame in slot [count], outside that block: the push is undefined
    behaviour, for every kind of frame and every triggering byte. *)
Theorem parser_push_at_capacity_undefined (p : GstParser) (type : ParseType)
  (character : Z) :
  (cap p <= count p)%nat ->
  parser_push p type character = Undef
  /\ (List.length (gst_alloc (2 * count p)) <= count p)%nat
  /\ Forall (fun slot => slot = None) (gst_alloc (2 * count p)).
Proof.
  intros Hfull. split; [exact (parser_push_at_capacity p type character Hfull)|].
  split; [apply gst_alloc_too_small|apply gst_alloc_empty].
Qed.

(** Nine opening parentheses fill the ten slots of a fresh parser; the
    push for the tenth is the undefined one. *)
Lemma parser_push_at_capacity_undefined_witness :
  gst_parse_cstring fresh_parser (bytes_of "(((((((((")
  = Done (mkGstParser (Some StRoot :: repeat (Some (StForm (Some (ch ")")) [])) 9)
            10 10 9 None GST_PARSER_PENDING GstNil, 9%nat)
  /\ parser_push
       (mkGstParser (Some StRoot :: repeat (Some (StForm (Some (ch ")")) [])) 9)
          10 10 9 None GST_PARSER_PENDING GstNil) PTYPE_FORM (ch "(") = Undef
  /\ gst_alloc (2 * 10) = [].
Proof.
  split; [vm_compute; reflexivity|].
  split; [|reflexivity].
  exact (proj1 (parser_push_at_capacity_undefined
                  (mkGstParser
                     (Some StRoot :: repeat (Some (StForm (Some (ch ")")) [])) 9)
                     10 10 9 None GST_PARSER_PENDING GstNil)
                  PTYPE_FORM (ch "(") (le_n 10))).
Defined.

(** ** dispatch_char returns: its loop runs at most twice *)

Lemma load_top_Done (p q : GstParser) (k : nat) (f : GstParseState) :
  load_top p = Done (q, k, f) ->
  q = p /\ count p = S k /\ nth_error (data p) k = Some (Some f).
Proof.
  unfold load_top, parser_peek, load. destruct (count p) as [|n]; [discriminate|].
  destruct (nth_error (data p) n) as [[g|]|] eqn:E; cbn [bind]; try discriminate.
  intros H. inversion H; subst. auto.
Qed.

Lemma store_Done (p q : GstParser) (i : nat) (f : GstParseState) :
  store p i f = Done q ->
  q = set_data p (list_store (data p) i (Some f)) /\ (i < List.length (data p))%nat.
Proof.
  unfold store. destruct (i <? List.length (data p))%nat eqn:E; [|discriminate].
  intros H. inversion H. apply Nat.ltb_lt in E. auto.
Qed.

Lemma store_top (p q : GstParser) (i : nat) (f : GstParseState) :
  store p i f = Done q ->
  count q = count p /\ status q = status p
  /\ nth_error (data q) i = Some (Some f).
Proof.
  intros H. apply store_Done in H. destruct H as [-> Hi].
  repeat split. cbn [data set_data]. apply nth_error_list_store_eq. exact Hi.
Qed.

Lemma store_fuel (p : GstParser) (i : nat) (f : GstParseState) :
  store p i f <> OutOfFuel.
Proof. unfold store. destruct (_ <? _)%nat; discriminate. Qed.

Lemma load_top_fuel (p : GstParser) : load_top p <> OutOfFuel.
Proof.
  unfold load_top, parser_peek, load. destruct (count p) as [|n]; [discriminate|].
  destruct (nth_error (data p) n) as [[g|]|]; discriminate.
Qed.

Lemma parser_append_fuel (p : GstParser) (x : GstValue) :
  parser_append p x <> OutOfFuel.
Proof.
  unfold parser_append, parser_peek, load. destruct (count p) as [|n]; [discriminate|].
  destruct (nth_error (data p) n) as [[g|]|]; cbn [bind]; try discriminate.
  destruct g; try discriminate. apply store_fuel.
Qed.

Lemma parser_push_fuel (p : GstParser) (type : ParseType) (character : Z) :
  parser_push p type character <> OutOfFuel.
Proof.
  unfold parser_push, parser_peek. cbn [count set_count].
  destruct type; try apply store_fuel.
  destruct (character =? ch "["); destruct (character =? ch "{"); apply store_fuel.
Qed.

Ltac fuel_step :=
  first [ apply store_fuel | apply parser_append_fuel | apply parser_push_fuel
        | apply build_token_fuel | apply load_top_fuel | discriminate ].

Lemma root_state_fuel (p : GstParser) (c : Z) : root_state p c <> OutOfFuel.
Proof.
  unfold root_state.
  repeat match goal with
         | |- (if ?b then _ else _) <> _ => destruct b
         | |- bind _ _ <> _ => apply bind_fuel; [fuel_step|intros ?]
         end; fuel_step.
Qed.

Lemma token_state_fuel (p : GstParser) (c : Z) : token_state p c <> OutOfFuel.
Proof.
  unfold token_state. apply bind_fuel; [fuel_step|]. intros [[q top] f].
  destruct f as [|d a|buf st|buf]; try discriminate;
    (destruct (is_whitespace c || (c =? ch ")") || (c =? ch "]") || (c =? ch "}"));
     [ destruct (parser_pop q) as [q' o];
       apply bind_fuel; [fuel_step|]; intros [q1 x];
       apply bind_fuel; [fuel_step|]; intros q2; discriminate
     | destruct (is_symbol_char c); [|discriminate];
       apply bind_fuel; [fuel_step|]; intros q1; discriminate ]).
Qed.

Lemma string_state_fuel (p : GstParser) (c : Z) : string_state p c <> OutOfFuel.
Proof.
  unfold string_state. apply bind_fuel; [fuel_step|]. intros [[q top] f].
  destruct f as [|d a|buf st|buf]; try discriminate.
  destruct st; try discriminate.
  - destruct (c =? 92).
    { apply bind_fuel; [fuel_step|]; intros q1; discriminate. }
    destruct (c =? 34).
    { destruct (parser_pop q) as [q' o].
      apply bind_fuel; [fuel_step|]; intros q1; discriminate. }
    apply bind_fuel; [fuel_step|]; intros q1; discriminate.
  - destruct (string_escape c); [|discriminate].
    apply bind_fuel; [fuel_step|]; intros q1; discriminate.
Qed.

Lemma form_state_fuel (p : GstParser) (c : Z) : form_state p c <> OutOfFuel.
Proof.
  unfold form_state. apply bind_fuel; [fuel_step|]. intros [[q top] f].
  destruct f as [|[d|] a|buf st|buf]; try discriminate.
  destruct (c =? d); [|apply root_state_fuel].
  destruct (parser_pop q) as [q' o].
  apply bind_fuel; [fuel_step|]; intros q1; discriminate.
Qed.

Lemma dispatch_step_fuel (p : GstParser) (c : Z) : dispatch_step p c <> OutOfFuel.
Proof.
  unfold dispatch_step. apply bind_fuel; [fuel_step|]. intros [[q top] f].
  destruct (frame_type f);
    [apply root_state_fuel|apply form_state_fuel|apply string_state_fuel
    |apply token_state_fuel].
Qed.

(** root_state leaves the byte to be dispatched again only after it has
    pushed a Token frame for a symbol byte. *)
Lemma root_state_again (p p1 : GstParser) (c : Z) :
  root_state p c = Done (p1, false) ->
  is_symbol_char c = true
  /\ is_whitespace c || (c =? ch ")") || (c =? ch "]") || (c =? ch "}") = false
  /\ parser_push p PTYPE_TOKEN c = Done p1.
Proof.
  unfold root_state.
  destruct ((c =? ch "]") || (c =? ch ")") || (c =? ch "}")) eqn:Eclose;
    [discriminate|].
  destruct ((c =? ch "(") || (c =? ch "[") || (c =? ch "{")).
  { intros H. apply bind_Done in H. destruct H as (q & _ & H). discriminate. }
  destruct (c =? 34).
  { intros H. apply bind_Done in H. destruct H as (q & _ & H). discriminate. }
  destruct (is_whitespace c) eqn:Ews; [discriminate|].
  destruct (is_symbol_char c) eqn:Esym; [|discriminate].
  intros H. apply bind_Done in H. destruct H as (q & Hq & H).
  inversion H; subst. repeat split; [|exact Hq].
  apply orb_false_iff in Eclose. destruct Eclose as [Eclose E3].
  apply orb_false_iff in Eclose. destruct Eclose as [E1 E2].
  cbn [orb]. rewrite E1, E2, E3. reflexivity.
Qed.

Lemma parser_push_token_top (p p1 : GstParser) (c : Z) :
  parser_push p PTYPE_TOKEN c = Done p1 ->
  exists k, count p1 = S k /\ nth_error (data p1) k = Some (Some (StToken [])).
Proof.
  unfold parser_push, parser_peek. cbn [count set_count]. intros H.
  apply store_top in H. destruct H as (Hc & _ & Hd).
  cbn [count set_count] in Hc. eexists. split; [exact Hc|exact Hd].
Qed.

(** A byte that opens a token is consumed by the Token frame. *)
Lemma token_state_symbol (p p2 : GstParser) (k : nat) (buf : list Z) (c : Z)
  (done : bool) :
  count p = S k -> nth_error (data p) k = Some (Some (StToken buf)) ->
  is_symbol_char c = true ->
  is_whitespace c || (c =? ch ")") || (c =? ch "]") || (c =? ch "}") = false ->
  token_state p c = Done (p2, done) -> done = true.
Proof.
  intros Hc Hf Hsym Hend. unfold token_state.
  rewrite (load_top_slot p k _ Hc Hf). cbn [bind]. rewrite Hend, Hsym.
  intros H. apply bind_Done in H. destruct H as (q & _ & H).
  inversion H. reflexivity.
Qed.

Lemma root_state_closing (p p2 : GstParser) (c : Z) (done : bool) :
  (c =? ch ")") || (c =? ch "]") || (c =? ch "}") = true ->
  root_state p c = Done (p2, done) -> done = true.
Proof.
  intros Hclose. unfold root_state.
  assert ((c =? ch "]") || (c =? ch ")") || (c =? ch "}") = true) as E
      by (rewrite (orb_comm (c =? ch "]")); exact Hclose).
  rewrite E. intros H. inversion H. reflexivity.
Qed.

(** After parser_append a parser that is Pending has a Form frame on top. *)
Lemma parser_append_pending (p q : GstParser) (x : GstValue) :
  parser_append p x = Done q -> status q = GST_PARSER_PENDING ->
  exists k d a, count q = S k /\ nth_error (data q) k = Some (Some (StForm d a)).
Proof.
  unfold parser_append, parser_peek, load.
  destruct (count p) as [|n] eqn:Hc.
  { intros H Hs. inversion H; subst. discriminate. }
  destruct (nth_error (data p) n) as [[g|]|]; cbn [bind]; try discriminate.
  destruct g as [|d a|buf st|buf]; intros H Hs;
    try (inversion H; subst; discriminate).
  apply store_top in H. destruct H as (Hcq & _ & Hd).
  exists n, d, (gst_array_push a x). split; [congruence|exact Hd].
Qed.

(** token_state leaves the byte to be dispatched again only when it is a
    closing delimiter. *)
Lemma token_state_again (p p1 : GstParser) (c : Z) :
  token_state p c = Done (p1, false) ->
  (c =? ch ")") || (c =? ch "]") || (c =? ch "}") = true
  /\ (status p1 = GST_PARSER_PENDING ->
      exists k d a, count p1 = S k
                    /\ nth_error (data p1) k = Some (Some (StForm d a))).
Proof.
  unfold token_state. intros H. apply bind_Done in H.
  destruct H as ([[q top] f] & _ & H).
  destruct f as [|d a|buf st|buf]; try discriminate;
    (destruct (is_whitespace c || (c =? ch ")") || (c =? ch "]") || (c =? ch "}"));
     [ destruct (parser_pop q) as [q' o];
       apply bind_Done in H; destruct H as ([q1 x] & _ & H);
       apply bind_Done in H; destruct H as (q2 & Happ & H);
       injection H as Hq Hd; subst q2;
       split; [apply negb_false_iff; exact Hd|];
       intros Hs; exact (parser_append_pending _ _ _ Happ Hs)
     | destruct (is_symbol_char c);
       [ apply bind_Done in H; destruct H as (q1 & _ & H); discriminate
       | discriminate ] ]).
Qed.

Lemma string_state_consumes (p p1 : GstParser) (c : Z) (done : bool) :
  string_state p c = Done (p1, done) -> done = true.
Proof.
  unfold string_state. intros H. apply bind_Done in H.
  destruct H as ([[q top] f] & _ & H).
  destruct f as [|d a|buf st|buf]; try discriminate.
  destruct st.
  - destruct (c =? 92).
    { apply bind_Done in H. destruct H as (q1 & _ & H). inversion H. reflexivity. }
    destruct (c =? 34).
    { destruct (parser_pop q) as [q' o].
      apply bind_Done in H. destruct H as (q1 & _ & H). inversion H. reflexivity. }
    apply bind_Done in H. destruct H as (q1 & _ & H). inversion H. reflexivity.
  - destruct (string_escape c).
    + apply bind_Done in H. destruct H as (q1 & _ & H). inversion H. reflexivity.
    + inversion H. reflexivity.
  - inversion H. reflexivity.
  - inversion H. reflexivity.
Qed.

Lemma form_state_again (p p1 : GstParser) (c : Z) :
  form_state p c = Done (p1, false) -> root_state p c = Done (p1, false).
Proof.
  unfold form_state. intros H. apply bind_Done in H.
  destruct H as ([[q top] f] & Hl & H). apply load_top_Done in Hl.
  destruct Hl as (-> & _ & _).
  destruct f as [|[d|] a|buf st|buf]; try discriminate.
  destruct (c =? d); [|exact H].
  destruct (parser_pop p) as [q' o].
  apply bind_Done in H. destruct H as (q1 & _ & H). discriminate.
Qed.

Lemma form_state_closing (p p2 : GstParser) (c : Z) (done : bool) :
  (c =? ch ")") || (c =? ch "]") || (c =? ch "}") = true ->
  form_state p c = Done (p2, done) -> done = true.
Proof.
  intros Hclose. unfold form_state. intros H. apply bind_Done in H.
  destruct H as ([[q top] f] & _ & H).
  destruct f as [|[d|] a|buf st|buf]; try discriminate.
  destruct (c =? d); [|exact (root_state_closing _ _ _ _ Hclose H)].
  destruct (parser_pop q) as [q' o].
  apply bind_Done in H. destruct H as (q1 & _ & H). inversion H. reflexivity.
Qed.

Lemma dispatch_step_top (p : GstParser) (k : nat) (f : GstParseState) (c : Z) :
  count p = S k -> nth_error (data p) k = Some (Some f) ->
  dispatch_step p c =
  match frame_type f with
  | PTYPE_ROOT => root_state p c
  | PTYPE_TOKEN => token_state p c
  | PTYPE_FORM => form_state p c
  | PTYPE_STRING => string_state p c
  end.
Proof.
  intros Hc Hf. unfold dispatch_step. rewrite (load_top_slot p k f Hc Hf).
  reflexivity.
Qed.

(** When a step leaves the byte to be dispatched again and the parser
    Pending, the next step consumes it. *)
Lemma dispatch_step_twice (p p1 p2 : GstParser) (c : Z) (done : bool) :
  dispatch_step p c = Done (p1, false) ->
  status p1 = GST_PARSER_PENDING ->
  dispatch_step p1 c = Done (p2, done) -> done = true.
Proof.
  intros H1 Hs H2.
  assert (Hroot : root_state p c = Done (p1, false) -> done = true).
  { intros Hr. apply root_state_again in Hr. destruct Hr as (Hsym & Hend & Hpush).
    apply parser_push_token_top in Hpush. destruct Hpush as (k & Hc & Hf).
    rewrite (dispatch_step_top p1 k _ c Hc Hf) in H2. cbn [frame_type] in H2.
    exact (token_state_symbol p1 p2 k [] c done Hc Hf Hsym Hend H2). }
  unfold dispatch_step in H1. apply bind_Done in H1.
  destruct H1 as ([[q top] f] & Hl & H1). apply load_top_Done in Hl.
  destruct Hl as (-> & _ & _).
  destruct f as [|d a|buf st|buf]; cbn [frame_type] in H1.
  - exact (Hroot H1).
  - exact (Hroot (form_state_again _ _ _ H1)).
  - apply string_state_consumes in H1. discriminate.
  - apply token_state_again in H1. destruct H1 as [Hclose Htop].
    destruct (Htop Hs) as (k & d & a & Hc & Hf).
    rewrite (dispatch_step_top p1 k _ c Hc Hf) in H2. cbn [frame_type] in H2.
    exact (form_state_closing _ _ _ _ Hclose H2).
Qed.

(** The loop of dispatch_char ends within two steps, whatever the parser
    and the byte: the fuel it is given is never used up. *)
Lemma dispatch_loop_fuel (n : nat) (p : GstParser) (c : Z) (done : bool) :
  dispatch_loop (S (S n)) p c done <> OutOfFuel.
Proof.
  cbn [dispatch_loop].
  destruct (negb done && status_eqb (status p) GST_PARSER_PENDING); [|discriminate].
  destruct (dispatch_step p c) as [[p1 [|]]| |] eqn:H1; cbn [bind].
  - destruct n; discriminate.
  - destruct (status_eqb (status p1) GST_PARSER_PENDING) eqn:Hs;
      cbn [negb andb]; [|discriminate].
    apply status_eqb_eq in Hs.
    destruct (dispatch_step p1 c) as [[p2 done2]| |] eqn:H2; cbn [bind].
    + rewrite (dispatch_step_twice p p1 p2 c done2 H1 Hs H2).
      destruct n; discriminate.
    + discriminate.
    + exfalso. exact (dispatch_step_fuel _ _ H2).
  - discriminate.
  - exfalso. exact (dispatch_step_fuel _ _ H1).
Qed.

Lemma dispatch_char_fuel (p : GstParser) (c : Z) : dispatch_char p c <> OutOfFuel.
Proof.
  unfold dispatch_char. apply bind_fuel; [apply dispatch_loop_fuel|].
  intros [q done]. discriminate.
Qed.

(** gst_parse_cstring returns or runs into undefined behaviour; no fuel of
    the embedding is ever used up. *)
Lemma parse_loop_fuel (string : list Z) :
  forall p bytesRead, parse_loop p string bytesRead <> OutOfFuel.
Proof.
  induction string as [|c rest IH]; intros p bytesRead; cbn [parse_loop].
  - discriminate.
  - destruct (status_eqb (status p) GST_PARSER_PENDING && negb (c =? 0));
      [|discriminate].
    apply bind_fuel; [apply dispatch_char_fuel|]. intros [q done]. apply IH.
Qed.

(** ** The stack invariant, as long as the block has room *)

Lemma stack_ok_same_stack (p q : GstParser) :
  data q = data p -> count q = count p -> cap q = cap p ->
  stack_ok p -> stack_ok q.
Proof. unfold stack_ok. intros -> -> ->. auto. Qed.

Lemma stack_ok_pop (p : GstParser) (k : nat) :
  stack_ok p -> count p = S k -> (1 <= k)%nat -> stack_ok (set_count p k).
Proof.
  unfold stack_ok. cbn [data count cap set_count].
  intros (Hc & Hb & H0 & Hi) Hk Hpos. repeat split; try lia; try assumption.
  intros i Hr. apply Hi. lia.
Qed.

Lemma stack_ok_store (p q : GstParser) (k : nat) (f : GstParseState) :
  stack_ok p -> (1 <= k)%nat -> frame_type f <> PTYPE_ROOT ->
  store p k f = Done q -> stack_ok q.
Proof.
  intros (Hc & Hb & H0 & Hi) Hk Hf H. apply store_Done in H.
  destruct H as [-> Hlen]. unfold stack_ok. cbn [data count cap set_data].
  rewrite length_list_store. repeat split; try lia; try assumption.
  - rewrite nth_error_list_store_neq by lia. exact H0.
  - intros i Hr. destruct (Nat.eq_dec k i) as [<-|Hne].
    + exists f. split; [|exact Hf]. apply nth_error_list_store_eq. exact Hlen.
    + rewrite nth_error_list_store_neq by exact Hne. apply Hi. exact Hr.
Qed.

Lemma stack_ok_slot_pos (p : GstParser) (k : nat) (f : GstParseState) :
  stack_ok p -> nth_error (data p) k = Some (Some f) ->
  frame_type f <> PTYPE_ROOT -> (1 <= k)%nat.
Proof.
  intros (_ & _ & H0 & _) Hk Hf. destruct k as [|k]; [|lia].
  rewrite H0 in Hk. inversion Hk; subst. contradiction.
Qed.

Lemma stack_ok_append (p q : GstParser) (x : GstValue) :
  stack_ok p -> parser_append p x = Done q -> stack_ok q.
Proof.
  intros Hok. unfold parser_append, parser_peek, load.
  destruct (count p) as [|n] eqn:Hc.
  { intros H. inversion H; subst. exact Hok. }
  destruct (nth_error (data p) n) as [[g|]|] eqn:Hn; cbn [bind]; try discriminate.
  destruct g as [|d a|buf st|buf]; intros H;
    try (inversion H; subst; exact Hok).
  apply (stack_ok_store p q n (StForm d (gst_array_push a x)) Hok); try exact H.
  - apply (stack_ok_slot_pos p n (StForm d a) Hok Hn). discriminate.
  - discriminate.
Qed.

Lemma stack_ok_push (p q : GstParser) (type : ParseType) (character : Z) :
  stack_ok p -> (count p < cap p)%nat -> type <> PTYPE_ROOT ->
  parser_push p type character = Done q -> stack_ok q.
Proof.
  intros Hok Hroom Htype.
  assert (Hok' := Hok). destruct Hok' as (Hc & Hb & H0 & Hi).
  rewrite (parser_push_below_capacity p type character Hroom Hb).
  intros H. inversion H; subst. clear H.
  unfold stack_ok. cbn [data count cap set_data set_count].
  rewrite length_list_store. repeat split; try lia.
  - rewrite nth_error_list_store_neq by lia. exact H0.
  - intros i Hr. destruct (Nat.eq_dec (count p) i) as [<-|Hne].
    + exists (new_frame type character). split.
      * apply nth_error_list_store_eq. lia.
      * destruct type; try discriminate; [congruence|].
        unfold new_frame. destruct (character =? ch "{");
          [|destruct (character =? ch "["); [|destruct (character =? ch "(")]];
          discriminate.
    + rewrite nth_error_list_store_neq by exact Hne. apply Hi. lia.
Qed.

Lemma stack_ok_root_state (p q : GstParser) (c : Z) (done : bool) :
  stack_ok p ->
  (count p < cap p)%nat \/ (c =? ch ")") || (c =? ch "]") || (c =? ch "}") = true ->
  root_state p c = Done (q, done) -> stack_ok q.
Proof.
  intros Hok Hcase. unfold root_state.
  destruct ((c =? ch "]") || (c =? ch ")") || (c =? ch "}")) eqn:Eclose.
  { intros H. inversion H; subst. exact Hok. }
  destruct Hcase as [Hroom|Hclose].
  2:{ rewrite (orb_comm (c =? ch ")")) in Hclose. congruence. }
  destruct ((c =? ch "(") || (c =? ch "[") || (c =? ch "{")).
  { intros H. apply bind_Done in H. destruct H as (q1 & Hp & H).
    inversion H; subst. apply (stack_ok_push _ _ _ _ Hok Hroom) in Hp;
      [exact Hp|discriminate]. }
  destruct (c =? 34).
  { intros H. apply bind_Done in H. destruct H as (q1 & Hp & H).
    inversion H; subst. apply (stack_ok_push _ _ _ _ Hok Hroom) in Hp;
      [exact Hp|discriminate]. }
  destruct (is_whitespace c).
  { intros H. inversion H; subst. exact Hok. }
  destruct (is_symbol_char c).
  { intros H. apply bind_Done in H. destruct H as (q1 & Hp & H).
    inversion H; subst. apply (stack_ok_push _ _ _ _ Hok Hroom) in Hp;
      [exact Hp|discriminate]. }
  intros H. inversion H; subst. exact Hok.
Qed.

Lemma stack_ok_build_token (p q : GstParser) (buf : list Z) (x : GstValue) :
  stack_ok p -> build_token p buf = Done (q, x) -> stack_ok q.
Proof.
  intros Hok. unfold build_token. intros H. apply bind_Done in H.
  destruct H as ([number|] & _ & H).
  { inversion H; subst. exact Hok. }
  repeat match type of H with
         | (if ?b then _ else _) = _ => destruct b
         | match ?l with [] => _ | _ :: _ => _ end = _ => destruct l
         end; try discriminate; inversion H; subst; exact Hok.
Qed.

Lemma stack_ok_token_state (p q : GstParser) (c : Z) (done : bool) :
  stack_ok p -> token_state p c = Done (q, done) -> stack_ok q.
Proof.
  intros Hok. unfold token_state. intros H. apply bind_Done in H.
  destruct H as ([[p' top] f] & Hl & H). apply load_top_Done in Hl.
  destruct Hl as (-> & Hc & Hf).
  assert (frame_type f <> PTYPE_ROOT -> 1 <= top)%nat as Hpos
      by (apply (stack_ok_slot_pos p top f Hok Hf)).
  destruct f as [|d a|buf st|buf]; try discriminate;
    (specialize (Hpos ltac:(discriminate));
     destruct (is_whitespace c || (c =? ch ")") || (c =? ch "]") || (c =? ch "}"));
     [ unfold parser_pop in H; rewrite Hc in H;
       apply bind_Done in H; destruct H as ([q1 x] & Hb & H);
       apply bind_Done in H; destruct H as (q2 & Happ & H);
       injection H as Hq _; subst q2;
       apply (stack_ok_append q1 q x); [|exact Happ];
       apply (stack_ok_build_token _ _ _ _ (stack_ok_pop p top Hok Hc Hpos) Hb)
     | destruct (is_symbol_char c);
       [ apply bind_Done in H; destruct H as (q1 & Hs & H);
         injection H as Hq _; subst q1;
         apply (stack_ok_store p q top _ Hok Hpos) in Hs;
         [exact Hs|discriminate]
       | injection H as Hq _; subst q; exact Hok ] ]).
Qed.

Lemma stack_ok_string_state (p q : GstParser) (c : Z) (done : bool) :
  stack_ok p -> string_state p c = Done (q, done) -> stack_ok q.
Proof.
  intros Hok. unfold string_state. intros H. apply bind_Done in H.
  destruct H as ([[p' top] f] & Hl & H). apply load_top_Done in Hl.
  destruct Hl as (-> & Hc & Hf).
  assert (frame_type f <> PTYPE_ROOT -> 1 <= top)%nat as Hpos
      by (apply (stack_ok_slot_pos p top f Hok Hf)).
  destruct f as [|d a|buf st|buf]; try discriminate.
  specialize (Hpos ltac:(discriminate)).
  assert (Hstore : forall g b,
             frame_type g <> PTYPE_ROOT ->
             (r <- store p top g ;; Done (r, true)) = Done (q, b) -> stack_ok q).
  { intros g b Hg Hs. apply bind_Done in Hs. destruct Hs as (q1 & Hs & Hd).
    injection Hd as Hq _. subst q1.
    exact (stack_ok_store p q top g Hok Hpos Hg Hs). }
  destruct st.
  - destruct (c =? 92); [eapply Hstore; [|exact H]; discriminate|].
    destruct (c =? 34); [|eapply Hstore; [|exact H]; discriminate].
    unfold parser_pop in H. rewrite Hc in H.
    apply bind_Done in H. destruct H as (q1 & Happ & H).
    injection H as Hq _. subst q1.
    exact (stack_ok_append _ _ _ (stack_ok_pop p top Hok Hc Hpos) Happ).
  - destruct (string_escape c); [eapply Hstore; [|exact H]; discriminate|].
    injection H as Hq _. subst q. exact Hok.
  - injection H as Hq _. subst q. exact Hok.
  - injection H as Hq _. subst q. exact Hok.
Qed.

Lemma stack_ok_form_state (p q : GstParser) (c : Z) (done : bool) :
  stack_ok p ->
  (count p < cap p)%nat \/ (c =? ch ")") || (c =? ch "]") || (c =? ch "}") = true ->
  form_state p c = Done (q, done) -> stack_ok q.
Proof.
  intros Hok Hcase. unfold form_state. intros H. apply bind_Done in H.
  destruct H as ([[p' top] f] & Hl & H). apply load_top_Done in Hl.
  destruct Hl as (-> & Hc & Hf).
  assert (frame_type f <> PTYPE_ROOT -> 1 <= top)%nat as Hpos
      by (apply (stack_ok_slot_pos p top f Hok Hf)).
  destruct f as [|[d|] a|buf st|buf]; try discriminate.
  specialize (Hpos ltac:(discriminate)).
  destruct (c =? d); [|exact (stack_ok_root_state p q c done Hok Hcase H)].
  unfold parser_pop in H. rewrite Hc in H.
  apply bind_Done in H. destruct H as (q1 & Happ & H).
  injection H as Hq _. subst q1.
  exact (stack_ok_append _ _ _ (stack_ok_pop p top Hok Hc Hpos) Happ).
Qed.

Lemma stack_ok_dispatch_step (p q : GstParser) (c : Z) (done : bool) :
  stack_ok p ->
  (count p < cap p)%nat \/ (c =? ch ")") || (c =? ch "]") || (c =? ch "}") = true
  \/ (exists k buf, count p = S k /\ nth_error (data p) k = Some (Some (StToken buf))) ->
  dispatch_step p c = Done (q, done) -> stack_ok q.
Proof.
  intros Hok Hcase H.
  unfold dispatch_step in H. apply bind_Done in H.
  destruct H as ([[p' top] f] & Hl & H). apply load_top_Done in Hl.
  destruct Hl as (-> & Hc & Hf).
  assert (Hcase' : frame_type f <> PTYPE_TOKEN ->
            (count p < cap p)%nat
            \/ (c =? ch ")") || (c =? ch "]") || (c =? ch "}") = true).
  { intros Hnt. destruct Hcase as [Hr|[Hcl|(k & buf & Hck & Hfk)]]; auto.
    exfalso. rewrite Hc in Hck. injection Hck as <-. rewrite Hf in Hfk.
    inversion Hfk; subst. apply Hnt. reflexivity. }
  destruct f as [|d a|buf st|buf]; cbn [frame_type] in *.
  - exact (stack_ok_root_state p q c done Hok (Hcase' ltac:(discriminate)) H).
  - exact (stack_ok_form_state p q c done Hok (Hcase' ltac:(discriminate)) H).
  - exact (stack_ok_string_state p q c done Hok H).
  - exact (stack_ok_token_state p q c done Hok H).
Qed.

(** A step that leaves the byte to be dispatched again has either met a
    closing delimiter or just pushed an empty Token frame. *)
Lemma dispatch_step_again (p p1 : GstParser) (c : Z) :
  dispatch_step p c = Done (p1, false) ->
  (c =? ch ")") || (c =? ch "]") || (c =? ch "}") = true
  \/ (exists k buf, count p1 = S k
                    /\ nth_error (data p1) k = Some (Some (StToken buf))).
Proof.
  intros H1.
  assert (Hroot : root_state p c = Done (p1, false) ->
                  exists k buf, count p1 = S k
                    /\ nth_error (data p1) k = Some (Some (StToken buf))).
  { intros Hr. apply root_state_again in Hr. destruct Hr as (_ & _ & Hpush).
    apply parser_push_token_top in Hpush. destruct Hpush as (k & Hc & Hf).
    exists k, []. split; assumption. }
  unfold dispatch_step in H1. apply bind_Done in H1.
  destruct H1 as ([[q top] f] & Hl & H1). apply load_top_Done in Hl.
  destruct Hl as (-> & _ & _).
  destruct f as [|d a|buf st|buf]; cbn [frame_type] in H1.
  - right. exact (Hroot H1).
  - right. exact (Hroot (form_state_again _ _ _ H1)).
  - apply string_state_consumes in H1. discriminate.
  - left. apply token_state_again in H1. exact (proj1 H1).
Qed.

Lemma stack_ok_dispatch_loop (c : Z) (fuel : nat) :
  forall p done q done',
    stack_ok p ->
    done = true \/ (count p < cap p)%nat
    \/ (c =? ch ")") || (c =? ch "]") || (c =? ch "}") = true
    \/ (exists k buf, count p = S k
                      /\ nth_error (data p) k = Some (Some (StToken buf))) ->
    dispatch_loop fuel p c done = Done (q, done') -> stack_ok q.
Proof.
  induction fuel as [|fuel IH]; intros p done q done' Hok Hcase H;
    cbn [dispatch_loop] in H.
  - destruct (negb done && status_eqb (status p) GST_PARSER_PENDING);
      [discriminate|]. injection H as <- _. exact Hok.
  - destruct (negb done && status_eqb (status p) GST_PARSER_PENDING) eqn:Econd.
    2:{ injection H as <- _. exact Hok. }
    apply andb_true_iff in Econd. destruct Econd as [Ed _].
    apply negb_true_iff in Ed. subst done.
    destruct Hcase as [Hd|Hcase]; [discriminate|].
    apply bind_Done in H. destruct H as ([p1 d1] & Hstep & H).
    apply (IH p1 d1 q done'); [|clear H|exact H].
    + exact (stack_ok_dispatch_step p p1 c d1 Hok Hcase Hstep).
    + destruct d1; [left; reflexivity|right; right].
      exact (dispatch_step_again p p1 c Hstep).
Qed.

(** ** The Root frame *)

(** A push that returns had room for the frame. *)
Lemma stack_kept_push (p q : GstParser) (type : ParseType) (character : Z) :
  stack_ok p -> type <> PTYPE_ROOT ->
  parser_push p type character = Done q -> stack_ok q.
Proof.
  intros Hok Htype H.
  destruct (Nat.lt_ge_cases (count p) (cap p)) as [Hroom|Hfull].
  - exact (stack_ok_push p q type character Hok Hroom Htype H).
  - rewrite (parser_push_at_capacity p type character Hfull) in H. discriminate.
Qed.

Lemma stack_kept_root_state (p q : GstParser) (c : Z) (done : bool) :
  stack_ok p -> root_state p c = Done (q, done) -> stack_ok q.
Proof.
  intros Hok. unfold root_state.
  destruct ((c =? ch "]") || (c =? ch ")") || (c =? ch "}")).
  { intros H. inversion H; subst. exact Hok. }
  destruct ((c =? ch "(") || (c =? ch "[") || (c =? ch "{")).
  { intros H. apply bind_Done in H. destruct H as (q1 & Hp & H).
    inversion H; subst. apply (stack_kept_push _ _ _ _ Hok) in Hp;
      [exact Hp|discriminate]. }
  destruct (c =? 34).
  { intros H. apply bind_Done in H. destruct H as (q1 & Hp & H).
    inversion H; subst. apply (stack_kept_push _ _ _ _ Hok) in Hp;
      [exact Hp|discriminate]. }
  destruct (is_whitespace c).
  { intros H. inversion H; subst. exact Hok. }
  destruct (is_symbol_char c).
  { intros H. apply bind_Done in H. destruct H as (q1 & Hp & H).
    inversion H; subst. apply (stack_kept_push _ _ _ _ Hok) in Hp;
      [exact Hp|discriminate]. }
  intros H. inversion H; subst. exact Hok.
Qed.

Lemma stack_kept_form_state (p q : GstParser) (c : Z) (done : bool) :
  stack_ok p -> form_state p c = Done (q, done) -> stack_ok q.
Proof.
  intros Hok. unfold form_state. intros H. apply bind_Done in H.
  destruct H as ([[p' top] f] & Hl & H). apply load_top_Done in Hl.
  destruct Hl as (-> & Hc & Hf).
  assert (frame_type f <> PTYPE_ROOT -> 1 <= top)%nat as Hpos
      by (apply (stack_ok_slot_pos p top f Hok Hf)).
  destruct f as [|[d|] a|buf st|buf]; try discriminate.
  specialize (Hpos ltac:(discriminate)).
  destruct (c =? d); [|exact (stack_kept_root_state p q c done Hok H)].
  unfold parser_pop in H. rewrite Hc in H.
  apply bind_Done in H. destruct H as (q1 & Happ & H).
  injection H as Hq _. subst q1.
  exact (stack_ok_append _ _ _ (stack_ok_pop p top Hok Hc Hpos) Happ).
Qed.

Lemma stack_kept_dispatch_step (p q : GstParser) (c : Z) (done : bool) :
  stack_ok p -> dispatch_step p c = Done (q, done) -> stack_ok q.
Proof.
  intros Hok H. unfold dispatch_step in H. apply bind_Done in H.
  destruct H as ([[p' top] f] & Hl & H). apply load_top_Done in Hl.
  destruct Hl as (-> & Hc & Hf).
  destruct f as [|d a|buf st|buf]; cbn [frame_type] in *.
  - exact (stack_kept_root_state p q c done Hok H).
  - exact (stack_kept_form_state p q c done Hok H).
  - exact (stack_ok_string_state p q c done Hok H).
  - exact (stack_ok_token_state p q c done Hok H).
Qed.

Lemma stack_kept_dispatch_loop (c : Z) (fuel : nat) :
  forall p done q done',
    stack_ok p -> dispatch_loop fuel p c done = Done (q, done') -> stack_ok q.
Proof.
  induction fuel as [|fuel IH]; intros p done q done' Hok H;
    cbn [dispatch_loop] in H.
  - destruct (negb done && status_eqb (status p) GST_PARSER_PENDING);
      [discriminate|]. injection H as <- _. exact Hok.
  - destruct (negb done && status_eqb (status p) GST_PARSER_PENDING).
    2:{ injection H as <- _. exact Hok. }
    apply bind_Done in H. destruct H as ([p1 d1] & Hstep & H).
    exact (IH p1 d1 q done' (stack_kept_dispatch_step p p1 c d1 Hok Hstep) H).
Qed.

Lemma stack_kept_dispatch_char (p q : GstParser) (c : Z) (again : bool) :
  stack_ok p -> dispatch_char p c = Done (q, again) -> stack_ok q.
Proof.
  intros Hok H. unfold dispatch_char in H. apply bind_Done in H.
  destruct H as ([q1 done] & Hloop & H). injection H as <- _.
  apply (stack_ok_same_stack q1); try reflexivity.
  exact (stack_kept_dispatch_loop c 3 p false q1 done Hok Hloop).
Qed.

Lemma stack_kept_parse_loop (string : list Z) :
  forall p bytesRead q n,
    stack_ok p -> parse_loop p string bytesRead = Done (q, n) -> stack_ok q.
Proof.
  induction string as [|c rest IH]; intros p bytesRead q n Hok H;
    cbn [parse_loop] in H.
  - injection H as <- _. exact Hok.
  - destruct (status_eqb (status p) GST_PARSER_PENDING && negb (c =? 0)).
    + apply bind_Done in H. destruct H as ([p1 again] & Hd & H).
      exact (IH p1 _ q n (stack_kept_dispatch_char p p1 c again Hok Hd) H).
    + injection H as <- _. exact Hok.
Qed.

(** C8. The Root frame is pushed by gst_parser and no handler pops or
    overwrites it: every call of gst_parse_cstring that returns leaves the
    stack with the Root frame in slot 0 and in no other slot. But the
    parser does not keep it for as long as it is Pending. After nine
    opening parentheses a fresh parser is Pending with a well-formed stack
    that fills its block; the tenth makes parser_push replace the block,
    Root frame and all, by one of 20 bytes, too short for a single frame,
    and store the new frame outside it: from there on the behaviour of the
    program is undefined. *)
Theorem root_frame_lost_at_depth_ten :
  (forall p s p' n,
     stack_ok p -> gst_parse_cstring p s = Done (p', n) -> stack_ok p')
  /\ exists p9,
       gst_parse_cstring fresh_parser (bytes_of "(((((((((") = Done (p9, 9%nat)
       /\ status p9 = GST_PARSER_PENDING
       /\ stack_ok p9
       /\ count p9 = 10%nat /\ cap p9 = 10%nat
       /\ frames p9 = Some StRoot :: repeat (Some (StForm (Some (ch ")")) [])) 9
       /\ gst_alloc (2 * count p9) = []
       /\ parser_push p9 PTYPE_FORM (ch "(") = Undef
       /\ dispatch_char p9 (ch "(") = Undef
       /\ gst_parse_cstring p9 (bytes_of "(") = Undef
       /\ gst_parse_cstring fresh_parser (bytes_of "((((((((((") = Undef.
Proof.
  split.
  { intros p s p' n Hok H. unfold gst_parse_cstring in H. cbv zeta in H.
    apply (stack_kept_parse_loop s (set_status p GST_PARSER_PENDING) 0 p' n);
      [|exact H].
    exact (stack_ok_same_stack p _ eq_refl eq_refl eq_refl Hok). }
  eexists.
  split; [vm_compute; reflexivity|].
  split; [reflexivity|].
  split.
  { unfold stack_ok. cbn [count cap data]. split; [lia|]. split; [cbn; lia|].
    split; [reflexivity|]. intros i Hi.
    destruct i as [|[|[|[|[|[|[|[|[|[|i]]]]]]]]]]; try lia;
      (eexists; split; [reflexivity|discriminate]). }
  split; [reflexivity|]. split; [reflexivity|]. split; [reflexivity|].
  split; [reflexivity|].
  split; [apply parser_push_at_capacity; cbn; lia|].
  split; [vm_compute; reflexivity|].
  split; vm_compute; reflexivity.
Qed.

(** ** Further properties of the code *)

(** X1. With room left in the block (count < cap, the block as long as cap
    says), parser_push stores the frame of the requested kind in the slot
    above the top, with its accumulator initialized as the triggering byte
    asks, adds one to the count and leaves every other slot and field as it
    was. *)
Theorem parser_push_frame_effect (p : GstParser) (type : ParseType) (character : Z) :
  (count p < cap p)%nat -> (cap p <= List.length (data p))%nat ->
  exists p',
    parser_push p type character = Done p'
    /\ count p' = S (count p)
    /\ nth_error (data p') (count p) = Some (Some (new_frame type character))
    /\ (forall i, i <> count p -> nth_error (data p') i = nth_error (data p) i)
    /\ cap p' = cap p /\ status p' = status p /\ error p' = error p
    /\ value p' = value p /\ index p' = index p
    /\ new_frame PTYPE_FORM (ch "(") = StForm (Some (ch ")")) []
    /\ new_frame PTYPE_FORM (ch "[")
       = StForm (Some (ch "]")) [GstString (bytes_of "array")]
    /\ new_frame PTYPE_FORM (ch "{")
       = StForm (Some (ch "}")) [GstString (bytes_of "obj")].
Proof.
  intros Hroom Hblock. eexists.
  split; [exact (parser_push_below_capacity p type character Hroom Hblock)|].
  cbn [data count cap status error value index set_data set_count].
  split; [reflexivity|]. split; [apply nth_error_list_store_eq; lia|].
  split; [intros i Hi; apply nth_error_list_store_neq; congruence|].
  repeat split.
Qed.

Lemma parser_push_frame_effect_witness :
  exists p',
    parser_push fresh_parser PTYPE_FORM (ch "[") = Done p'
    /\ count p' = 2%nat
    /\ nth_error (data p') 1
       = Some (Some (StForm (Some (ch "]")) [GstString (bytes_of "array")]))
    /\ nth_error (data p') 0 = Some (Some StRoot).
Proof.
  destruct (parser_push_frame_effect fresh_parser PTYPE_FORM (ch "[")
              ltac:(cbn; lia) ltac:(cbn; lia))
    as (p' & Hpush & Hcount & Htop & Hrest & _).
  exists p'. split; [exact Hpush|]. split; [exact Hcount|]. split; [exact Htop|].
  rewrite (Hrest 0%nat ltac:(discriminate)). reflexivity.
Defined.

(** X2. A dispatch_char that starts from a well-formed stack (at least one
    frame, the Root frame in slot 0 and nowhere else) with room for one
    more frame leaves a well-formed stack: no handler pops or overwrites
    the Root frame, and every frame pushed is a Form, String or Token
    frame. *)
Theorem stack_ok_dispatch_char (p p' : GstParser) (c : Z) (again : bool) :
  stack_ok p -> (count p < cap p)%nat ->
  dispatch_char p c = Done (p', again) -> stack_ok p'.
Proof.
  intros Hok Hroom H. unfold dispatch_char in H. apply bind_Done in H.
  destruct H as ([q done] & Hloop & H). injection H as <- _.
  apply (stack_ok_same_stack q); try reflexivity.
  apply (stack_ok_dispatch_loop c 3 p false q done Hok); [|exact Hloop].
  right. left. exact Hroom.
Qed.

Lemma stack_ok_fresh_parser : stack_ok fresh_parser.
Proof.
  unfold stack_ok. cbn. repeat split; try lia.
Qed.

Lemma stack_ok_dispatch_char_witness :
  stack_ok (set_index
              (set_data (set_count fresh_parser 2)
                 (list_store (data fresh_parser) 1
                    (Some (StForm (Some (ch ")")) [])))) 1).
Proof.
  apply (stack_ok_dispatch_char fresh_parser _ (ch "(") false
           stack_ok_fresh_parser ltac:(cbn; lia)).
  reflexivity.
Defined.

(** X3. dispatch_char and gst_parse_cstring return on every parser and
    every input, unless they run into undefined behaviour: the loop of
    dispatch_char runs at most twice for a byte, and the fuel the embedding
    gives the loops of dispatch_char and exp10 is never used up. *)
Theorem gst_parse_cstring_returns (p : GstParser) (string : list Z) (c : Z) :
  ((exists p' again, dispatch_char p c = Done (p', again))
   \/ dispatch_char p c = Undef)
  /\ ((exists p' bytesRead, gst_parse_cstring p string = Done (p', bytesRead))
      \/ gst_parse_cstring p string = Undef).
Proof.
  split.
  - pose proof (dispatch_char_fuel p c) as H.
    destruct (dispatch_char p c) as [[p' again]| |]; [left; eauto|right; reflexivity|].
    contradiction.
  - pose proof (parse_loop_fuel string (set_status p GST_PARSER_PENDING) 0) as H.
    unfold gst_parse_cstring. cbv zeta.
    destruct (parse_loop _ string 0) as [[p' n]| |]; [left; eauto|right; reflexivity|].
    contradiction.
Qed.

(** X4. The examples of section 8 of the specification: "(1 2 3)", "[1 2]"
    and "{1 2}" yield the sequences with the sentinels "array" and "obj",
    and ")" as the first byte is the error "Unexpected closing
    delimiter". *)
Theorem spec_examples :
  outcome (gst_parse_cstring fresh_parser (bytes_of "(1 2 3)"))
  = Some (GST_PARSER_FULL, GstArray [GstNumber 1; GstNumber 2; GstNumber 3],
          None, 7%nat, 7%nat)
  /\ outcome (gst_parse_cstring fresh_parser (bytes_of "[1 2]"))
     = Some (GST_PARSER_FULL,
             GstArray [GstString (bytes_of "array"); GstNumber 1; GstNumber 2],
             None, 5%nat, 5%nat)
  /\ outcome (gst_parse_cstring fresh_parser (bytes_of "{1 2}"))
     = Some (GST_PARSER_FULL,
             GstArray [GstString (bytes_of "obj"); GstNumber 1; GstNumber 2],
             None, 5%nat, 5%nat)
  /\ outcome (gst_parse_cstring fresh_parser (bytes_of ")"))
     = Some (GST_PARSER_ERROR, GstNil,
             Some "Unexpected closing delimiter"%string, 1%nat, 1%nat).
Proof. repeat split; vm_compute; reflexivity. Qed.

(** X5. The exponent of a literal goes from [double] to [int] and into
    exp10 unchecked: an exponent of 2^31 or more is outside [int], so its
    conversion is undefined, and from 2^30 on the doubling in the loop of
    exp10 overflows; below that the literal is decoded (to infinity for
    large exponents). *)
Theorem exponent_out_of_range :
  read_number (bytes_of "1e2147483648") false = Undef
  /\ double_to_int 2147483648%float = Undef
  /\ read_number (bytes_of "1e1073741824") false = Undef
  /\ exp10 1073741824 = Undef
  /\ read_number (bytes_of "1e1073741823") false = Done (Some infinity)
  /\ read_number (bytes_of "1e309") false = Done (Some infinity)
  /\ read_number (bytes_of "1e-2") false = Done (Some 0.01%float).
Proof. repeat split; vm_compute; reflexivity. Qed.

(** ** What the handlers leave alone

    A property of the parser that survives every assignment the handlers
    make survives the handlers. *)

Section Preserved.
Variable P : GstParser -> Prop.
Hypothesis P_data : forall p d, P p -> P (set_data p d).
Hypothesis P_count : forall p n, P p -> P (set_count p n).
Hypothesis P_cap : forall p n, P p -> P (set_cap p n).
Hypothesis P_full :
  forall p x, P p -> P (set_status (set_value p x) GST_PARSER_FULL).
Hypothesis P_error : forall p m, In m parser_messages -> P p -> P (p_error p m).

Lemma preserved_store (p q : GstParser) (i : nat) (f : GstParseState) :
  P p -> store p i f = Done q -> P q.
Proof.
  intros Hp H. apply store_Done in H. destruct H as [-> _]. apply P_data. exact Hp.
Qed.

Lemma preserved_peek (p : GstParser) : P p -> P (fst (parser_peek p)).
Proof.
  intros Hp. unfold parser_peek. destruct (count p); [|exact Hp].
  apply P_error; [|exact Hp]. cbn. auto.
Qed.

Lemma preserved_pop (p : GstParser) : P p -> P (fst (parser_pop p)).
Proof.
  intros Hp. unfold parser_pop. destruct (count p); cbn [fst].
  - apply P_error; [|exact Hp]. cbn. auto.
  - apply P_count. exact Hp.
Qed.

Lemma preserved_append (p q : GstParser) (x : GstValue) :
  P p -> parser_append p x = Done q -> P q.
Proof.
  intros Hp. unfold parser_append.
  pose proof (preserved_peek p Hp) as Hpeek.
  destruct (parser_peek p) as [p1 [top|]]; cbn [fst] in Hpeek.
  - intros H. apply bind_Done in H. destruct H as (f & _ & H).
    destruct f as [|d a|buf st|buf].
    + injection H as <-. apply P_full. exact Hpeek.
    + exact (preserved_store _ _ _ _ Hpeek H).
    + injection H as <-. apply P_error; [cbn; auto|exact Hpeek].
    + injection H as <-. apply P_error; [cbn; auto|exact Hpeek].
  - intros H. injection H as <-. exact Hpeek.
Qed.

Lemma preserved_push (p q : GstParser) (type : ParseType) (character : Z) :
  P p -> parser_push p type character = Done q -> P q.
Proof.
  intros Hp. unfold parser_push.
  set (p0 := if (cap p <=? count p)%nat then _ else p).
  assert (P p0) as Hp0.
  { subst p0. destruct (cap p <=? count p)%nat; [|exact Hp].
    apply P_cap. apply P_data. exact Hp. }
  unfold parser_peek. cbn [count set_count].
  assert (P (set_count p0 (S (count p0)))) as Hp1 by (apply P_count; exact Hp0).
  destruct type; try (intros H; exact (preserved_store _ _ _ _ Hp1 H)).
  destruct (character =? ch "["); destruct (character =? ch "{");
    intros H; exact (preserved_store _ _ _ _ Hp1 H).
Qed.

Lemma preserved_build_token (p q : GstParser) (buf : list Z) (x : GstValue) :
  P p -> build_token p buf = Done (q, x) -> P q.
Proof.
  intros Hp. unfold build_token. intros H. apply bind_Done in H.
  destruct H as ([number|] & _ & H).
  { injection H as <- _. exact Hp. }
  destruct (check_str_const _ buf); [injection H as <- _; exact Hp|].
  destruct (check_str_const _ buf); [injection H as <- _; exact Hp|].
  destruct (check_str_const _ buf); [injection H as <- _; exact Hp|].
  destruct buf as [|first rest]; [discriminate|].
  destruct (_ && _); injection H as <- _; [|exact Hp].
  apply P_error; [cbn; auto|exact Hp].
Qed.

Lemma preserved_root_state (p q : GstParser) (c : Z) (done : bool) :
  P p -> root_state p c = Done (q, done) -> P q.
Proof.
  intros Hp. unfold root_state.
  destruct ((c =? ch "]") || (c =? ch ")") || (c =? ch "}")).
  { intros H. injection H as <- _. apply P_error; [cbn; auto 10|exact Hp]. }
  destruct ((c =? ch "(") || (c =? ch "[") || (c =? ch "{")).
  { intros H. apply bind_Done in H. destruct H as (q1 & Hpush & H).
    injection H as <- _. exact (preserved_push _ _ _ _ Hp Hpush). }
  destruct (c =? 34).
  { intros H. apply bind_Done in H. destruct H as (q1 & Hpush & H).
    injection H as <- _. exact (preserved_push _ _ _ _ Hp Hpush). }
  destruct (is_whitespace c).
  { intros H. injection H as <- _. exact Hp. }
  destruct (is_symbol_char c).
  { intros H. apply bind_Done in H. destruct H as (q1 & Hpush & H).
    injection H as <- _. exact (preserved_push _ _ _ _ Hp Hpush). }
  intros H. injection H as <- _. apply P_error; [cbn; auto 10|exact Hp].
Qed.

Lemma preserved_token_state (p q : GstParser) (c : Z) (done : bool) :
  P p -> token_state p c = Done (q, done) -> P q.
Proof.
  intros Hp. unfold token_state. intros H. apply bind_Done in H.
  destruct H as ([[p' top] f] & Hl & H). apply load_top_Done in Hl.
  destruct Hl as (-> & _ & _).
  pose proof (preserved_pop p Hp) as Hpop.
  destruct f as [|d a|buf st|buf]; try discriminate;
    (destruct (is_whitespace c || (c =? ch ")") || (c =? ch "]") || (c =? ch "}"));
     [ destruct (parser_pop p) as [p1 o]; cbn [fst] in Hpop;
       apply bind_Done in H; destruct H as ([q1 x] & Hb & H);
       apply bind_Done in H; destruct H as (q2 & Happ & H);
       injection H as <- _;
       exact (preserved_append _ _ _ (preserved_build_token _ _ _ _ Hpop Hb) Happ)
     | destruct (is_symbol_char c);
       [ apply bind_Done in H; destruct H as (q1 & Hs & H);
         injection H as <- _; exact (preserved_store _ _ _ _ Hp Hs)
       | injection H as <- _; apply P_error; [cbn; auto 10|exact Hp] ] ]).
Qed.

Lemma preserved_string_state (p q : GstParser) (c : Z) (done : bool) :
  P p -> string_state p c = Done (q, done) -> P q.
Proof.
  intros Hp. unfold string_state. intros H. apply bind_Done in H.
  destruct H as ([[p' top] f] & Hl & H). apply load_top_Done in Hl.
  destruct Hl as (-> & _ & _).
  pose proof (preserved_pop p Hp) as Hpop.
  assert (Hstore : forall g b,
             (r <- store p top g ;; Done (r, true)) = Done (q, b) -> P q).
  { intros g b Hs. apply bind_Done in Hs. destruct Hs as (q1 & Hs & Hd).
    injection Hd as <- _. exact (preserved_store _ _ _ _ Hp Hs). }
  destruct f as [|d a|buf st|buf]; try discriminate.
  destruct st.
  - destruct (c =? 92); [exact (Hstore _ _ H)|].
    destruct (c =? 34); [|exact (Hstore _ _ H)].
    destruct (parser_pop p) as [p1 o]; cbn [fst] in Hpop.
    apply bind_Done in H. destruct H as (q1 & Happ & H).
    injection H as <- _. exact (preserved_append _ _ _ Hpop Happ).
  - destruct (string_escape c); [exact (Hstore _ _ H)|].
    injection H as <- _. apply P_error; [cbn; auto 10|exact Hp].
  - injection H as <- _. exact Hp.
  - injection H as <- _. exact Hp.
Qed.

Lemma preserved_form_state (p q : GstParser) (c : Z) (done : bool) :
  P p -> form_state p c = Done (q, done) -> P q.
Proof.
  intros Hp. unfold form_state. intros H. apply bind_Done in H.
  destruct H as ([[p' top] f] & Hl & H). apply load_top_Done in Hl.
  destruct Hl as (-> & _ & _).
  pose proof (preserved_pop p Hp) as Hpop.
  destruct f as [|[d|] a|buf st|buf]; try discriminate.
  destruct (c =? d); [|exact (preserved_root_state _ _ _ _ Hp H)].
  destruct (parser_pop p) as [p1 o]; cbn [fst] in Hpop.
  apply bind_Done in H. destruct H as (q1 & Happ & H).
  injection H as <- _. exact (preserved_append _ _ _ Hpop Happ).
Qed.

Lemma preserved_dispatch_step (p q : GstParser) (c : Z) (done : bool) :
  P p -> dispatch_step p c = Done (q, done) -> P q.
Proof.
  intros Hp. unfold dispatch_step. intros H. apply bind_Done in H.
  destruct H as ([[p' top] f] & Hl & H). apply load_top_Done in Hl.
  destruct Hl as (-> & _ & _).
  destruct (frame_type f).
  - exact (preserved_root_state _ _ _ _ Hp H).
  - exact (preserved_form_state _ _ _ _ Hp H).
  - exact (preserved_string_state _ _ _ _ Hp H).
  - exact (preserved_token_state _ _ _ _ Hp H).
Qed.

Lemma preserved_dispatch_loop (c : Z) (fuel : nat) :
  forall p done q done',
    P p -> dispatch_loop fuel p c done = Done (q, done') -> P q.
Proof.
  induction fuel as [|fuel IH]; intros p done q done' Hp H;
    cbn [dispatch_loop] in H;
    destruct (negb done && status_eqb (status p) GST_PARSER_PENDING);
    try discriminate; try (injection H as <- _; exact Hp).
  apply bind_Done in H. destruct H as ([p1 d1] & Hstep & H).
  exact (IH _ _ _ _ (preserved_dispatch_step _ _ _ _ Hp Hstep) H).
Qed.
End Preserved.

(** ** Accounting of bytes and errors *)

Lemma dispatch_char_index (p q : GstParser) (c : Z) (again : bool) :
  dispatch_char p c = Done (q, again) -> index q = S (index p).
Proof.
  unfold dispatch_char. intros H. apply bind_Done in H.
  destruct H as ([p1 done] & Hloop & H). injection H as <- _.
  cbn [index set_index]. f_equal.
  apply (preserved_dispatch_loop (fun r => index r = index p)) in Hloop;
    try reflexivity; auto.
Qed.

Lemma parse_loop_index (string : list Z) :
  forall p bytesRead p' n,
    parse_loop p string bytesRead = Done (p', n) ->
    (index p' + bytesRead = index p + n)%nat.
Proof.
  induction string as [|c rest IH]; intros p bytesRead p' n H; cbn [parse_loop] in H.
  - injection H as <- <-. reflexivity.
  - destruct (status_eqb (status p) GST_PARSER_PENDING && negb (c =? 0)).
    + apply bind_Done in H. destruct H as ([p1 again] & Hd & H).
      apply dispatch_char_index in Hd. apply IH in H. lia.
    + injection H as <- <-. reflexivity.
Qed.

Lemma parse_loop_pending_all (string : list Z) :
  forall p bytesRead p' n,
    parse_loop p string bytesRead = Done (p', n) ->
    status p' = GST_PARSER_PENDING ->
    n = (bytesRead + List.length (before_nul string))%nat.
Proof.
  induction string as [|c rest IH]; intros p bytesRead p' n H Hs;
    cbn [parse_loop before_nul] in *.
  - injection H as <- <-. cbn. lia.
  - destruct (c =? 0) eqn:E0.
    + rewrite andb_false_r in H. injection H as <- <-. cbn. lia.
    + destruct (status_eqb (status p) GST_PARSER_PENDING) eqn:Ep; cbn [andb negb] in H.
      * apply bind_Done in H. destruct H as ([p1 again] & _ & H).
        apply IH in H; [|exact Hs]. cbn [List.length]. lia.
      * injection H as <- <-. rewrite Hs in Ep. discriminate.
Qed.

(** X6. A call of gst_parse_cstring returns the number of bytes it
    dispatched: the parser's index has advanced by exactly that count, the
    count never exceeds the number of bytes before the first NUL, and when
    the parser is still Pending after the call every one of those bytes was
    consumed (the call stops early only by leaving Pending). *)
Theorem feed_accounting (p : GstParser) (string : list Z) :
  match gst_parse_cstring p string with
  | Done (p', n) =>
      index p' = (index p + n)%nat
      /\ (n <= List.length (before_nul string))%nat
      /\ (status p' = GST_PARSER_PENDING -> n = List.length (before_nul string))
  | _ => True
  end.
Proof.
  unfold gst_parse_cstring. cbv zeta.
  destruct (parse_loop (set_status p GST_PARSER_PENDING) string 0)
    as [[p' n]| |] eqn:E; [|exact I|exact I].
  split; [|split].
  - apply parse_loop_index in E. cbn [index set_status] in E. lia.
  - rewrite parse_loop_before_nul in E. apply parse_loop_count_le in E. lia.
  - intros Hs. apply (parse_loop_pending_all _ _ _ _ _ E Hs).
Qed.

Lemma error_recorded_dispatch_char (p q : GstParser) (c : Z) (again : bool) :
  error_recorded p -> dispatch_char p c = Done (q, again) -> error_recorded q.
Proof.
  intros Hp. unfold dispatch_char. intros H. apply bind_Done in H.
  destruct H as ([p1 done] & Hloop & H). injection H as <- _.
  apply (preserved_dispatch_loop error_recorded) in Hloop; try exact Hp.
  - exact Hloop.
  - intros r d Hr. exact Hr.
  - intros r n Hr. exact Hr.
  - intros r n Hr. exact Hr.
  - intros r x Hr Hs. discriminate Hs.
  - intros r m Hm Hr Hs. exists m. split; [reflexivity|exact Hm].
Qed.

Lemma error_recorded_parse_loop (string : list Z) :
  forall p bytesRead p' n,
    error_recorded p -> parse_loop p string bytesRead = Done (p', n) ->
    error_recorded p'.
Proof.
  induction string as [|c rest IH]; intros p bytesRead p' n Hp H;
    cbn [parse_loop] in H.
  - injection H as <- _. exact Hp.
  - destruct (status_eqb (status p) GST_PARSER_PENDING && negb (c =? 0)).
    + apply bind_Done in H. destruct H as ([p1 again] & Hd & H).
      exact (IH _ _ _ _ (error_recorded_dispatch_char _ _ _ _ Hp Hd) H).
    + injection H as <- _. exact Hp.
Qed.

(** X7. Whatever parser a call of gst_parse_cstring starts from, when it
    ends with status Error the error field holds one of the seven messages
    of parse.c: an Error status never comes without its message. *)
Theorem error_status_has_message (p : GstParser) (string : list Z) :
  match gst_parse_cstring p string with
  | Done (p', _) =>
      status p' = GST_PARSER_ERROR ->
      exists m, error p' = Some m /\ In m parser_messages
  | _ => True
  end.
Proof.
  unfold gst_parse_cstring. cbv zeta.
  destruct (parse_loop (set_status p GST_PARSER_PENDING) string 0)
    as [[p' n]| |] eqn:E; [|exact I|exact I].
  apply (error_recorded_parse_loop _ _ _ _ _) with (2 := E).
  intros Hs. cbn [status set_status] in Hs. discriminate Hs.
Qed.

(** ** No backslash in any string *)

Lemma no_backslash_app (a b : list Z) :
  no_backslash (a ++ b) <-> no_backslash a /\ no_backslash b.
Proof. unfold no_backslash. rewrite forallb_app, andb_true_iff. reflexivity. Qed.

Lemma nth_error_list_store_inv (A : Type) (l : list A) (i j : nat) (x y : A) :
  nth_error (list_store l i x) j = Some y -> y = x \/ nth_error l j = Some y.
Proof.
  intros H. destruct (Nat.eq_dec i j) as [<-|Hne].
  - destruct (Nat.lt_ge_cases i (List.length l)) as [Hlt|Hge].
    + rewrite nth_error_list_store_eq in H by exact Hlt. left. congruence.
    + exfalso. apply nth_error_slot_length in H. rewrite length_list_store in H. lia.
  - rewrite nth_error_list_store_neq in H by exact Hne. right. exact H.
Qed.

Lemma symbol_char_not_backslash (c : Z) : is_symbol_char c = true -> c <> 92.
Proof. intros H ->. vm_compute in H. discriminate H. Qed.

Lemma string_escape_not_backslash (c next : Z) :
  string_escape c = Some next -> next <> 92.
Proof.
  unfold string_escape.
  repeat match goal with |- (if ?b then _ else _) = _ -> _ => destruct b end;
    intros H; inversion H; subst; discriminate.
Qed.

Lemma no_backslash_push (buf : list Z) (c : Z) :
  no_backslash buf -> c <> 92 -> no_backslash (gst_buffer_push buf c).
Proof.
  intros Hb Hc. unfold gst_buffer_push. apply no_backslash_app. split; [exact Hb|].
  unfold no_backslash. cbn. apply Z.eqb_neq in Hc. rewrite Hc. reflexivity.
Qed.

Lemma backslash_free_store (p q : GstParser) (i : nat) (f : GstParseState) :
  backslash_free p -> no_backslash (frame_bytes f) ->
  store p i f = Done q -> backslash_free q.
Proof.
  intros [Hv Hd] Hf H. apply store_Done in H. destruct H as [-> _].
  split; [exact Hv|]. cbn [data set_data]. intros j g Hj.
  apply nth_error_list_store_inv in Hj. destruct Hj as [Hj|Hj].
  - injection Hj as ->. exact Hf.
  - exact (Hd j g Hj).
Qed.

Lemma backslash_free_append (p q : GstParser) (x : GstValue) :
  backslash_free p -> no_backslash (value_bytes x) ->
  parser_append p x = Done q -> backslash_free q.
Proof.
  intros Hp Hx. unfold parser_append, parser_peek.
  destruct (count p) as [|n].
  { intros H. injection H as <-. exact Hp. }
  intros H. apply bind_Done in H. destruct H as (f & Hl & H).
  unfold load in Hl. destruct (nth_error (data p) n) as [[g|]|] eqn:Hn;
    try discriminate. injection Hl as ->.
  destruct f as [|d a|buf st|buf].
  - injection H as <-. destruct Hp as [_ Hd]. split; [exact Hx|exact Hd].
  - apply (backslash_free_store p q n _ Hp) in H; [exact H|].
    cbn [frame_bytes]. unfold gst_array_push. rewrite flat_map_app.
    apply no_backslash_app. split.
    + exact (proj2 Hp n _ Hn).
    + cbn [flat_map]. rewrite app_nil_r. exact Hx.
  - injection H as <-. exact Hp.
  - injection H as <-. exact Hp.
Qed.

Lemma backslash_free_push (p q : GstParser) (type : ParseType) (character : Z) :
  backslash_free p -> parser_push p type character = Done q -> backslash_free q.
Proof.
  intros Hp. unfold parser_push.
  set (p0 := if (cap p <=? count p)%nat then _ else p).
  assert (backslash_free p0) as Hp0.
  { subst p0. destruct (cap p <=? count p)%nat; [|exact Hp].
    split; [exact (proj1 Hp)|]. cbn [data set_cap set_data]. intros i f Hi.
    unfold gst_alloc in Hi. apply nth_error_In, repeat_spec in Hi. discriminate. }
  unfold parser_peek. cbn [count set_count].
  assert (backslash_free (set_count p0 (S (count p0)))) as Hp1 by exact Hp0.
  destruct type;
    try (intros H; apply (backslash_free_store _ _ _ _ Hp1) in H;
         [exact H|reflexivity]).
  destruct (character =? ch "("); destruct (character =? ch "[");
    destruct (character =? ch "{"); intros H;
    apply (backslash_free_store _ _ _ _ Hp1) in H; try exact H; reflexivity.
Qed.

Lemma backslash_free_build_token (p q : GstParser) (buf : list Z) (x : GstValue) :
  backslash_free p -> no_backslash buf ->
  build_token p buf = Done (q, x) ->
  backslash_free q /\ no_backslash (value_bytes x).
Proof.
  intros Hp Hb. unfold build_token. intros H. apply bind_Done in H.
  destruct H as ([number|] & _ & H).
  { injection H as <- <-. split; [exact Hp|reflexivity]. }
  destruct (check_str_const _ buf);
    [injection H as <- <-; split; [exact Hp|reflexivity]|].
  destruct (check_str_const _ buf);
    [injection H as <- <-; split; [exact Hp|reflexivity]|].
  destruct (check_str_const _ buf);
    [injection H as <- <-; split; [exact Hp|reflexivity]|].
  destruct buf as [|first rest]; [discriminate|].
  destruct (_ && _); injection H as <- <-; (split; [exact Hp|]);
    [reflexivity|exact Hb].
Qed.

Lemma backslash_free_root_state (p q : GstParser) (c : Z) (done : bool) :
  backslash_free p -> root_state p c = Done (q, done) -> backslash_free q.
Proof.
  intros Hp. unfold root_state.
  repeat match goal with
         | |- (if ?b then _ else _) = _ -> _ => destruct b
         end; intros H;
    try (injection H as <- _; exact Hp);
    apply bind_Done in H; destruct H as (q1 & Hpush & H);
    injection H as <- _; exact (backslash_free_push _ _ _ _ Hp Hpush).
Qed.

Lemma backslash_free_pop (p : GstParser) :
  backslash_free p -> backslash_free (fst (parser_pop p)).
Proof. intros Hp. unfold parser_pop. destruct (count p); exact Hp. Qed.

Lemma backslash_free_token_state (p q : GstParser) (c : Z) (done : bool) :
  backslash_free p -> token_state p c = Done (q, done) -> backslash_free q.
Proof.
  intros Hp. unfold token_state. intros H. apply bind_Done in H.
  destruct H as ([[p' top] f] & Hl & H). apply load_top_Done in Hl.
  destruct Hl as (-> & _ & Hf).
  pose proof (backslash_free_pop p Hp) as Hpop.
  pose proof (proj2 Hp top f Hf) as Hbytes.
  destruct f as [|d a|buf st|buf]; try discriminate; cbn [frame_bytes] in Hbytes;
    (destruct (is_whitespace c || (c =? ch ")") || (c =? ch "]") || (c =? ch "}"));
     [ destruct (parser_pop p) as [p1 o]; cbn [fst] in Hpop;
       apply bind_Done in H; destruct H as ([q1 x] & Hb & H);
       apply bind_Done in H; destruct H as (q2 & Happ & H);
       injection H as <- _;
       destruct (backslash_free_build_token _ _ _ _ Hpop Hbytes Hb) as [Hq1 Hx];
       exact (backslash_free_append _ _ _ Hq1 Hx Happ)
     | destruct (is_symbol_char c) eqn:Esym;
       [ apply bind_Done in H; destruct H as (q1 & Hs & H);
         injection H as <- _;
         apply (backslash_free_store _ _ _ _ Hp) in Hs; [exact Hs|];
         cbn [frame_bytes];
         exact (no_backslash_push _ _ Hbytes (symbol_char_not_backslash c Esym))
       | injection H as <- _; exact Hp ] ]).
Qed.

Lemma backslash_free_string_state (p q : GstParser) (c : Z) (done : bool) :
  backslash_free p -> string_state p c = Done (q, done) -> backslash_free q.
Proof.
  intros Hp. unfold string_state. intros H. apply bind_Done in H.
  destruct H as ([[p' top] f] & Hl & H). apply load_top_Done in Hl.
  destruct Hl as (-> & _ & Hf).
  pose proof (backslash_free_pop p Hp) as Hpop.
  pose proof (proj2 Hp top f Hf) as Hbytes.
  assert (Hstore : forall g b,
             no_backslash (frame_bytes g) ->
             (r <- store p top g ;; Done (r, true)) = Done (q, b) ->
             backslash_free q).
  { intros g b Hg Hs. apply bind_Done in Hs. destruct Hs as (q1 & Hs & Hd).
    injection Hd as <- _. exact (backslash_free_store _ _ _ _ Hp Hg Hs). }
  destruct f as [|d a|buf st|buf]; try discriminate. cbn [frame_bytes] in Hbytes.
  destruct st.
  - destruct (c =? 92) eqn:E92;
      [exact (Hstore (StString buf STRING_STATE_ESCAPE) _ Hbytes H)|].
    destruct (c =? 34).
    + destruct (parser_pop p) as [p1 o]; cbn [fst] in Hpop.
      apply bind_Done in H. destruct H as (q1 & Happ & H).
      injection H as <- _. apply (backslash_free_append _ _ _ Hpop) in Happ;
        [exact Happ|].
      unfold gst_array_push, gst_array, gst_load_cstring, gst_buffer_to_string.
      cbn [app value_bytes flat_map]. rewrite app_nil_r.
      apply no_backslash_app. split; [reflexivity|exact Hbytes].
    + apply (Hstore _ _) with (2 := H). cbn [frame_bytes].
      apply no_backslash_push; [exact Hbytes|]. apply Z.eqb_neq. exact E92.
  - destruct (string_escape c) as [next|] eqn:Eesc.
    + apply (Hstore _ _) with (2 := H). cbn [frame_bytes].
      apply no_backslash_push; [exact Hbytes|].
      exact (string_escape_not_backslash c next Eesc).
    + injection H as <- _. exact Hp.
  - injection H as <- _. exact Hp.
  - injection H as <- _. exact Hp.
Qed.

Lemma backslash_free_form_state (p q : GstParser) (c : Z) (done : bool) :
  backslash_free p -> form_state p c = Done (q, done) -> backslash_free q.
Proof.
  intros Hp. unfold form_state. intros H. apply bind_Done in H.
  destruct H as ([[p' top] f] & Hl & H). apply load_top_Done in Hl.
  destruct Hl as (-> & _ & Hf).
  pose proof (backslash_free_pop p Hp) as Hpop.
  pose proof (proj2 Hp top f Hf) as Hbytes.
  destruct f as [|[d|] a|buf st|buf]; try discriminate.
  destruct (c =? d); [|exact (backslash_free_root_state _ _ _ _ Hp H)].
  destruct (parser_pop p) as [p1 o]; cbn [fst] in Hpop.
  apply bind_Done in H. destruct H as (q1 & Happ & H).
  injection H as <- _.
  exact (backslash_free_append p1 q1 (GstArray a) Hpop Hbytes Happ).
Qed.

Lemma backslash_free_dispatch_loop (c : Z) (fuel : nat) :
  forall p done q done',
    backslash_free p -> dispatch_loop fuel p c done = Done (q, done') ->
    backslash_free q.
Proof.
  induction fuel as [|fuel IH]; intros p done q done' Hp H;
    cbn [dispatch_loop] in H;
    destruct (negb done && status_eqb (status p) GST_PARSER_PENDING);
    try discriminate; try (injection H as <- _; exact Hp).
  apply bind_Done in H. destruct H as ([p1 d1] & Hstep & H).
  apply (IH _ _ _ _) with (2 := H). clear H.
  unfold dispatch_step in Hstep. apply bind_Done in Hstep.
  destruct Hstep as ([[p' top] f] & Hl & H). apply load_top_Done in Hl.
  destruct Hl as (-> & _ & _).
  destruct (frame_type f).
  - exact (backslash_free_root_state _ _ _ _ Hp H).
  - exact (backslash_free_form_state _ _ _ _ Hp H).
  - exact (backslash_free_string_state _ _ _ _ Hp H).
  - exact (backslash_free_token_state _ _ _ _ Hp H).
Qed.

Lemma backslash_free_parse_loop (string : list Z) :
  forall p bytesRead p' n,
    backslash_free p -> parse_loop p string bytesRead = Done (p', n) ->
    backslash_free p'.
Proof.
  induction string as [|c rest IH]; intros p bytesRead p' n Hp H;
    cbn [parse_loop] in H.
  - injection H as <- _. exact Hp.
  - destruct (status_eqb (status p) GST_PARSER_PENDING && negb (c =? 0)).
    + apply bind_Done in H. destruct H as ([p1 again] & Hd & H).
      apply (IH _ _ _ _) with (2 := H).
      unfold dispatch_char in Hd. apply bind_Done in Hd.
      destruct Hd as ([p2 done] & Hloop & Hd). injection Hd as <- _.
      exact (backslash_free_dispatch_loop _ _ _ _ _ _ Hp Hloop).
    + injection H as <- _. exact Hp.
Qed.

(** X8. The reader has no escape for the backslash, and a backslash is
    neither a symbol byte nor taken as it stands inside a string literal:
    starting from a parser that holds no string with a backslash (a fresh
    one, or one left by earlier calls), no call of gst_parse_cstring, on
    any input, leaves a backslash in a string of the value it produces or
    of a frame of its stack. *)
Theorem no_string_holds_a_backslash (p : GstParser) (string : list Z) :
  backslash_free p ->
  match gst_parse_cstring p string with
  | Done (p', _) => backslash_free p' /\ no_backslash (value_bytes (value p'))
  | _ => True
  end.
Proof.
  intros Hp. unfold gst_parse_cstring. cbv zeta.
  destruct (parse_loop (set_status p GST_PARSER_PENDING) string 0)
    as [[p' n]| |] eqn:E; [|exact I|exact I].
  assert (backslash_free p') as Hq
      by exact (backslash_free_parse_loop string (set_status p GST_PARSER_PENDING)
                  0%nat p' n Hp E).
  split; [exact Hq|exact (proj1 Hq)].
Qed.

Lemma backslash_free_fresh : backslash_free fresh_parser.
Proof.
  split; [reflexivity|]. intros i f Hi.
  apply nth_error_In in Hi. cbn in Hi.
  repeat (destruct Hi as [Hi|Hi]; [inversion Hi; subst; reflexivity || discriminate|]).
  contradiction.
Qed.

Lemma no_string_holds_a_backslash_witness :
  exists p',
    gst_parse_cstring fresh_parser
      (bytes_of "(a " ++ 34 :: bytes_of "b" ++ 92 :: bytes_of "nc" ++ [34; 41])
    = Done (p', 10%nat)
    /\ no_backslash (value_bytes (value p')).
Proof.
  pose proof (no_string_holds_a_backslash fresh_parser
                (bytes_of "(a " ++ 34 :: bytes_of "b" ++ 92 :: bytes_of "nc"
                 ++ [34; 41]) backslash_free_fresh) as H.
  destruct (gst_parse_cstring fresh_parser _) as [[p' n]| |] eqn:E.
  - exists p'. split; [|exact (proj2 H)].
    revert E. vm_compute. intros E. injection E as <- <-. reflexivity.
  - exfalso. revert E. vm_compute. discriminate.
  - exfalso. revert E. vm_compute. discriminate.
Defined.

(** ** Single steps of the automaton *)

Lemma is_whitespace_spec (c : Z) :
  is_whitespace c = true <-> c = 32 \/ c = 9 \/ c = 10 \/ c = 13 \/ c = 0 \/ c = 44.
Proof.
  unfold is_whitespace.
  change (ch " ") with 32. change (ch "009") with 9. change (ch "010") with 10.
  change (ch "013") with 13. change (ch "000") with 0. change (ch ",") with 44.
  rewrite !orb_true_iff, !Z.eqb_eq. tauto.
Qed.

Lemma is_closing_spec (c : Z) :
  is_closing c = true <-> c = 41 \/ c = 93 \/ c = 125.
Proof.
  unfold is_closing.
  change (ch ")") with 41. change (ch "]") with 93. change (ch "}") with 125.
  rewrite !orb_true_iff, !Z.eqb_eq. tauto.
Qed.

Lemma is_opening_spec (c : Z) :
  is_opening c = true <-> c = 40 \/ c = 91 \/ c = 123.
Proof.
  unfold is_opening.
  change (ch "(") with 40. change (ch "[") with 91. change (ch "{") with 123.
  rewrite !orb_true_iff, !Z.eqb_eq. tauto.
Qed.

Lemma if_true_else (b r : bool) :
  (if b then true else r) = true <-> b = true \/ r = true.
Proof. destruct b; split; auto. intros [H|H]; [discriminate|exact H]. Qed.

(** The six ranges and three bytes of is_symbol_char, merged. *)
Lemma is_symbol_char_spec (c : Z) :
  is_symbol_char c = true <->
  c = 33 \/ 35 <= c <= 38 \/ 42 <= c <= 58 \/ 60 <= c <= 90
  \/ 94 <= c <= 95 \/ 97 <= c <= 122.
Proof.
  unfold is_symbol_char.
  change (ch "a") with 97. change (ch "z") with 122. change (ch "A") with 65.
  change (ch "Z") with 90. change (ch "0") with 48. change (ch ":") with 58.
  change (ch "<") with 60. change (ch "@") with 64. change (ch "*") with 42.
  change (ch "/") with 47. change (ch "#") with 35. change (ch "&") with 38.
  change (ch "_") with 95. change (ch "^") with 94. change (ch "!") with 33.
  rewrite !if_true_else, !andb_true_iff, !Z.leb_le, !Z.eqb_eq.
  assert (false = true <-> False) as -> by (split; [discriminate|contradiction]).
  lia.
Qed.

Lemma token_byte_spec (c : Z) :
  token_byte c = true <->
  c = 33 \/ 35 <= c <= 38 \/ 42 <= c <= 43 \/ 45 <= c <= 58 \/ 60 <= c <= 90
  \/ 94 <= c <= 95 \/ 97 <= c <= 122.
Proof.
  unfold token_byte. rewrite andb_true_iff, negb_true_iff, is_symbol_char_spec.
  split.
  - intros [Hs Hw].
    assert (c <> 44).
    { intros ->. discriminate Hw. }
    lia.
  - intros H. split; [lia|].
    destruct (is_whitespace c) eqn:E; [|reflexivity].
    apply is_whitespace_spec in E. lia.
Qed.

Ltac bool_false spec :=
  match goal with
  | |- ?b = false =>
      let E := fresh "E" in
      destruct b eqn:E; [apply spec in E; exfalso; lia|reflexivity]
  end.

Lemma token_byte_classes (c : Z) :
  token_byte c = true ->
  is_symbol_char c = true /\ is_whitespace c = false /\ is_closing c = false
  /\ is_opening c = false /\ (c =? 34) = false /\ (c =? 0) = false.
Proof.
  intros H. apply token_byte_spec in H.
  split; [apply is_symbol_char_spec; lia|].
  split; [bool_false is_whitespace_spec|].
  split; [bool_false is_closing_spec|].
  split; [bool_false is_opening_spec|].
  split; apply Z.eqb_neq; lia.
Qed.

Lemma closing_tests (c : Z) :
  (c =? ch "]") || (c =? ch ")") || (c =? ch "}") = is_closing c.
Proof. unfold is_closing. rewrite (orb_comm (c =? ch "]")). reflexivity. Qed.

Lemma root_state_whitespace (p : GstParser) (w : Z) :
  is_whitespace w = true -> root_state p w = Done (p, true).
Proof.
  intros H. unfold root_state. rewrite closing_tests. fold (is_opening w).
  rewrite H. apply is_whitespace_spec in H.
  replace (is_closing w) with false by (symmetry; bool_false is_closing_spec).
  replace (is_opening w) with false by (symmetry; bool_false is_opening_spec).
  replace (w =? 34) with false by (symmetry; apply Z.eqb_neq; lia).
  reflexivity.
Qed.

Lemma root_state_closing_error (p : GstParser) (c : Z) :
  is_closing c = true ->
  root_state p c = Done (p_error p "Unexpected closing delimiter", true).
Proof. intros H. unfold root_state. rewrite closing_tests, H. reflexivity. Qed.

Lemma root_state_opening (p : GstParser) (o : Z) :
  is_opening o = true ->
  root_state p o = (q <- parser_push p PTYPE_FORM o ;; Done (q, true)).
Proof.
  intros H. unfold root_state. rewrite closing_tests. fold (is_opening o).
  rewrite H. apply is_opening_spec in H.
  replace (is_closing o) with false by (symmetry; bool_false is_closing_spec).
  reflexivity.
Qed.

Lemma root_state_quote (p : GstParser) :
  root_state p 34 = (q <- parser_push p PTYPE_STRING 34 ;; Done (q, true)).
Proof. reflexivity. Qed.

Lemma root_state_token (p : GstParser) (c : Z) :
  token_byte c = true ->
  root_state p c = (q <- parser_push p PTYPE_TOKEN c ;; Done (q, false)).
Proof.
  intros H. apply token_byte_classes in H.
  destruct H as (Hs & Hw & Hc & Ho & Hq & _).
  unfold root_state. rewrite closing_tests. fold (is_opening c).
  rewrite Hc, Ho, Hq, Hw, Hs. reflexivity.
Qed.

Lemma form_state_other (p : GstParser) (k : nat) (d : Z) (a : list GstValue) (c : Z) :
  at_top p k (StForm (Some d) a) -> c <> d -> form_state p c = root_state p c.
Proof.
  intros [Hc Hf] Hne. unfold form_state. rewrite (load_top_slot p k _ Hc Hf).
  cbn [bind]. apply Z.eqb_neq in Hne. rewrite Hne. reflexivity.
Qed.

Lemma form_state_close (p : GstParser) (k : nat) (d : Z) (a : list GstValue) :
  at_top p k (StForm (Some d) a) ->
  form_state p d = (q <- parser_append (set_count p k) (GstArray a) ;; Done (q, true)).
Proof.
  intros [Hc Hf]. unfold form_state. rewrite (load_top_slot p k _ Hc Hf).
  cbn [bind]. rewrite Z.eqb_refl. unfold parser_pop. rewrite Hc. reflexivity.
Qed.

Lemma token_state_byte (p : GstParser) (k : nat) (t : list Z) (c : Z) :
  at_top p k (StToken t) -> token_byte c = true ->
  token_state p c = Done (set_data p (list_store (data p) k (Some (StToken (t ++ [c])))),
                          true).
Proof.
  intros [Hc Hf] H. apply token_byte_classes in H.
  destruct H as (Hs & Hw & Hcl & _).
  unfold token_state. rewrite (load_top_slot p k _ Hc Hf). cbn [bind].
  replace (is_whitespace c || (c =? ch ")") || (c =? ch "]") || (c =? ch "}"))
    with false.
  2:{ rewrite Hw. cbn [orb]. fold (is_closing c). rewrite Hcl. reflexivity. }
  rewrite Hs. rewrite (store_slot p k _ _ Hf). reflexivity.
Qed.

Lemma string_state_plain (p : GstParser) (k : nat) (b : list Z) (c : Z) :
  at_top p k (StString b STRING_STATE_BASE) -> c <> 92 -> c <> 34 ->
  string_state p c
  = Done (set_data p (list_store (data p) k
                        (Some (StString (b ++ [c]) STRING_STATE_BASE))), true).
Proof.
  intros [Hc Hf] H1 H2. unfold string_state. rewrite (load_top_slot p k _ Hc Hf).
  cbn [bind]. apply Z.eqb_neq in H1, H2. rewrite H1, H2.
  rewrite (store_slot p k _ _ Hf). reflexivity.
Qed.

Lemma string_state_backslash (p : GstParser) (k : nat) (b : list Z) :
  at_top p k (StString b STRING_STATE_BASE) ->
  string_state p 92
  = Done (set_data p (list_store (data p) k
                        (Some (StString b STRING_STATE_ESCAPE))), true).
Proof.
  intros [Hc Hf]. unfold string_state. rewrite (load_top_slot p k _ Hc Hf).
  cbn [bind]. change (92 =? 92) with true. cbv iota.
  rewrite (store_slot p k _ _ Hf). reflexivity.
Qed.

Lemma string_state_escaped (p : GstParser) (k : nat) (b : list Z) (e : Z) :
  at_top p k (StString b STRING_STATE_ESCAPE) ->
  string_state p e =
  match string_escape e with
  | Some x =>
      Done (set_data p (list_store (data p) k
                          (Some (StString (b ++ [x]) STRING_STATE_BASE))), true)
  | None => Done (p_error p "Unknown string escape sequence.", true)
  end.
Proof.
  intros [Hc Hf]. unfold string_state. rewrite (load_top_slot p k _ Hc Hf).
  cbn [bind]. destruct (string_escape e); [|reflexivity].
  rewrite (store_slot p k _ _ Hf). reflexivity.
Qed.

(** *** One byte through dispatch_char and the feed loop *)

Lemma dispatch_char_consumed (p q : GstParser) (c : Z) :
  status p = GST_PARSER_PENDING ->
  dispatch_step p c = Done (q, true) ->
  dispatch_char p c = Done (set_index q (S (index q)), false).
Proof.
  intros Hs H. unfold dispatch_char. cbn [dispatch_loop]. rewrite Hs.
  cbn [negb andb status_eqb]. rewrite H. reflexivity.
Qed.

Lemma dispatch_char_again (p q r : GstParser) (c : Z) :
  status p = GST_PARSER_PENDING ->
  dispatch_step p c = Done (q, false) ->
  status q = GST_PARSER_PENDING ->
  dispatch_step q c = Done (r, true) ->
  dispatch_char p c = Done (set_index r (S (index r)), false).
Proof.
  intros Hs H Hq H2. unfold dispatch_char. cbn [dispatch_loop]. rewrite Hs.
  cbn [negb andb status_eqb]. rewrite H. cbn [bind]. rewrite Hq.
  cbn [negb andb status_eqb]. rewrite H2. reflexivity.
Qed.

Lemma parse_loop_step (p q : GstParser) (c : Z) (again : bool) (rest : list Z)
  (n : nat) :
  status p = GST_PARSER_PENDING -> c <> 0 ->
  dispatch_char p c = Done (q, again) ->
  parse_loop p (c :: rest) n = parse_loop q rest (S n).
Proof.
  intros Hs Hc H. cbn [parse_loop]. rewrite Hs. apply Z.eqb_neq in Hc. rewrite Hc.
  cbn [status_eqb negb andb]. rewrite H. reflexivity.
Qed.

(** ** Values fed byte by byte *)

Lemma evolves_refl (p : GstParser) (k : nat) : evolves p p k 0.
Proof. unfold evolves. repeat split; auto. Qed.

Lemma evolves_trans (p p1 p2 : GstParser) (k k' n1 n2 : nat) :
  evolves p p1 k n1 -> evolves p1 p2 k' n2 -> (k <= k')%nat ->
  evolves p p2 k (n1 + n2).
Proof.
  intros (A1 & A2 & A3 & A4 & A5 & A6 & A7) (B1 & B2 & B3 & B4 & B5 & B6 & B7) Hk.
  unfold evolves. repeat split; try congruence; try lia.
  intros i Hi. rewrite B7 by lia. apply A7. exact Hi.
Qed.

Ltac evolves_tac :=
  unfold evolves;
  cbn [data count cap index status error value
       set_data set_count set_cap set_index set_status set_error set_value];
  rewrite ?length_list_store;
  repeat split; try lia;
  intros; repeat rewrite nth_error_list_store_neq by lia; reflexivity.

Lemma evolves_set_index (p : GstParser) (k : nat) :
  evolves p (set_index p (S (index p))) k 1.
Proof. evolves_tac. Qed.

(** A byte that is no closing delimiter is handled by root_state, on the
    Root frame and on a Form frame alike. *)
Lemma dispatch_step_container (p : GstParser) (k : nat) (f : GstParseState) (c : Z) :
  at_top p k f ->
  f = StRoot \/ (exists d a, f = StForm (Some d) a /\ is_closing d = true) ->
  is_closing c = false ->
  dispatch_step p c = root_state p c.
Proof.
  intros [Hc Hf] Hkind Hcl. rewrite (dispatch_step_top p k f c Hc Hf).
  destruct Hkind as [->|(d & a & -> & Hd)]; [reflexivity|].
  cbn [frame_type]. apply (form_state_other p k d a c); [split; assumption|].
  intros ->. congruence.
Qed.

Lemma whitespace_classes (w : Z) :
  is_whitespace w = true -> is_closing w = false.
Proof. intros H. apply is_whitespace_spec in H. bool_false is_closing_spec. Qed.

(** Whitespace before a value is consumed and changes nothing. *)
Lemma feed_whitespace (p : GstParser) (k : nat) (f : GstParseState) (w : Z)
  (rest : list Z) (n : nat) :
  status p = GST_PARSER_PENDING -> at_top p k f ->
  f = StRoot \/ (exists d a, f = StForm (Some d) a /\ is_closing d = true) ->
  is_whitespace w = true -> w <> 0 ->
  parse_loop p (w :: rest) n = parse_loop (set_index p (S (index p))) rest (S n).
Proof.
  intros Hs Htop Hkind Hw H0.
  apply (parse_loop_step p _ w false rest n Hs H0).
  apply (dispatch_char_consumed p p w Hs).
  rewrite (dispatch_step_container p k f w Htop Hkind (whitespace_classes w Hw)).
  apply root_state_whitespace. exact Hw.
Qed.

Lemma at_top_container_room (p : GstParser) (k : nat) (f : GstParseState) :
  at_top p k f -> (count p < cap p)%nat -> (cap p <= List.length (data p))%nat ->
  (S k < List.length (data p))%nat.
Proof. intros [Hc _] H1 H2. lia. Qed.

(** The first byte of a token pushes a Token frame and goes into it. *)
Lemma feed_token_start (p : GstParser) (k : nat) (f : GstParseState) (c : Z)
  (rest : list Z) (n : nat) :
  status p = GST_PARSER_PENDING -> at_top p k f ->
  f = StRoot \/ (exists d a, f = StForm (Some d) a /\ is_closing d = true) ->
  (count p < cap p)%nat -> (cap p <= List.length (data p))%nat ->
  token_byte c = true ->
  exists p1,
    parse_loop p (c :: rest) n = parse_loop p1 rest (S n)
    /\ at_top p1 (S k) (StToken [c]) /\ evolves p p1 (S k) 1.
Proof.
  intros Hs Htop Hkind Hroom Hblock Hc.
  pose proof (token_byte_classes c Hc) as (_ & _ & Hcl & _ & _ & H0).
  apply Z.eqb_neq in H0.
  pose proof (at_top_container_room p k f Htop Hroom Hblock) as Hlen.
  destruct Htop as [Hcount Hf].
  set (q := set_data (set_count p (S (count p)))
              (list_store (data p) (count p) (Some (StToken [])))).
  assert (at_top q (S k) (StToken [])) as Hq.
  { split; [cbn; lia|]. cbn [data q set_data]. rewrite Hcount.
    apply nth_error_list_store_eq. exact Hlen. }
  set (r := set_data q (list_store (data q) (S k) (Some (StToken [c])))).
  exists (set_index r (S (index r))). split; [|split].
  - apply (parse_loop_step p _ c false rest n Hs H0).
    apply (dispatch_char_again p q r c Hs).
    + rewrite (dispatch_step_container p k f c (conj Hcount Hf) Hkind Hcl).
      rewrite (root_state_token p c Hc).
      rewrite (parser_push_below_capacity p PTYPE_TOKEN c Hroom Hblock).
      reflexivity.
    + exact Hs.
    + rewrite (dispatch_step_top q (S k) _ c (proj1 Hq) (proj2 Hq)).
      cbn [frame_type]. apply (token_state_byte q (S k) [] c Hq Hc).
  - split; [cbn; lia|]. cbn [data r q set_data set_index set_count].
    apply nth_error_list_store_eq. rewrite length_list_store. exact Hlen.
  - subst r q. rewrite Hcount. evolves_tac.
Qed.

(** Further bytes of the token are appended to its buffer. *)
Lemma feed_token_bytes (t : list Z) :
  forall p j t0 rest n,
    status p = GST_PARSER_PENDING -> at_top p j (StToken t0) ->
    forallb token_byte t = true ->
    exists p1,
      parse_loop p (t ++ rest) n = parse_loop p1 rest (n + List.length t)
      /\ at_top p1 j (StToken (t0 ++ t)) /\ evolves p p1 j (List.length t).
Proof.
  induction t as [|c t IH]; intros p j t0 rest n Hs Htop Ht.
  - exists p. cbn [app List.length]. rewrite Nat.add_0_r, app_nil_r.
    split; [reflexivity|]. split; [exact Htop|apply evolves_refl].
  - cbn [forallb] in Ht. apply andb_true_iff in Ht. destruct Ht as [Hc Ht].
    pose proof (token_byte_classes c Hc) as (_ & _ & _ & _ & _ & H0).
    apply Z.eqb_neq in H0.
    set (q0 := set_data p (list_store (data p) j (Some (StToken (t0 ++ [c]))))).
    set (q := set_index q0 (S (index q0))).
    assert (j < List.length (data p))%nat as Hlen
        by exact (nth_error_slot_length _ _ _ _ (proj2 Htop)).
    assert (at_top q j (StToken (t0 ++ [c]))) as Hq.
    { split; [exact (proj1 Htop)|]. cbn [data q q0 set_data set_index].
      apply nth_error_list_store_eq. exact Hlen. }
    destruct (IH q j (t0 ++ [c]) rest (S n) Hs Hq Ht) as (p1 & Hrun & Htop1 & Hev).
    exists p1. split; [|split].
    + cbn [app List.length].
      rewrite (parse_loop_step p q c false (t ++ rest) n Hs H0).
      * rewrite Hrun. f_equal. lia.
      * apply (dispatch_char_consumed p q0 c Hs).
        rewrite (dispatch_step_top p j _ c (proj1 Htop) (proj2 Htop)).
        cbn [frame_type]. exact (token_state_byte p j t0 c Htop Hc).
    + rewrite <- app_assoc in Htop1. exact Htop1.
    + cbn [List.length]. change (S (List.length t)) with (1 + List.length t)%nat.
      apply (evolves_trans p q p1 j j); [subst q q0; evolves_tac|exact Hev|lia].
Qed.

Lemma build_token_value (p : GstParser) (t : list Z) (x : GstValue) :
  token_value t = Some x -> build_token p t = Done (p, x).
Proof.
  unfold token_value, build_token.
  destruct (read_number t false) as [[number|]| |]; cbn [bind]; try discriminate.
  { intros H. injection H as <-. reflexivity. }
  rewrite !check_str_const_eqb.
  destruct (list_Z_eqb t (bytes_of "nil")); [intros H; injection H as <-; reflexivity|].
  destruct (list_Z_eqb t (bytes_of "false"));
    [intros H; injection H as <-; reflexivity|].
  destruct (list_Z_eqb t (bytes_of "true"));
    [intros H; injection H as <-; reflexivity|].
  destruct t as [|first rest]; [discriminate|].
  fold (is_digit first). destruct (is_digit first); [discriminate|].
  intros H. injection H as <-. reflexivity.
Qed.

(** ** Frames opened and closed *)

Lemma is_opening_classes (o : Z) :
  is_opening o = true -> is_closing o = false /\ o <> 0.
Proof.
  intros H. apply is_opening_spec in H. split; [bool_false is_closing_spec|lia].
Qed.

Lemma new_frame_opening (o : Z) :
  is_opening o = true ->
  new_frame PTYPE_FORM o = StForm (Some (closer o)) (sentinel o)
  /\ is_closing (closer o) = true /\ closer o <> 0.
Proof.
  intros H. apply is_opening_spec in H.
  destruct H as [H|[H|H]]; subst o; repeat split; discriminate.
Qed.

(** A byte for which root_state pushes a frame and is done. *)
Lemma feed_push (p : GstParser) (k : nat) (f : GstParseState) (type : ParseType)
  (c : Z) (rest : list Z) (n : nat) :
  status p = GST_PARSER_PENDING -> at_top p k f ->
  f = StRoot \/ (exists d a, f = StForm (Some d) a /\ is_closing d = true) ->
  (count p < cap p)%nat -> (cap p <= List.length (data p))%nat ->
  is_closing c = false -> c <> 0 ->
  root_state p c = (q <- parser_push p type c ;; Done (q, true)) ->
  exists p1,
    parse_loop p (c :: rest) n = parse_loop p1 rest (S n)
    /\ at_top p1 (S k) (new_frame type c) /\ evolves p p1 (S k) 1.
Proof.
  intros Hs Htop Hkind Hroom Hblock Hcl H0 Hroot.
  pose proof (at_top_container_room p k f Htop Hroom Hblock) as Hlen.
  set (q := set_data (set_count p (S (count p)))
              (list_store (data p) (count p) (Some (new_frame type c)))).
  exists (set_index q (S (index q))). split; [|split].
  - apply (parse_loop_step p _ c false rest n Hs H0).
    apply (dispatch_char_consumed p q c Hs).
    rewrite (dispatch_step_container p k f c Htop Hkind Hcl), Hroot.
    rewrite (parser_push_below_capacity p type c Hroom Hblock). reflexivity.
  - destruct Htop as [Hcount Hf]. split; [cbn; lia|].
    cbn [data q set_data set_index set_count]. rewrite Hcount.
    apply nth_error_list_store_eq. exact Hlen.
  - destruct Htop as [Hcount Hf]. subst q. rewrite Hcount. evolves_tac.
Qed.

Lemma append_form (p : GstParser) (k : nat) (d : option Z) (a : list GstValue)
  (x : GstValue) :
  nth_error (data p) k = Some (Some (StForm d a)) ->
  parser_append (set_count p (S k)) x
  = Done (set_data (set_count p (S k))
            (list_store (data p) k (Some (StForm d (a ++ [x]))))).
Proof.
  intros Hf.
  exact (parser_append_slot (set_count p (S k)) k (StForm d a) x eq_refl Hf).
Qed.

Lemma append_root (p : GstParser) (x : GstValue) :
  nth_error (data p) 0 = Some (Some StRoot) ->
  parser_append (set_count p 1) x
  = Done (set_status (set_value (set_count p 1) x) GST_PARSER_FULL).
Proof.
  intros Hf. exact (parser_append_slot (set_count p 1) 0 StRoot x eq_refl Hf).
Qed.

(** A byte that pops the top frame and appends a value to the Form frame
    below it. *)
Lemma feed_pop_form (p : GstParser) (k : nat) (d : option Z) (a : list GstValue)
  (x : GstValue) (c : Z) (rest : list Z) (n : nat) :
  status p = GST_PARSER_PENDING ->
  nth_error (data p) k = Some (Some (StForm d a)) -> c <> 0 ->
  dispatch_step p c = (q <- parser_append (set_count p (S k)) x ;; Done (q, true)) ->
  exists p1,
    parse_loop p (c :: rest) n = parse_loop p1 rest (S n)
    /\ at_top p1 k (StForm d (a ++ [x])) /\ evolves p p1 k 1.
Proof.
  intros Hs Hf H0 Hstep.
  pose proof (nth_error_slot_length _ _ _ _ Hf) as Hlen.
  set (q := set_data (set_count p (S k))
              (list_store (data p) k (Some (StForm d (a ++ [x]))))).
  exists (set_index q (S (index q))). split; [|split].
  - apply (parse_loop_step p _ c false rest n Hs H0).
    apply (dispatch_char_consumed p q c Hs).
    rewrite Hstep, (append_form p k d a x Hf). reflexivity.
  - split; [reflexivity|]. cbn [data q set_data set_index set_count].
    apply nth_error_list_store_eq. exact Hlen.
  - subst q. evolves_tac.
Qed.

(** The same byte when the frame below is the Root frame: the value is
    the parser's result and the loop stops. *)
Lemma feed_pop_root (p : GstParser) (x : GstValue) (c : Z) (rest : list Z) (n : nat) :
  status p = GST_PARSER_PENDING ->
  nth_error (data p) 0 = Some (Some StRoot) -> c <> 0 ->
  dispatch_step p c = (q <- parser_append (set_count p 1) x ;; Done (q, true)) ->
  parse_loop p (c :: rest) n
  = Done (set_index (set_status (set_value (set_count p 1) x) GST_PARSER_FULL)
            (S (index p)), S n).
Proof.
  intros Hs Hf H0 Hstep.
  rewrite (parse_loop_step p _ c false rest n Hs H0
             (dispatch_char_consumed p _ c Hs
                (eq_trans Hstep (f_equal (fun r => q <- r ;; Done (q, true))
                                   (append_root p x Hf))))).
  apply parse_loop_stopped. discriminate.
Qed.

(** ** String literals *)

(** The text between the quotes goes into the buffer of the String frame
    as string_decode reads it. *)
Lemma feed_string_body (m : nat) :
  forall body bs p j b rest n,
    (List.length body <= m)%nat -> string_decode body = Some bs ->
    status p = GST_PARSER_PENDING -> at_top p j (StString b STRING_STATE_BASE) ->
    exists p1,
      parse_loop p (body ++ rest) n = parse_loop p1 rest (n + List.length body)
      /\ at_top p1 j (StString (b ++ bs) STRING_STATE_BASE)
      /\ evolves p p1 j (List.length body).
Proof.
  induction m as [|m IH]; intros body bs p j b rest n Hm Hdec Hs Htop.
  - destruct body; [|cbn in Hm; lia]. cbn in Hdec. injection Hdec as <-.
    exists p. cbn [app List.length]. rewrite Nat.add_0_r, app_nil_r.
    split; [reflexivity|]. split; [exact Htop|apply evolves_refl].
  - destruct body as [|c body].
    { cbn in Hdec. injection Hdec as <-.
      exists p. cbn [app List.length]. rewrite Nat.add_0_r, app_nil_r.
      split; [reflexivity|]. split; [exact Htop|apply evolves_refl]. }
    assert (j < List.length (data p))%nat as Hlen
        by exact (nth_error_slot_length _ _ _ _ (proj2 Htop)).
    cbn [string_decode] in Hdec. destruct (c =? 92) eqn:E92.
    + apply Z.eqb_eq in E92. subst c.
      destruct body as [|e body]; [discriminate|].
      destruct (string_escape e) as [x|] eqn:Ee; [|discriminate].
      destruct (string_decode body) as [bs'|] eqn:Hdec'; [|discriminate].
      cbn [option_map] in Hdec. injection Hdec as <-.
      assert (e <> 0) as He0 by (intros ->; vm_compute in Ee; discriminate).
      set (q0 := set_data p (list_store (data p) j
                               (Some (StString b STRING_STATE_ESCAPE)))).
      set (q := set_index q0 (S (index q0))).
      assert (at_top q j (StString b STRING_STATE_ESCAPE)) as Hq.
      { split; [exact (proj1 Htop)|]. cbn [data q q0 set_data set_index].
        apply nth_error_list_store_eq. exact Hlen. }
      set (r0 := set_data q (list_store (data q) j
                               (Some (StString (b ++ [x]) STRING_STATE_BASE)))).
      set (r := set_index r0 (S (index r0))).
      assert (at_top r j (StString (b ++ [x]) STRING_STATE_BASE)) as Hr.
      { split; [exact (proj1 Htop)|]. cbn [data r r0 set_data set_index].
        apply nth_error_list_store_eq.
        cbn [data q q0 set_data set_index]. rewrite length_list_store. exact Hlen. }
      cbn [List.length] in Hm.
      destruct (IH body bs' r j (b ++ [x]) rest (S (S n)) ltac:(lia) Hdec' Hs Hr)
        as (p1 & Hrun & Htop1 & Hev).
      exists p1. split; [|split].
      * cbn [app List.length].
        rewrite (parse_loop_step p q 92 false _ n Hs ltac:(discriminate)).
        2:{ apply (dispatch_char_consumed p q0 92 Hs).
            rewrite (dispatch_step_top p j _ 92 (proj1 Htop) (proj2 Htop)).
            cbn [frame_type]. exact (string_state_backslash p j b Htop). }
        rewrite (parse_loop_step q r e false _ (S n) Hs He0).
        2:{ apply (dispatch_char_consumed q r0 e Hs).
            rewrite (dispatch_step_top q j _ e (proj1 Hq) (proj2 Hq)).
            cbn [frame_type]. rewrite (string_state_escaped q j b e Hq), Ee.
            reflexivity. }
        rewrite Hrun. f_equal. lia.
      * rewrite <- app_assoc in Htop1. exact Htop1.
      * cbn [List.length].
        change (S (S (List.length body))) with (2 + List.length body)%nat.
        apply (evolves_trans p r p1 j j); [subst r r0 q q0; evolves_tac|exact Hev|lia].
    + destruct ((c =? 34) || (c =? 0)) eqn:E34; [discriminate|].
      apply orb_false_iff in E34. destruct E34 as [E34 E0].
      apply Z.eqb_neq in E92, E34, E0.
      destruct (string_decode body) as [bs'|] eqn:Hdec'; [|discriminate].
      cbn [option_map] in Hdec. injection Hdec as <-.
      set (q0 := set_data p (list_store (data p) j
                               (Some (StString (b ++ [c]) STRING_STATE_BASE)))).
      set (q := set_index q0 (S (index q0))).
      assert (at_top q j (StString (b ++ [c]) STRING_STATE_BASE)) as Hq.
      { split; [exact (proj1 Htop)|]. cbn [data q q0 set_data set_index].
        apply nth_error_list_store_eq. exact Hlen. }
      cbn [List.length] in Hm.
      destruct (IH body bs' q j (b ++ [c]) rest (S n) ltac:(lia) Hdec' Hs Hq)
        as (p1 & Hrun & Htop1 & Hev).
      exists p1. split; [|split].
      * cbn [app List.length].
        rewrite (parse_loop_step p q c false _ n Hs E0).
        2:{ apply (dispatch_char_consumed p q0 c Hs).
            rewrite (dispatch_step_top p j _ c (proj1 Htop) (proj2 Htop)).
            cbn [frame_type]. exact (string_state_plain p j b c Htop E92 E34). }
        rewrite Hrun. f_equal. lia.
      * rewrite <- app_assoc in Htop1. exact Htop1.
      * cbn [List.length].
        change (S (List.length body)) with (1 + List.length body)%nat.
        apply (evolves_trans p q p1 j j); [subst q q0; evolves_tac|exact Hev|lia].
Qed.

Lemma dispatch_step_quote_close (p : GstParser) (k : nat) (b : list Z) :
  at_top p (S k) (StString b STRING_STATE_BASE) ->
  dispatch_step p 34
  = (q <- parser_append (set_count p (S k)) (quoted b) ;; Done (q, true)).
Proof.
  intros [Hc Hf]. rewrite (dispatch_step_top p (S k) _ 34 Hc Hf). cbn [frame_type].
  exact (string_state_close p (S k) b Hc Hf).
Qed.

Lemma dispatch_step_form_close (p : GstParser) (k : nat) (d : Z) (a : list GstValue) :
  at_top p (S k) (StForm (Some d) a) ->
  dispatch_step p d
  = (q <- parser_append (set_count p (S k)) (GstArray a) ;; Done (q, true)).
Proof.
  intros [Hc Hf]. rewrite (dispatch_step_top p (S k) _ d Hc Hf). cbn [frame_type].
  exact (form_state_close p (S k) d a (conj Hc Hf)).
Qed.

(** What evolves keeps of the frame below the one a value is read in. *)
Lemma evolves_slot (p p' : GstParser) (k n i : nat) (f : option GstParseState) :
  evolves p p' k n -> (i < k)%nat ->
  nth_error (data p) i = Some f -> nth_error (data p') i = Some f.
Proof. intros (_ & _ & _ & _ & _ & _ & H) Hi Hf. rewrite (H i Hi). exact Hf. Qed.

Lemma evolves_status (p p' : GstParser) (k n : nat) :
  evolves p p' k n -> status p = GST_PARSER_PENDING -> status p' = GST_PARSER_PENDING.
Proof. intros (_ & _ & H & _) Hs. congruence. Qed.

Lemma evolves_room (p p' : GstParser) (k n h : nat) :
  evolves p p' k n -> count p' = count p ->
  (count p + h <= cap p)%nat -> (cap p <= List.length (data p))%nat ->
  (count p' + h <= cap p')%nat /\ (cap p' <= List.length (data p'))%nat.
Proof. intros (H1 & H2 & _) Hc Hr Hb. lia. Qed.

(** ** The end of a token *)

Lemma ends_token_spec (c : Z) :
  ends_token c = true -> c <> 0 /\ is_whitespace c || is_closing c = true.
Proof.
  unfold ends_token. intros H. apply andb_true_iff in H. destruct H as [H0 H].
  split; [|exact H]. apply Z.eqb_neq. destruct (c =? 0); [discriminate|reflexivity].
Qed.

Lemma terminated_atom (t rest : list Z) :
  terminated (Atom t) rest = true ->
  exists c rest', rest = c :: rest' /\ ends_token c = true.
Proof.
  cbn [terminated]. destruct rest as [|c rest']; [discriminate|].
  intros H. exists c, rest'. split; [reflexivity|exact H].
Qed.

Lemma terminated_cons (v : sexp) (c : Z) (rest : list Z) :
  ends_token c = true -> terminated v (c :: rest) = true.
Proof. intros H. destruct v; [exact H|reflexivity|reflexivity]. Qed.

Lemma dispatch_step_token_end (p q : GstParser) (k : nat) (t : list Z) (x : GstValue)
  (c : Z) :
  at_top p (S k) (StToken t) -> token_value t = Some x ->
  parser_append (set_count p (S k)) x = Done q ->
  is_whitespace c || is_closing c = true ->
  dispatch_step p c = Done (q, negb (is_closing c)).
Proof.
  intros Htop Hx Happ Hend.
  rewrite (dispatch_step_top p (S k) _ c (proj1 Htop) (proj2 Htop)).
  cbn [frame_type].
  rewrite (token_state_end p (S k) t c (proj1 Htop) (proj2 Htop) Hend).
  rewrite (build_token_value _ t x Hx). cbn [bind]. rewrite Happ. reflexivity.
Qed.

Lemma dispatch_loop_S (fuel : nat) (p : GstParser) (c : Z) :
  status p = GST_PARSER_PENDING ->
  dispatch_loop (S fuel) p c false
  = ('(p1, done) <- dispatch_step p c ;; dispatch_loop fuel p1 c done).
Proof. intros Hs. cbn [dispatch_loop]. rewrite Hs. reflexivity. Qed.

Lemma dispatch_loop_done (fuel : nat) (p : GstParser) (c : Z) :
  dispatch_loop fuel p c true = Done (p, true).
Proof. destruct fuel; reflexivity. Qed.

Lemma dispatch_loop_stopped (fuel : nat) (p : GstParser) (c : Z) (done : bool) :
  status p <> GST_PARSER_PENDING -> dispatch_loop fuel p c done = Done (p, done).
Proof.
  intros Hs. destruct (status_eqb (status p) GST_PARSER_PENDING) eqn:E.
  - apply status_eqb_eq in E. contradiction.
  - destruct fuel; cbn [dispatch_loop]; rewrite E, andb_false_r; reflexivity.
Qed.

(** The byte that ends a token in a form is looked at again by the form,
    with the value of the token among its items. *)
Lemma token_end_in_form (p : GstParser) (k : nat) (t : list Z) (x : GstValue)
  (d : Z) (a : list GstValue) (c : Z) (rest : list Z) (n : nat) :
  status p = GST_PARSER_PENDING -> at_top p (S k) (StToken t) ->
  nth_error (data p) k = Some (Some (StForm (Some d) a)) -> is_closing d = true ->
  token_value t = Some x -> ends_token c = true ->
  parse_loop p (c :: rest) n
  = parse_loop (set_data (set_count p (S k))
                  (list_store (data p) k (Some (StForm (Some d) (a ++ [x])))))
      (c :: rest) n.
Proof.
  intros Hs Htop Hslot Hd Hx Hc. destruct (ends_token_spec c Hc) as [H0 Hend].
  set (q := set_data (set_count p (S k))
              (list_store (data p) k (Some (StForm (Some d) (a ++ [x]))))).
  assert (status q = GST_PARSER_PENDING) as Hsq by exact Hs.
  assert (at_top q k (StForm (Some d) (a ++ [x]))) as Hq.
  { split; [reflexivity|]. cbn [data q set_data set_count].
    apply nth_error_list_store_eq. exact (nth_error_slot_length _ _ _ _ Hslot). }
  pose proof (dispatch_step_token_end p q k t x c Htop Hx
                (append_form p k (Some d) a x Hslot) Hend) as Hstep.
  assert (dispatch_char p c = dispatch_char q c) as Hchar.
  { unfold dispatch_char. f_equal.
    rewrite (dispatch_loop_S 2 p c Hs), Hstep. cbn [bind].
    rewrite (dispatch_loop_S 2 q c Hsq).
    rewrite (dispatch_step_top q k _ c (proj1 Hq) (proj2 Hq)). cbn [frame_type].
    destruct (is_closing c) eqn:Hcl; cbn [negb].
    - rewrite (dispatch_loop_S 1 q c Hsq).
      rewrite (dispatch_step_top q k _ c (proj1 Hq) (proj2 Hq)). cbn [frame_type].
      destruct (Z.eq_dec c d) as [->|Hne].
      + rewrite (form_state_close q k d _ Hq).
        destruct (parser_append _ _) as [r| |]; cbn [bind];
          rewrite ?dispatch_loop_done; reflexivity.
      + rewrite (form_state_other q k d _ c Hq Hne),
          (root_state_closing_error q c Hcl).
        cbn [bind]. rewrite !dispatch_loop_done. reflexivity.
    - rewrite (form_state_other q k d _ c Hq ltac:(intros ->; congruence)).
      rewrite orb_false_r in Hend. rewrite (root_state_whitespace q c Hend).
      cbn [bind]. rewrite !dispatch_loop_done. reflexivity. }
  cbn [parse_loop]. rewrite Hs, Hsq, Hchar.
  apply Z.eqb_neq in H0. rewrite H0. reflexivity.
Qed.

(** The byte that ends a token above the Root frame is consumed, and the
    value of the token is the parser's result. *)
Lemma token_end_at_root (p : GstParser) (t : list Z) (x : GstValue) (c : Z)
  (rest : list Z) (n : nat) :
  status p = GST_PARSER_PENDING -> at_top p 1 (StToken t) ->
  nth_error (data p) 0 = Some (Some StRoot) ->
  token_value t = Some x -> ends_token c = true ->
  parse_loop p (c :: rest) n
  = Done (set_index (set_status (set_value (set_count p 1) x) GST_PARSER_FULL)
            (S (index p)), S n).
Proof.
  intros Hs Htop Hslot Hx Hc. destruct (ends_token_spec c Hc) as [H0 Hend].
  pose proof (dispatch_step_token_end p _ 0 t x c Htop Hx (append_root p x Hslot) Hend)
    as Hstep.
  rewrite (parse_loop_step p
             (set_index (set_status (set_value (set_count p 1) x) GST_PARSER_FULL)
                (S (index p))) c (is_closing c) rest n Hs H0).
  - apply parse_loop_stopped. discriminate.
  - unfold dispatch_char. rewrite (dispatch_loop_S 2 p c Hs), Hstep. cbn [bind].
    rewrite dispatch_loop_stopped by discriminate.
    cbn [bind]. rewrite negb_involutive. reflexivity.
Qed.

(** ** A text read back *)

Lemma render_seq (o : Z) (items : list sexp) :
  render (Seq o items) = o :: items_text items ++ [closer o].
Proof. reflexivity. Qed.

Lemma height_items (items : list sexp) (i : sexp) :
  In i items ->
  (height i <= fold_right (fun i m => Nat.max (height i) m) 0%nat items)%nat.
Proof.
  induction items as [|j items IH]; intros H; [contradiction|].
  cbn [fold_right]. destruct H as [->|H]; [lia|]. specialize (IH H). lia.
Qed.

Lemma ends_token_space : ends_token 32 = true.
Proof. reflexivity. Qed.

(** The items of a form are appended in turn; the byte after the last one
    ends it if it is a token. *)
Lemma feed_items (items : list sexp) :
  (forall i, In i items -> item_fed i) ->
  forall p k d a c rest n,
    status p = GST_PARSER_PENDING -> at_top p k (StForm (Some d) a) ->
    is_closing d = true ->
    (forall i, In i items -> (count p + height i <= cap p)%nat) ->
    (cap p <= List.length (data p))%nat -> ends_token c = true ->
    exists p',
      parse_loop p (items_text items ++ c :: rest) n
      = parse_loop p' (c :: rest) (n + List.length (items_text items))
      /\ at_top p' k (StForm (Some d) (a ++ map denote items))
      /\ evolves p p' k (List.length (items_text items)).
Proof.
  induction items as [|i items IH];
    intros Hfed p k d a c rest n Hs Htop Hd Hroom Hblock Hc.
  - exists p. cbn [items_text map app List.length].
    rewrite Nat.add_0_r, app_nil_r.
    split; [reflexivity|]. split; [exact Htop|apply evolves_refl].
  - destruct items as [|j items].
    + destruct (Hfed i (or_introl eq_refl) p k d a (c :: rest) n Hs Htop Hd
                  (Hroom i (or_introl eq_refl)) Hblock (terminated_cons i c rest Hc))
        as (p1 & Hrun1 & Htop1 & Hev1).
      exists p1. cbn [items_text map]. split; [exact Hrun1|].
      split; [exact Htop1|exact Hev1].
    + destruct (Hfed i (or_introl eq_refl) p k d a
                  (32 :: items_text (j :: items) ++ c :: rest) n Hs Htop Hd
                  (Hroom i (or_introl eq_refl)) Hblock
                  (terminated_cons i 32 _ ends_token_space))
        as (p1 & Hrun1 & Htop1 & Hev1).
      assert (count p1 = count p) as Hcount
          by (rewrite (proj1 Htop1), (proj1 Htop); reflexivity).
      pose proof (evolves_status _ _ _ _ Hev1 Hs) as Hs1.
      set (p1' := set_index p1 (S (index p1))).
      assert (evolves p p1' k (List.length (render i) + 1)) as Hev1'
          by exact (evolves_trans p p1 p1' k k _ _ Hev1 (evolves_set_index p1 k)
                      (le_n k)).
      destruct (IH (fun i' Hi => Hfed i' (or_intror Hi)) p1' k d (a ++ [denote i])
                  c rest (S (n + List.length (render i))) Hs1 Htop1 Hd)
        as (p2 & Hrun2 & Htop2 & Hev2).
      { intros i' Hi.
        exact (proj1 (evolves_room p p1' k _ (height i') Hev1' Hcount
                        (Hroom i' (or_intror Hi)) Hblock)). }
      { destruct Hev1' as (H1 & H2 & _). lia. }
      { exact Hc. }
      exists p2.
      assert (List.length (items_text (i :: j :: items))
              = ((List.length (render i) + 1)
                 + List.length (items_text (j :: items)))%nat) as Hlen.
      { change (items_text (i :: j :: items))
          with (render i ++ 32 :: items_text (j :: items)).
        rewrite length_app. cbn [List.length]. lia. }
      split; [|split].
      * change (items_text (i :: j :: items))
          with (render i ++ 32 :: items_text (j :: items)).
        rewrite <- app_assoc. cbn [app]. rewrite Hrun1.
        rewrite (feed_whitespace p1 k _ 32 _ _ Hs1 Htop1
                   (or_intror (ex_intro _ d (ex_intro _ _ (conj eq_refl Hd))))
                   eq_refl ltac:(discriminate)).
        fold p1'. rewrite Hrun2. rewrite length_app. cbn [List.length].
        f_equal. lia.
      * change (map denote (i :: j :: items))
          with (denote i :: map denote (j :: items)).
        replace (a ++ denote i :: map denote (j :: items))
          with ((a ++ [denote i]) ++ map denote (j :: items))
          by (rewrite <- app_assoc; reflexivity).
        exact Htop2.
      * rewrite Hlen. exact (evolves_trans p p1' p2 k k _ _ Hev1' Hev2 (le_n k)).
Qed.

Lemma well_formed_atom (t : list Z) :
  well_formed (Atom t) = true ->
  exists c t' x, t = c :: t' /\ token_byte c = true /\ forallb token_byte t' = true
                 /\ token_value t = Some x /\ denote (Atom t) = x.
Proof.
  cbn [well_formed denote]. intros H.
  apply andb_true_iff in H. destruct H as [H Hx].
  apply andb_true_iff in H. destruct H as [Hne Hb].
  destruct t as [|c t']; [discriminate|].
  destruct (token_value (c :: t')) as [x|]; [|discriminate].
  cbn [forallb] in Hb. apply andb_true_iff in Hb. destruct Hb as [Hc Ht].
  exists c, t', x. repeat split; assumption.
Qed.

Lemma well_formed_str (body : list Z) :
  well_formed (Str body) = true ->
  exists bs, string_decode body = Some bs /\ denote (Str body) = quoted bs.
Proof.
  cbn [well_formed denote]. intros H.
  destruct (string_decode body) as [bs|]; [|discriminate].
  exists bs. split; reflexivity.
Qed.

Lemma evolves_below (p p' : GstParser) (k n : nat) :
  evolves p p' (S k) n -> evolves p p' k n.
Proof.
  intros (H1 & H2 & H3 & H4 & H5 & H6 & H7).
  repeat split; try assumption. intros i Hi. apply H7. lia.
Qed.

Lemma ends_token_closer (o : Z) : is_opening o = true -> ends_token (closer o) = true.
Proof.
  intros H. apply is_opening_spec in H. destruct H as [H|[H|H]]; subst o; reflexivity.
Qed.

(** Every well-formed text that fits above a Form frame is read as an item
    of the form. *)
Lemma feed_item (h : nat) :
  forall v, (height v <= h)%nat -> well_formed v = true -> item_fed v.
Proof.
  induction h as [|h IH]; intros v Hh Hwf; [destruct v; cbn in Hh; lia|].
  intros p k d a rest n Hs Htop Hd Hroom Hblock Hterm.
  assert (nth_error (data p) k = Some (Some (StForm (Some d) a))) as Hslot
      by exact (proj2 Htop).
  assert (StForm (Some d) a = StRoot
          \/ exists d' a', StForm (Some d) a = StForm (Some d') a'
                           /\ is_closing d' = true) as Hkind
      by (right; exists d, a; split; [reflexivity|exact Hd]).
  assert (count p < cap p)%nat as Hlt by (destruct v; cbn [height] in Hroom; lia).
  destruct v as [t|body|o items].
  - destruct (well_formed_atom t Hwf) as (c & t' & x & -> & Hc & Ht & Hx & Hden).
    destruct (terminated_atom _ _ Hterm) as (e & rest' & -> & He).
    destruct (feed_token_start p k _ c (t' ++ e :: rest') n Hs Htop Hkind Hlt Hblock Hc)
      as (p1 & Hrun1 & Htop1 & Hev1).
    destruct (feed_token_bytes t' p1 (S k) [c] (e :: rest') (S n)
                (evolves_status _ _ _ _ Hev1 Hs) Htop1 Ht)
      as (p2 & Hrun2 & Htop2 & Hev2).
    pose proof (evolves_trans p p1 p2 (S k) (S k) _ _ Hev1 Hev2 (le_n _)) as Hev.
    pose proof (evolves_slot p p2 (S k) _ k _ Hev (Nat.lt_succ_diag_r k) Hslot)
      as Hslot2.
    pose proof (nth_error_slot_length _ _ _ _ Hslot2) as Hlen2.
    set (q := set_data (set_count p2 (S k))
                (list_store (data p2) k (Some (StForm (Some d) (a ++ [x]))))).
    exists q. split; [|split].
    + cbn [render app]. rewrite Hrun1, Hrun2.
      rewrite (token_end_in_form p2 k ([c] ++ t') x d a e rest' _
                 (evolves_status _ _ _ _ Hev Hs) Htop2 Hslot2 Hd Hx He).
      fold q. f_equal. cbn [List.length]. lia.
    + rewrite Hden. split; [reflexivity|].
      cbn [data q set_data set_index set_count].
      apply nth_error_list_store_eq. exact Hlen2.
    + cbn [render List.length].
      replace (S (List.length t')) with ((1 + List.length t') + 0)%nat by lia.
      apply (evolves_trans p p2 _ k k);
        [exact (evolves_below _ _ _ _ Hev)|subst q; evolves_tac|lia].
  - destruct (well_formed_str body Hwf) as (bs & Hdec & Hden).
    destruct (feed_push p k _ PTYPE_STRING 34 (body ++ 34 :: rest) n Hs Htop
                Hkind Hlt Hblock eq_refl ltac:(discriminate) (root_state_quote p))
      as (p1 & Hrun1 & Htop1 & Hev1).
    destruct (feed_string_body (List.length body) body bs p1 (S k) [] (34 :: rest)
                (S n) (le_n _) Hdec (evolves_status _ _ _ _ Hev1 Hs) Htop1)
      as (p2 & Hrun2 & Htop2 & Hev2).
    pose proof (evolves_trans p p1 p2 (S k) (S k) _ _ Hev1 Hev2 (le_n _)) as Hev.
    pose proof (evolves_slot p p2 (S k) _ k _ Hev (Nat.lt_succ_diag_r k) Hslot)
      as Hslot2.
    destruct (feed_pop_form p2 k (Some d) a (quoted bs) 34 rest
                (S n + List.length body)%nat (evolves_status _ _ _ _ Hev Hs) Hslot2
                ltac:(discriminate) (dispatch_step_quote_close p2 k _ Htop2))
      as (p3 & Hrun3 & Htop3 & Hev3).
    exists p3. split; [|split].
    + cbn [render app]. rewrite <- app_assoc. cbn [app].
      rewrite Hrun1, Hrun2, Hrun3.
      f_equal. cbn [List.length]. rewrite length_app. cbn [List.length]. lia.
    + rewrite Hden. exact Htop3.
    + cbn [render List.length]. rewrite length_app. cbn [List.length].
      replace (S (List.length body + 1))
        with ((1 + List.length body) + 1)%nat by lia.
      exact (evolves_trans p p2 p3 k k _ _ (evolves_below _ _ _ _ Hev) Hev3 (le_n k)).
  - cbn [well_formed] in Hwf. apply andb_true_iff in Hwf. destruct Hwf as [Ho Hitems].
    destruct (is_opening_classes o Ho) as [Hocl Ho0].
    destruct (new_frame_opening o Ho) as (Hframe & Hccl & Hc0).
    rewrite render_seq.
    destruct (feed_push p k _ PTYPE_FORM o (items_text items ++ closer o :: rest) n
                Hs Htop Hkind Hlt Hblock Hocl Ho0 (root_state_opening p o Ho))
      as (p1 & Hrun1 & Htop1 & Hev1).
    rewrite Hframe in Htop1.
    rewrite forallb_forall in Hitems.
    cbn [height] in Hh, Hroom.
    destruct (feed_items items
                (fun i Hi => IH i (Nat.le_trans _ _ _ (height_items items i Hi)
                                     (le_S_n _ _ Hh)) (Hitems i Hi))
                p1 (S k) (closer o) (sentinel o) (closer o) rest (S n)
                (evolves_status _ _ _ _ Hev1 Hs) Htop1 Hccl)
      as (p2 & Hrun2 & Htop2 & Hev2).
    { intros i Hi. pose proof (height_items items i Hi).
      destruct Hev1 as (H1 & _). rewrite H1, (proj1 Htop1). rewrite (proj1 Htop) in Hroom.
      lia. }
    { destruct Hev1 as (H1 & H2 & _). lia. }
    { exact (ends_token_closer o Ho). }
    pose proof (evolves_trans p p1 p2 (S k) (S k) _ _ Hev1 Hev2 (le_n _)) as Hev.
    pose proof (evolves_slot p p2 (S k) _ k _ Hev (Nat.lt_succ_diag_r k) Hslot)
      as Hslot2.
    destruct (feed_pop_form p2 k (Some d) a (GstArray (sentinel o ++ map denote items))
                (closer o) rest (S n + List.length (items_text items))%nat
                (evolves_status _ _ _ _ Hev Hs) Hslot2 Hc0
                (dispatch_step_form_close p2 k _ _ Htop2))
      as (p3 & Hrun3 & Htop3 & Hev3).
    exists p3. split; [|split].
    + cbn [app]. rewrite <- app_assoc. cbn [app].
      rewrite Hrun1, Hrun2, Hrun3.
      f_equal. cbn [List.length]. rewrite length_app. cbn [List.length]. lia.
    + exact Htop3.
    + cbn [List.length]. rewrite length_app. cbn [List.length].
      replace (S (List.length (items_text items) + 1))
        with ((1 + List.length (items_text items)) + 1)%nat by lia.
      exact (evolves_trans p p2 p3 k k _ _ (evolves_below _ _ _ _ Hev) Hev3 (le_n k)).
Qed.

(** ** Texts fed to a parser whose top frame is the Root frame *)

Lemma root_result (p p2 : GstParser) (m : nat) (x : GstValue) :
  at_top p 0 StRoot -> evolves (set_status p GST_PARSER_PENDING) p2 1 m ->
  status (set_index (set_status (set_value (set_count p2 1) x) GST_PARSER_FULL)
            (S (index p2))) = GST_PARSER_FULL
  /\ value (set_index (set_status (set_value (set_count p2 1) x) GST_PARSER_FULL)
              (S (index p2))) = x
  /\ at_top (set_index (set_status (set_value (set_count p2 1) x) GST_PARSER_FULL)
               (S (index p2))) 0 StRoot
  /\ error (set_index (set_status (set_value (set_count p2 1) x) GST_PARSER_FULL)
              (S (index p2))) = error p
  /\ index (set_index (set_status (set_value (set_count p2 1) x) GST_PARSER_FULL)
              (S (index p2))) = (index p + S m)%nat
  /\ cap (set_index (set_status (set_value (set_count p2 1) x) GST_PARSER_FULL)
            (S (index p2))) = cap p
  /\ List.length
       (data (set_index (set_status (set_value (set_count p2 1) x) GST_PARSER_FULL)
                (S (index p2)))) = List.length (data p).
Proof.
  intros [_ Hroot] (H1 & H2 & H3 & H4 & H5 & H6 & H7).
  cbn [status value error index data count cap at_top
       set_index set_status set_value set_count set_data] in *.
  repeat split; try assumption; try lia.
  cbn [data set_index set_status set_value set_count].
  rewrite (H7 0%nat (Nat.lt_0_1)). exact Hroot.
Qed.

Lemma token_state_reject (p : GstParser) (k : nat) (t : list Z) (c : Z) :
  at_top p k (StToken t) ->
  is_whitespace c = false -> is_closing c = false -> is_symbol_char c = false ->
  token_state p c = Done (p_error p "Expected symbol character.", true).
Proof.
  intros [Hc Hf] Hw Hcl Hs. unfold token_state.
  rewrite (load_top_slot p k _ Hc Hf). cbn [bind].
  replace (is_whitespace c || (c =? ch ")") || (c =? ch "]") || (c =? ch "}"))
    with false.
  2:{ rewrite Hw. cbn [orb]. fold (is_closing c). rewrite Hcl. reflexivity. }
  rewrite Hs. reflexivity.
Qed.

(** An opening delimiter and the items after it, read above a frame that
    takes values: the Form frame is the top of the stack and holds the
    values of the items. *)
Lemma feed_open_form (o : Z) (items : list sexp) (p : GstParser) (k : nat)
  (f : GstParseState) (c : Z) (rest : list Z) (n : nat) :
  is_opening o = true -> forallb well_formed items = true ->
  status p = GST_PARSER_PENDING -> at_top p k f ->
  f = StRoot \/ (exists d a, f = StForm (Some d) a /\ is_closing d = true) ->
  (count p + height (Seq o items) <= cap p)%nat ->
  (cap p <= List.length (data p))%nat -> ends_token c = true ->
  exists p2,
    parse_loop p (o :: items_text items ++ c :: rest) n
    = parse_loop p2 (c :: rest) (S n + List.length (items_text items))
    /\ at_top p2 (S k) (StForm (Some (closer o)) (sentinel o ++ map denote items))
    /\ evolves p p2 (S k) (1 + List.length (items_text items)).
Proof.
  intros Ho Hitems Hs Htop Hkind Hroom Hblock Hc.
  destruct (is_opening_classes o Ho) as [Hocl Ho0].
  destruct (new_frame_opening o Ho) as (Hframe & Hccl & Hc0).
  cbn [height] in Hroom.
  destruct (feed_push p k _ PTYPE_FORM o (items_text items ++ c :: rest) n
              Hs Htop Hkind ltac:(lia) Hblock Hocl Ho0 (root_state_opening p o Ho))
    as (p1 & Hrun1 & Htop1 & Hev1).
  rewrite Hframe in Htop1. rewrite forallb_forall in Hitems.
  destruct (feed_items items
              (fun i Hi => feed_item (height i) i (le_n _) (Hitems i Hi))
              p1 (S k) (closer o) (sentinel o) c rest (S n)
              (evolves_status _ _ _ _ Hev1 Hs) Htop1 Hccl)
    as (p2 & Hrun2 & Htop2 & Hev2).
  { intros i Hi. pose proof (height_items items i Hi).
    destruct Hev1 as (H1 & _). rewrite H1, (proj1 Htop1).
    rewrite (proj1 Htop) in Hroom. lia. }
  { destruct Hev1 as (H1 & H2 & _). lia. }
  { exact Hc. }
  exists p2. split; [|split].
  - rewrite Hrun1. exact Hrun2.
  - exact Htop2.
  - exact (evolves_trans p p1 p2 (S k) (S k) _ _ Hev1 Hev2 (le_n _)).
Qed.

(** X9. A well-formed text that fits into the stack is read back by one
    call on a parser whose top frame is the Root frame, whatever its
    status: the call ends Complete with the value the text stands for; it
    has read the text (and, for a token, the byte that ends it) and nothing
    of what follows; the Root frame is again the top of the stack, the
    block is the one from before and so is the error message: the parser
    is ready for the next text. *)
Theorem text_read_back (v : sexp) (p : GstParser) (rest : list Z) :
  well_formed v = true -> terminated v rest = true -> at_top p 0 StRoot ->
  (count p + height v <= cap p)%nat -> (cap p <= List.length (data p))%nat ->
  exists p',
    gst_parse_cstring p (render v ++ rest) = Done (p', consumed v)
    /\ status p' = GST_PARSER_FULL /\ value p' = denote v
    /\ at_top p' 0 StRoot /\ error p' = error p
    /\ index p' = (index p + consumed v)%nat
    /\ cap p' = cap p /\ List.length (data p') = List.length (data p).
Proof.
  intros Hwf Hterm Htop Hroom Hblock. unfold gst_parse_cstring. cbv zeta.
  set (p0 := set_status p GST_PARSER_PENDING).
  assert (status p0 = GST_PARSER_PENDING) as Hs by reflexivity.
  assert (at_top p0 0 StRoot) as Htop0 by exact Htop.
  assert (nth_error (data p0) 0 = Some (Some StRoot)) as Hslot by exact (proj2 Htop).
  assert (StRoot = StRoot
          \/ exists d a, StRoot = StForm (Some d) a /\ is_closing d = true) as Hkind
      by (left; reflexivity).
  assert (count p0 < cap p0)%nat as Hlt
      by (destruct v; cbn [height] in Hroom; cbn; lia).
  assert (cap p0 <= List.length (data p0))%nat as Hblock0 by exact Hblock.
  destruct v as [t|body|o items].
  - destruct (well_formed_atom t Hwf) as (c & t' & x & -> & Hc & Ht & Hx & Hden).
    destruct (terminated_atom _ _ Hterm) as (e & rest' & -> & He).
    destruct (feed_token_start p0 0 _ c (t' ++ e :: rest') 0 Hs Htop0 Hkind Hlt
                Hblock0 Hc) as (p1 & Hrun1 & Htop1 & Hev1).
    destruct (feed_token_bytes t' p1 1 [c] (e :: rest') 1
                (evolves_status _ _ _ _ Hev1 Hs) Htop1 Ht)
      as (p2 & Hrun2 & Htop2 & Hev2).
    pose proof (evolves_trans p0 p1 p2 1 1 _ _ Hev1 Hev2 (le_n _)) as Hev.
    pose proof (evolves_slot p0 p2 1 _ 0 _ Hev Nat.lt_0_1 Hslot) as Hslot2.
    eexists. split.
    + cbn [render app]. rewrite Hrun1, Hrun2.
      exact (token_end_at_root p2 ([c] ++ t') x e rest' _
               (evolves_status _ _ _ _ Hev Hs) Htop2 Hslot2 Hx He).
    + rewrite Hden. cbn [consumed List.length].
      exact (root_result p p2 _ x Htop Hev).
  - destruct (well_formed_str body Hwf) as (bs & Hdec & Hden).
    destruct (feed_push p0 0 _ PTYPE_STRING 34 (body ++ 34 :: rest) 0 Hs Htop0
                Hkind Hlt Hblock0 eq_refl ltac:(discriminate) (root_state_quote p0))
      as (p1 & Hrun1 & Htop1 & Hev1).
    destruct (feed_string_body (List.length body) body bs p1 1 [] (34 :: rest)
                1 (le_n _) Hdec (evolves_status _ _ _ _ Hev1 Hs) Htop1)
      as (p2 & Hrun2 & Htop2 & Hev2).
    pose proof (evolves_trans p0 p1 p2 1 1 _ _ Hev1 Hev2 (le_n _)) as Hev.
    pose proof (evolves_slot p0 p2 1 _ 0 _ Hev Nat.lt_0_1 Hslot) as Hslot2.
    eexists. split.
    + cbn [render app]. rewrite <- app_assoc. cbn [app]. rewrite Hrun1, Hrun2.
      rewrite (feed_pop_root p2 (quoted bs) 34 rest _
                 (evolves_status _ _ _ _ Hev Hs) Hslot2 ltac:(discriminate)
                 (dispatch_step_quote_close p2 0 _ Htop2)).
      f_equal. f_equal. cbn [consumed render List.length]. rewrite length_app.
      cbn [List.length]. lia.
    + rewrite Hden. cbn [consumed render List.length]. rewrite length_app.
      cbn [List.length].
      replace (S (List.length body + 1)) with (S (1 + List.length body)) by lia.
      exact (root_result p p2 _ _ Htop Hev).
  - pose proof Hwf as Hwf'.
    cbn [well_formed] in Hwf'. apply andb_true_iff in Hwf'.
    destruct Hwf' as [Ho Hitems].
    destruct (new_frame_opening o Ho) as (_ & _ & Hc0).
    destruct (feed_open_form o items p0 0 StRoot (closer o) rest 0 Ho Hitems Hs Htop0
                Hkind Hroom Hblock0 (ends_token_closer o Ho))
      as (p2 & Hrun2 & Htop2 & Hev).
    pose proof (evolves_slot p0 p2 1 _ 0 _ Hev Nat.lt_0_1 Hslot) as Hslot2.
    eexists. split.
    + rewrite render_seq. cbn [app]. rewrite <- app_assoc. cbn [app]. rewrite Hrun2.
      rewrite (feed_pop_root p2 (GstArray (sentinel o ++ map denote items)) (closer o)
                 rest _ (evolves_status _ _ _ _ Hev Hs) Hslot2 Hc0
                 (dispatch_step_form_close p2 0 _ _ Htop2)).
      f_equal. f_equal. cbn [consumed]. rewrite render_seq. cbn [List.length].
      rewrite length_app. cbn [List.length]. lia.
    + cbn [consumed denote]. rewrite render_seq. cbn [List.length].
      rewrite length_app. cbn [List.length].
      replace (S (List.length (items_text items) + 1))
        with (S (1 + List.length (items_text items))) by lia.
      exact (root_result p p2 _ _ Htop Hev).
Qed.

Lemma text_read_back_witness :
  denote (Seq (ch "(")
            [Atom (bytes_of "a");
             Seq (ch "[") [Atom (bytes_of "1.5"); Atom (bytes_of "true")];
             Str (bytes_of "b\n")])
  = GstArray [GstString (bytes_of "a");
              GstArray [GstString (bytes_of "array"); GstNumber 1.5; GstBoolean true];
              GstArray [GstString (bytes_of "quote"); GstString [98; 10]]]
  /\ exists p',
       gst_parse_cstring fresh_parser
         (render (Seq (ch "(")
                    [Atom (bytes_of "a");
                     Seq (ch "[") [Atom (bytes_of "1.5"); Atom (bytes_of "true")];
                     Str (bytes_of "b\n")]) ++ bytes_of "tail")
       = Done (p', consumed
                     (Seq (ch "(")
                        [Atom (bytes_of "a");
                         Seq (ch "[") [Atom (bytes_of "1.5"); Atom (bytes_of "true")];
                         Str (bytes_of "b\n")]))
       /\ status p' = GST_PARSER_FULL
       /\ value p'
          = denote (Seq (ch "(")
                      [Atom (bytes_of "a");
                       Seq (ch "[") [Atom (bytes_of "1.5"); Atom (bytes_of "true")];
                       Str (bytes_of "b\n")])
       /\ at_top p' 0 StRoot /\ error p' = error fresh_parser
       /\ index p'
          = (index fresh_parser
             + consumed
                 (Seq (ch "(")
                    [Atom (bytes_of "a");
                     Seq (ch "[") [Atom (bytes_of "1.5"); Atom (bytes_of "true")];
                     Str (bytes_of "b\n")]))%nat
       /\ cap p' = cap fresh_parser
       /\ List.length (data p') = List.length (data fresh_parser).
Proof.
  split; [vm_compute; reflexivity|].
  apply (text_read_back
           (Seq (ch "(") [Atom (bytes_of "a");
                          Seq (ch "[") [Atom (bytes_of "1.5"); Atom (bytes_of "true")];
                          Str (bytes_of "b\n")])
           fresh_parser (bytes_of "tail")).
  - vm_compute. reflexivity.
  - reflexivity.
  - split; reflexivity.
  - vm_compute. lia.
  - vm_compute. lia.
Defined.

(** ** Errors and unfinished texts *)

Lemma ends_token_closing (c : Z) : is_closing c = true -> ends_token c = true.
Proof.
  intros H. unfold ends_token. rewrite H, orb_true_r, andb_true_r.
  apply is_closing_spec in H. destruct H as [H|[H|H]]; subst c; reflexivity.
Qed.

Lemma ends_token_whitespace (w : Z) :
  is_whitespace w = true -> w <> 0 -> ends_token w = true.
Proof.
  intros H H0. unfold ends_token. rewrite H. apply Z.eqb_neq in H0. rewrite H0.
  reflexivity.
Qed.

(** A byte that leaves the parser in Error ends the call. *)
Lemma feed_error (p : GstParser) (c : Z) (m : string) (rest : list Z) (n : nat) :
  status p = GST_PARSER_PENDING -> c <> 0 ->
  dispatch_step p c = Done (p_error p m, true) ->
  parse_loop p (c :: rest) n = Done (set_index (p_error p m) (S (index p)), S n).
Proof.
  intros Hs H0 Hstep.
  rewrite (parse_loop_step p _ c false rest n Hs H0
             (dispatch_char_consumed p _ c Hs Hstep)).
  apply parse_loop_stopped. discriminate.
Qed.

(** X10. A form that fits into the stack, with well-formed items, met by a
    closing delimiter that is not its own: the call ends in Error with the
    message "Unexpected closing delimiter" at that byte, and the Form frame
    stays on the stack with the values of the items read so far. *)
Theorem wrong_closing_delimiter (o c : Z) (items : list sexp) (p : GstParser)
  (rest : list Z) :
  is_opening o = true -> forallb well_formed items = true ->
  is_closing c = true -> c <> closer o ->
  at_top p 0 StRoot ->
  (count p + height (Seq o items) <= cap p)%nat ->
  (cap p <= List.length (data p))%nat ->
  exists p',
    gst_parse_cstring p (o :: items_text items ++ c :: rest)
    = Done (p', S (S (List.length (items_text items))))
    /\ status p' = GST_PARSER_ERROR
    /\ error p' = Some "Unexpected closing delimiter"%string
    /\ at_top p' 1 (StForm (Some (closer o)) (sentinel o ++ map denote items)).
Proof.
  intros Ho Hitems Hc Hne Htop Hroom Hblock. unfold gst_parse_cstring. cbv zeta.
  set (p0 := set_status p GST_PARSER_PENDING).
  destruct (feed_open_form o items p0 0 StRoot c rest 0 Ho Hitems eq_refl Htop
              (or_introl eq_refl) Hroom Hblock (ends_token_closing c Hc))
    as (p2 & Hrun2 & Htop2 & Hev).
  pose proof (evolves_status _ _ _ _ Hev eq_refl) as Hs2.
  destruct (ends_token_spec c (ends_token_closing c Hc)) as [H0 _].
  eexists. split; [|split; [|split]].
  - rewrite Hrun2.
    apply (feed_error p2 c "Unexpected closing delimiter" rest _ Hs2 H0).
    rewrite (dispatch_step_top p2 1 _ c (proj1 Htop2) (proj2 Htop2)).
    cbn [frame_type].
    rewrite (form_state_other p2 1 _ _ c Htop2 Hne).
    exact (root_state_closing_error p2 c Hc).
  - reflexivity.
  - reflexivity.
  - exact Htop2.
Qed.

Lemma wrong_closing_delimiter_witness :
  exists p',
    gst_parse_cstring fresh_parser
      (ch "(" :: items_text [Atom (bytes_of "a"); Atom (bytes_of "b")]
         ++ ch "]" :: bytes_of " c")
    = Done (p', S (S (List.length
                        (items_text [Atom (bytes_of "a"); Atom (bytes_of "b")]))))
    /\ status p' = GST_PARSER_ERROR
    /\ error p' = Some "Unexpected closing delimiter"%string
    /\ at_top p' 1
         (StForm (Some (closer (ch "(")))
            (sentinel (ch "(")
               ++ map denote [Atom (bytes_of "a"); Atom (bytes_of "b")])).
Proof.
  apply (wrong_closing_delimiter (ch "(") (ch "]")
           [Atom (bytes_of "a"); Atom (bytes_of "b")] fresh_parser (bytes_of " c")).
  - reflexivity.
  - vm_compute. reflexivity.
  - reflexivity.
  - discriminate.
  - split; reflexivity.
  - vm_compute. lia.
  - vm_compute. lia.
Defined.

(** X11. A form left open stays open: after the opening delimiter, the
    items and a whitespace byte the call has read every byte and ends
    Pending, with the Form frame on top of the stack holding the values of
    the items; a later call that starts with the closing delimiter reads
    that one byte and ends Complete with the value of the form. *)
Theorem open_form_stays_pending (o w : Z) (items : list sexp) (p : GstParser)
  (rest : list Z) :
  is_opening o = true -> forallb well_formed items = true ->
  is_whitespace w = true -> w <> 0 ->
  at_top p 0 StRoot ->
  (count p + height (Seq o items) <= cap p)%nat ->
  (cap p <= List.length (data p))%nat ->
  exists p' p'',
    gst_parse_cstring p (o :: items_text items ++ [w])
    = Done (p', S (S (List.length (items_text items))))
    /\ status p' = GST_PARSER_PENDING
    /\ at_top p' 1 (StForm (Some (closer o)) (sentinel o ++ map denote items))
    /\ gst_parse_cstring p' (closer o :: rest) = Done (p'', 1%nat)
    /\ status p'' = GST_PARSER_FULL
    /\ value p'' = denote (Seq o items)
    /\ at_top p'' 0 StRoot.
Proof.
  intros Ho Hitems Hw Hw0 Htop Hroom Hblock.
  set (p0 := set_status p GST_PARSER_PENDING).
  destruct (feed_open_form o items p0 0 StRoot w [] 0 Ho Hitems eq_refl Htop
              (or_introl eq_refl) Hroom Hblock (ends_token_whitespace w Hw Hw0))
    as (p2 & Hrun2 & Htop2 & Hev).
  pose proof (evolves_status _ _ _ _ Hev eq_refl) as Hs2.
  destruct (new_frame_opening o Ho) as (_ & Hccl & Hc0).
  set (p' := set_index p2 (S (index p2))).
  assert (nth_error (data p') 0 = Some (Some StRoot)) as Hslot
      by exact (evolves_slot p0 p2 1 _ 0 _ Hev Nat.lt_0_1 (proj2 Htop)).
  exists p'. eexists. split; [|split; [|split; [|split; [|split; [|split]]]]].
  - unfold gst_parse_cstring. cbv zeta. fold p0. rewrite Hrun2.
    rewrite (feed_whitespace p2 1 _ w [] _ Hs2 Htop2
               (or_intror (ex_intro _ _ (ex_intro _ _ (conj eq_refl Hccl)))) Hw Hw0).
    reflexivity.
  - exact Hs2.
  - exact Htop2.
  - rewrite (gst_parse_cstring_pending p' _ Hs2).
    exact (feed_pop_root p' (GstArray (sentinel o ++ map denote items)) (closer o)
             rest 0 Hs2 Hslot Hc0 (dispatch_step_form_close p' 0 _ _ Htop2)).
  - reflexivity.
  - reflexivity.
  - split; [reflexivity|exact Hslot].
Qed.

Lemma open_form_stays_pending_witness :
  exists p' p'',
    gst_parse_cstring fresh_parser
      (ch "[" :: items_text [Atom (bytes_of "1"); Str (bytes_of "x")] ++ [10])
    = Done (p', S (S (List.length
                        (items_text [Atom (bytes_of "1"); Str (bytes_of "x")]))))
    /\ status p' = GST_PARSER_PENDING
    /\ at_top p' 1
         (StForm (Some (closer (ch "[")))
            (sentinel (ch "[")
               ++ map denote [Atom (bytes_of "1"); Str (bytes_of "x")]))
    /\ gst_parse_cstring p' (closer (ch "[") :: bytes_of " 2") = Done (p'', 1%nat)
    /\ status p'' = GST_PARSER_FULL
    /\ value p'' = denote (Seq (ch "[") [Atom (bytes_of "1"); Str (bytes_of "x")])
    /\ at_top p'' 0 StRoot.
Proof.
  apply (open_form_stays_pending (ch "[") 10
           [Atom (bytes_of "1"); Str (bytes_of "x")] fresh_parser (bytes_of " 2")).
  - reflexivity.
  - vm_compute. reflexivity.
  - reflexivity.
  - discriminate.
  - split; reflexivity.
  - vm_compute. lia.
  - vm_compute. lia.
Defined.

(** X12. In a string literal a backslash followed by a byte that is none of
    n, r, t, f, 0, z, the double quote and the single quote ends the call
    in Error with the message "Unknown string escape sequence."; the bytes
    decoded before it are in the buffer of the String frame, which stays in
    its escape state on top of the stack. The backslash itself is such a
    byte. *)
Theorem unknown_escape_is_error (body bs : list Z) (e : Z) (p : GstParser)
  (rest : list Z) :
  string_decode body = Some bs -> string_escape e = None -> e <> 0 ->
  at_top p 0 StRoot -> (count p < cap p)%nat -> (cap p <= List.length (data p))%nat ->
  string_escape 92 = None
  /\ exists p',
       gst_parse_cstring p (34 :: body ++ 92 :: e :: rest)
       = Done (p', (List.length body + 3)%nat)
       /\ status p' = GST_PARSER_ERROR
       /\ error p' = Some "Unknown string escape sequence."%string
       /\ at_top p' 1 (StString bs STRING_STATE_ESCAPE).
Proof.
  intros Hdec He He0 Htop Hlt Hblock. split; [reflexivity|].
  unfold gst_parse_cstring. cbv zeta.
  set (p0 := set_status p GST_PARSER_PENDING).
  destruct (feed_push p0 0 _ PTYPE_STRING 34 (body ++ 92 :: e :: rest) 0 eq_refl Htop
              (or_introl eq_refl) Hlt Hblock eq_refl ltac:(discriminate)
              (root_state_quote p0))
    as (p1 & Hrun1 & Htop1 & Hev1).
  pose proof (evolves_status _ _ _ _ Hev1 eq_refl) as Hs1.
  destruct (feed_string_body (List.length body) body bs p1 1 [] (92 :: e :: rest)
              1 (le_n _) Hdec Hs1 Htop1)
    as (p2 & Hrun2 & Htop2 & Hev2).
  pose proof (evolves_status _ _ _ _ Hev2 Hs1) as Hs2.
  cbn [app] in Htop2.
  set (q0 := set_data p2 (list_store (data p2) 1
                            (Some (StString bs STRING_STATE_ESCAPE)))).
  set (q := set_index q0 (S (index q0))).
  assert (at_top q 1 (StString bs STRING_STATE_ESCAPE)) as Hq.
  { split; [exact (proj1 Htop2)|]. cbn [data q q0 set_data set_index].
    apply nth_error_list_store_eq.
    exact (nth_error_slot_length _ _ _ _ (proj2 Htop2)). }
  eexists. split; [|split; [|split]].
  - cbn [app]. rewrite Hrun1, Hrun2.
    rewrite (parse_loop_step p2 q 92 false _ _ Hs2 ltac:(discriminate)).
    2:{ apply (dispatch_char_consumed p2 q0 92 Hs2).
        rewrite (dispatch_step_top p2 1 _ 92 (proj1 Htop2) (proj2 Htop2)).
        cbn [frame_type]. exact (string_state_backslash p2 1 bs Htop2). }
    rewrite (feed_error q e "Unknown string escape sequence." rest _ Hs2 He0).
    + f_equal. f_equal. lia.
    + rewrite (dispatch_step_top q 1 _ e (proj1 Hq) (proj2 Hq)). cbn [frame_type].
      rewrite (string_state_escaped q 1 bs e Hq), He. reflexivity.
  - reflexivity.
  - reflexivity.
  - exact Hq.
Qed.

Lemma unknown_escape_is_error_witness :
  string_escape 92 = None
  /\ exists p',
       gst_parse_cstring fresh_parser
         (34 :: bytes_of "a\tb" ++ 92 :: 92 :: bytes_of "c")
       = Done (p', (List.length (bytes_of "a\tb") + 3)%nat)
       /\ status p' = GST_PARSER_ERROR
       /\ error p' = Some "Unknown string escape sequence."%string
       /\ at_top p' 1 (StString [97; 9; 98] STRING_STATE_ESCAPE).
Proof.
  apply (unknown_escape_is_error (bytes_of "a\tb") [97; 9; 98] 92 fresh_parser
           (bytes_of "c")).
  - reflexivity.
  - reflexivity.
  - discriminate.
  - split; reflexivity.
  - vm_compute. lia.
  - vm_compute. lia.
Defined.

(** X13. A token met by a byte that neither ends it nor is a symbol byte
    (an opening delimiter, a quote, a backslash, a semicolon, ...) ends the
    call in Error with the message "Expected symbol character."; the Token
    frame with the bytes read so far stays on top of the stack. *)
Theorem token_rejects_byte (first : Z) (t : list Z) (c : Z) (p : GstParser)
  (rest : list Z) :
  forallb token_byte (first :: t) = true ->
  is_symbol_char c = false -> is_whitespace c = false -> is_closing c = false ->
  at_top p 0 StRoot -> (count p < cap p)%nat -> (cap p <= List.length (data p))%nat ->
  exists p',
    gst_parse_cstring p (first :: t ++ c :: rest) = Done (p', S (S (List.length t)))
    /\ status p' = GST_PARSER_ERROR
    /\ error p' = Some "Expected symbol character."%string
    /\ at_top p' 1 (StToken (first :: t)).
Proof.
  intros Ht Hsym Hw Hcl Htop Hlt Hblock. unfold gst_parse_cstring. cbv zeta.
  set (p0 := set_status p GST_PARSER_PENDING).
  cbn [forallb] in Ht. apply andb_true_iff in Ht. destruct Ht as [Hfirst Ht].
  assert (c <> 0) as H0 by (intros ->; discriminate Hw).
  destruct (feed_token_start p0 0 _ first (t ++ c :: rest) 0 eq_refl Htop
              (or_introl eq_refl) Hlt Hblock Hfirst)
    as (p1 & Hrun1 & Htop1 & Hev1).
  pose proof (evolves_status _ _ _ _ Hev1 eq_refl) as Hs1.
  destruct (feed_token_bytes t p1 1 [first] (c :: rest) 1 Hs1 Htop1 Ht)
    as (p2 & Hrun2 & Htop2 & Hev2).
  pose proof (evolves_status _ _ _ _ Hev2 Hs1) as Hs2.
  eexists. split; [|split; [|split]].
  - rewrite Hrun1, Hrun2.
    rewrite (feed_error p2 c "Expected symbol character." rest _ Hs2 H0).
    + reflexivity.
    + rewrite (dispatch_step_top p2 1 _ c (proj1 Htop2) (proj2 Htop2)).
      cbn [frame_type]. exact (token_state_reject p2 1 _ c Htop2 Hw Hcl Hsym).
  - reflexivity.
  - reflexivity.
  - exact Htop2.
Qed.

Lemma token_rejects_byte_witness :
  exists p',
    gst_parse_cstring fresh_parser (ch "a" :: bytes_of "b" ++ ch "(" :: bytes_of "c)")
    = Done (p', S (S (List.length (bytes_of "b"))))
    /\ status p' = GST_PARSER_ERROR
    /\ error p' = Some "Expected symbol character."%string
    /\ at_top p' 1 (StToken (ch "a" :: bytes_of "b")).
Proof.
  apply (token_rejects_byte (ch "a") (bytes_of "b") (ch "(") fresh_parser
           (bytes_of "c)")).
  - reflexivity.
  - reflexivity.
  - reflexivity.
  - reflexivity.
  - split; reflexivity.
  - vm_compute. lia.
  - vm_compute. lia.
Defined.

Lemma skip_whitespace (ws : list Z) (k : nat) (f : GstParseState) (rest : list Z) :
  forallb is_whitespace ws = true -> nul_free ws = true ->
  f = StRoot \/ (exists d a, f = StForm (Some d) a /\ is_closing d = true) ->
  forall p n,
    status p = GST_PARSER_PENDING -> at_top p k f ->
    parse_loop p (ws ++ rest) n
    = parse_loop (set_index p (index p + List.length ws)) rest (n + List.length ws).
Proof.
  intros Hws Hnul Hkind. induction ws as [|w ws IH]; intros p n Hs Htop.
  - cbn [app List.length]. rewrite !Nat.add_0_r. destruct p; reflexivity.
  - cbn [forallb nul_free] in Hws, Hnul.
    apply andb_true_iff in Hws, Hnul. destruct Hws as [Hw Hws].
    destruct Hnul as [Hw0 Hnul].
    assert (w <> 0) as H0
        by (apply Z.eqb_neq; destruct (w =? 0); [discriminate|reflexivity]).
    cbn [app]. rewrite (feed_whitespace p k f w _ n Hs Htop Hkind Hw H0).
    rewrite (IH Hws Hnul (set_index p (S (index p))) (S n) Hs Htop).
    cbn [List.length].
    replace (set_index (set_index p (S (index p)))
               (index (set_index p (S (index p))) + List.length ws))
      with (set_index p (index p + S (List.length ws)))
      by (destruct p; unfold set_index; cbn [index]; f_equal; lia).
    f_equal. lia.
Qed.

(** X14. Whitespace is skipped where a value may start, on the Root frame
    and in a form: a call on whitespace bytes (the comma is one of them)
    followed by [rest] is the call on [rest], but for the bytes counted. *)
Theorem leading_whitespace_skipped (ws : list Z) (p : GstParser) (k : nat)
  (f : GstParseState) (rest : list Z) :
  forallb is_whitespace ws = true -> nul_free ws = true ->
  at_top p k f ->
  f = StRoot \/ (exists d a, f = StForm (Some d) a /\ is_closing d = true) ->
  is_whitespace (ch ",") = true
  /\ gst_parse_cstring p (ws ++ rest)
     = ('(p', n) <- gst_parse_cstring (set_index p (index p + List.length ws)) rest ;;
        Done (p', (List.length ws + n)%nat)).
Proof.
  intros Hws Hnul Htop Hkind. split; [reflexivity|].
  unfold gst_parse_cstring. cbv zeta.
  rewrite (skip_whitespace ws k f rest Hws Hnul Hkind
             (set_status p GST_PARSER_PENDING) 0 eq_refl Htop).
  cbn [Nat.add]. rewrite parse_loop_count. reflexivity.
Qed.

Lemma leading_whitespace_skipped_witness :
  is_whitespace (ch ",") = true
  /\ gst_parse_cstring fresh_parser (bytes_of " , ," ++ bytes_of "(a)")
     = ('(p', n) <- gst_parse_cstring
                      (set_index fresh_parser
                         (index fresh_parser + List.length (bytes_of " , ,")))
                      (bytes_of "(a)") ;;
        Done (p', (List.length (bytes_of " , ,") + n)%nat)).
Proof.
  apply (leading_whitespace_skipped (bytes_of " , ,") fresh_parser 0 StRoot
           (bytes_of "(a)")).
  - reflexivity.
  - reflexivity.
  - split; reflexivity.
  - left. reflexivity.
Defined.

(** X15. Where a value may start, a byte that is no whitespace, no
    delimiter, no double quote and no symbol byte (a single quote, a
    semicolon, a backslash, ...) ends the call in Error with the message
    "Unexpected character." and leaves the stack as it is. *)
Theorem stray_byte_is_error (c : Z) (p : GstParser) (k : nat) (f : GstParseState)
  (rest : list Z) :
  is_whitespace c = false -> is_closing c = false -> is_opening c = false ->
  c <> 34 -> is_symbol_char c = false ->
  at_top p k f ->
  f = StRoot \/ (exists d a, f = StForm (Some d) a /\ is_closing d = true) ->
  gst_parse_cstring p (c :: rest)
  = Done (set_index (p_error (set_status p GST_PARSER_PENDING) "Unexpected character.")
            (S (index p)), 1%nat).
Proof.
  intros Hw Hcl Ho Hq Hsym Htop Hkind. unfold gst_parse_cstring. cbv zeta.
  assert (c <> 0) as H0 by (intros ->; discriminate Hw).
  apply (feed_error (set_status p GST_PARSER_PENDING) c "Unexpected character." rest 0
           eq_refl H0).
  rewrite (dispatch_step_container (set_status p GST_PARSER_PENDING) k f c Htop Hkind
             Hcl).
  unfold root_state. rewrite closing_tests. fold (is_opening c).
  apply Z.eqb_neq in Hq. rewrite Hcl, Ho, Hq, Hw, Hsym. reflexivity.
Qed.

Lemma stray_byte_is_error_witness :
  gst_parse_cstring fresh_parser (ch ";" :: bytes_of " a")
  = Done (set_index
            (p_error (set_status fresh_parser GST_PARSER_PENDING)
               "Unexpected character.") (S (index fresh_parser)), 1%nat).
Proof.
  apply (stray_byte_is_error (ch ";") fresh_parser 0 StRoot (bytes_of " a")).
  - reflexivity.
  - reflexivity.
  - reflexivity.
  - discriminate.
  - reflexivity.
  - split; reflexivity.
  - left. reflexivity.
Defined.

(** ** No undefined behaviour below the capacity of the stack *)

Lemma sound_top (p : GstParser) :
  sound_stack p ->
  exists k f, at_top p k f /\ frame_ok f = true
              /\ (k = 0%nat -> f = StRoot) /\ ((1 <= k)%nat -> frame_type f <> PTYPE_ROOT).
Proof.
  intros [(Hc & Hb & H0 & Hi) Hf].
  destruct (count p) as [|k] eqn:Hk; [lia|]. exists k.
  destruct k as [|k].
  - exists StRoot. split; [split; [exact Hk|exact H0]|].
    split; [reflexivity|]. split; [reflexivity|]. intros H. lia.
  - destruct (Hi (S k) ltac:(lia)) as (f & Hslot & Htype). exists f.
    split; [split; [exact Hk|exact Hslot]|].
    split; [exact (Hf (S k) f ltac:(lia) Hslot)|].
    split; [discriminate|]. intros _. exact Htype.
Qed.

Lemma sound_same (p q : GstParser) :
  data q = data p -> count q = count p -> cap q = cap p ->
  sound_stack p -> sound_stack q.
Proof.
  intros Hd Hc Hcap [Hok Hf]. split.
  - exact (stack_ok_same_stack p q Hd Hc Hcap Hok).
  - rewrite Hd, Hc. exact Hf.
Qed.

Lemma sound_store (p : GstParser) (k : nat) (g : GstParseState) :
  sound_stack p -> (1 <= k < count p)%nat ->
  frame_ok g = true -> frame_type g <> PTYPE_ROOT ->
  sound_stack (set_data p (list_store (data p) k (Some g))).
Proof.
  intros [Hok Hf] Hk Hg Htype.
  assert (k < List.length (data p))%nat as Hlen
      by (destruct Hok as (Hc & Hb & _); lia).
  split.
  - apply (stack_ok_store p _ k g Hok (proj1 Hk) Htype).
    unfold store. apply Nat.ltb_lt in Hlen. rewrite Hlen. reflexivity.
  - cbn [data count set_data]. intros i f Hi Hslot.
    destruct (Nat.eq_dec k i) as [<-|Hne].
    + rewrite (nth_error_list_store_eq _ _ _ _ Hlen) in Hslot.
      injection Hslot as <-. exact Hg.
    + rewrite nth_error_list_store_neq in Hslot by exact Hne.
      exact (Hf i f Hi Hslot).
Qed.

Lemma sound_pop (p : GstParser) (k : nat) :
  sound_stack p -> count p = S k -> (1 <= k)%nat -> sound_stack (set_count p k).
Proof.
  intros [Hok Hf] Hc Hk. split.
  - exact (stack_ok_pop p k Hok Hc Hk).
  - cbn [data count set_count]. intros i f Hi. apply Hf. lia.
Qed.

Lemma sound_push (p : GstParser) (g : GstParseState) :
  sound_stack p -> (count p < cap p)%nat ->
  frame_ok g = true -> frame_type g <> PTYPE_ROOT ->
  sound_stack (set_data (set_count p (S (count p)))
                 (list_store (data p) (count p) (Some g))).
Proof.
  intros [(Hc & Hb & H0 & Hi) Hf] Hroom Hg Htype.
  assert (count p < List.length (data p))%nat as Hlen by lia.
  split.
  - unfold stack_ok. cbn [data count cap set_data set_count].
    rewrite length_list_store. repeat split; try lia.
    + rewrite nth_error_list_store_neq by lia. exact H0.
    + intros i Hr. destruct (Nat.eq_dec (count p) i) as [<-|Hne].
      * exists g. split; [|exact Htype]. apply nth_error_list_store_eq. exact Hlen.
      * rewrite nth_error_list_store_neq by exact Hne. apply Hi. lia.
  - cbn [data count set_data set_count]. intros i f Hi' Hslot.
    destruct (Nat.eq_dec (count p) i) as [<-|Hne].
    + rewrite (nth_error_list_store_eq _ _ _ _ Hlen) in Hslot.
      injection Hslot as <-. exact Hg.
    + rewrite nth_error_list_store_neq in Hslot by exact Hne.
      apply (Hf i f); [lia|exact Hslot].
Qed.

(** parser_append on a sound stack returns; a parser it leaves Pending has
    a Form frame on top. *)
Lemma sound_append (p : GstParser) (x : GstValue) :
  sound_stack p ->
  exists q, parser_append p x = Done q /\ sound_stack q /\ count q = count p
            /\ cap q = cap p
            /\ (status q = GST_PARSER_PENDING ->
                exists k d a, at_top q k (StForm (Some d) a)).
Proof.
  intros Hs. destruct (sound_top p Hs) as (k & f & Htop & Hf & Hk0 & Hk1).
  rewrite (parser_append_slot p k f x (proj1 Htop) (proj2 Htop)).
  destruct f as [|[d|] a|buf st|buf]; try discriminate Hf.
  - eexists. split; [reflexivity|]. split; [|split; [reflexivity|]].
    + apply (sound_same p); [reflexivity|reflexivity|reflexivity|exact Hs].
    + split; [reflexivity|]. cbn. discriminate.
  - assert (1 <= k)%nat as Hk by (destruct k; [discriminate (Hk0 eq_refl)|lia]).
    eexists. split; [reflexivity|]. split; [|split; [reflexivity|]].
    + apply (sound_store p k _ Hs); [rewrite (proj1 Htop); lia|exact Hf|discriminate].
    + split; [reflexivity|]. intros _. exists k, d, (a ++ [x]).
      split; [exact (proj1 Htop)|]. cbn [data set_data].
      apply nth_error_list_store_eq.
      exact (nth_error_slot_length _ _ _ _ (proj2 Htop)).
  - eexists. split; [reflexivity|]. split; [|split; [reflexivity|]].
    + apply (sound_same p); [reflexivity|reflexivity|reflexivity|exact Hs].
    + split; [reflexivity|]. cbn. discriminate.
  - eexists. split; [reflexivity|]. split; [|split; [reflexivity|]].
    + apply (sound_same p); [reflexivity|reflexivity|reflexivity|exact Hs].
    + split; [reflexivity|]. cbn. discriminate.
Qed.

(** The top frame popped and a value appended to the frame below. *)
Lemma sound_pop_append (p : GstParser) (k : nat) (f : GstParseState) (x : GstValue) :
  sound_stack p -> at_top p k f -> frame_type f <> PTYPE_ROOT ->
  exists q, parser_append (set_count p k) x = Done q /\ sound_stack q
            /\ (count q < count p)%nat /\ cap q = cap p
            /\ (status q = GST_PARSER_PENDING ->
                exists j d a, at_top q j (StForm (Some d) a)).
Proof.
  intros Hs Htop Htype.
  assert (1 <= k)%nat as Hk
      by exact (stack_ok_slot_pos p k f (proj1 Hs) (proj2 Htop) Htype).
  destruct (sound_append (set_count p k) x (sound_pop p k Hs (proj1 Htop) Hk))
    as (q & Happ & Hq & Hc & Hcap & Hform).
  exists q. split; [exact Happ|]. split; [exact Hq|].
  split; [rewrite Hc, (proj1 Htop); cbn; lia|]. split; [exact Hcap|exact Hform].
Qed.

Lemma list_store_twice (A : Type) (l : list A) (i : nat) (x y : A) :
  list_store (list_store l i x) i y = list_store l i y.
Proof.
  revert i. induction l as [|z l IH]; intros [|i]; cbn; try reflexivity.
  rewrite IH. reflexivity.
Qed.

(** root_state on a sound stack, with room for a frame unless the byte is
    a closing delimiter: it is done in one step, or it has pushed a Token
    frame for a byte of a token. *)
Lemma root_state_sound (p : GstParser) (c : Z) :
  sound_stack p -> (count p < cap p)%nat \/ is_closing c = true ->
  (exists q, root_state p c = Done (q, true) /\ sound_stack q)
  \/ (token_byte c = true /\ (count p < cap p)%nat
      /\ root_state p c
         = Done (set_data (set_count p (S (count p)))
                   (list_store (data p) (count p) (Some (StToken []))), false)).
Proof.
  intros Hs Hcase.
  assert (cap p <= List.length (data p))%nat as Hblock
      by (destruct Hs as [(_ & Hb & _) _]; exact Hb).
  destruct (is_closing c) eqn:Hcl.
  { left. eexists. split; [exact (root_state_closing_error p c Hcl)|].
    apply (sound_same p); [reflexivity|reflexivity|reflexivity|exact Hs]. }
  destruct Hcase as [Hroom|Hcontra]; [|discriminate].
  destruct (is_opening c) eqn:Ho.
  { left. rewrite (root_state_opening p c Ho).
    rewrite (parser_push_below_capacity p PTYPE_FORM c Hroom Hblock).
    eexists. split; [reflexivity|].
    destruct (new_frame_opening c Ho) as (Hframe & Hccl & _).
    apply (sound_push p _ Hs Hroom); rewrite Hframe; [exact Hccl|discriminate]. }
  destruct (c =? 34) eqn:Hq.
  { left. apply Z.eqb_eq in Hq. subst c. rewrite (root_state_quote p).
    rewrite (parser_push_below_capacity p PTYPE_STRING 34 Hroom Hblock).
    eexists. split; [reflexivity|].
    apply (sound_push p _ Hs Hroom); [reflexivity|discriminate]. }
  destruct (is_whitespace c) eqn:Hw.
  { left. eexists. split; [exact (root_state_whitespace p c Hw)|exact Hs]. }
  destruct (is_symbol_char c) eqn:Hsym.
  { right. assert (token_byte c = true) as Ht
        by (unfold token_byte; rewrite Hsym, Hw; reflexivity).
    split; [exact Ht|]. split; [exact Hroom|].
    rewrite (root_state_token p c Ht).
    rewrite (parser_push_below_capacity p PTYPE_TOKEN c Hroom Hblock). reflexivity. }
  left. eexists. split.
  - unfold root_state. rewrite closing_tests. fold (is_opening c).
    rewrite Hcl, Ho, Hq, Hw, Hsym. reflexivity.
  - apply (sound_same p); [reflexivity|reflexivity|reflexivity|exact Hs].
Qed.

(** After root_state has pushed the Token frame, the second round of the
    loop puts the byte into it. *)
Lemma token_pushed_sound (p : GstParser) (c : Z) :
  sound_stack p -> (count p < cap p)%nat -> token_byte c = true ->
  exists r,
    dispatch_step (set_data (set_count p (S (count p)))
                     (list_store (data p) (count p) (Some (StToken [])))) c
    = Done (r, true)
    /\ sound_stack r.
Proof.
  intros Hs Hroom Ht.
  assert (count p < List.length (data p))%nat as Hlen
      by (destruct Hs as [(_ & Hb & _) _]; lia).
  set (q := set_data (set_count p (S (count p)))
              (list_store (data p) (count p) (Some (StToken [])))).
  assert (at_top q (count p) (StToken [])) as Hq.
  { split; [reflexivity|]. cbn [data q set_data set_count].
    apply nth_error_list_store_eq. exact Hlen. }
  eexists. split.
  - rewrite (dispatch_step_top q _ _ c (proj1 Hq) (proj2 Hq)). cbn [frame_type].
    exact (token_state_byte q _ [] c Hq Ht).
  - cbn [q data set_data set_count app]. rewrite list_store_twice.
    apply (sound_push p (StToken [c]) Hs Hroom); [reflexivity|discriminate].
Qed.

Ltac sound_unchanged Hs :=
  apply (sound_same _ _ eq_refl eq_refl eq_refl Hs).

(** One round of the loop on a sound stack whose top frame is a Root, Form
    or String frame: the byte is dealt with, or a Token frame has been
    pushed for it. *)
Lemma dispatch_step_settled (p : GstParser) (c : Z) :
  sound_stack p -> (count p < cap p)%nat \/ is_closing c = true ->
  (forall k buf, ~ at_top p k (StToken buf)) ->
  (exists q, dispatch_step p c = Done (q, true) /\ sound_stack q)
  \/ (token_byte c = true /\ (count p < cap p)%nat
      /\ dispatch_step p c
         = Done (set_data (set_count p (S (count p)))
                   (list_store (data p) (count p) (Some (StToken []))), false)).
Proof.
  intros Hs Hcase Hnotoken.
  destruct (sound_top p Hs) as (k & f & Htop & Hf & Hk0 & Hk1).
  rewrite (dispatch_step_top p k f c (proj1 Htop) (proj2 Htop)).
  destruct f as [|[d|] a|buf st|buf]; try discriminate Hf; cbn [frame_type].
  - exact (root_state_sound p c Hs Hcase).
  - destruct (Z.eq_dec c d) as [->|Hne].
    + left. rewrite (form_state_close p k d a Htop).
      destruct (sound_pop_append p k _ (GstArray a) Hs Htop ltac:(discriminate))
        as (q & -> & Hq & _).
      exists q. split; [reflexivity|exact Hq].
    + rewrite (form_state_other p k d a c Htop Hne).
      exact (root_state_sound p c Hs Hcase).
  - left.
    assert (1 <= k < count p)%nat as Hk.
    { rewrite (proj1 Htop). destruct k; [discriminate (Hk0 eq_refl)|lia]. }
    destruct st.
    + destruct (Z.eq_dec c 92) as [->|H92].
      { rewrite (string_state_backslash p k buf Htop). eexists.
        split; [reflexivity|].
        apply (sound_store p k _ Hs Hk); [reflexivity|discriminate]. }
      destruct (Z.eq_dec c 34) as [->|H34].
      { rewrite (string_state_close p k buf (proj1 Htop) (proj2 Htop)).
        destruct (sound_pop_append p k _ (quoted buf) Hs Htop ltac:(discriminate))
          as (q & -> & Hq & _).
        exists q. split; [reflexivity|exact Hq]. }
      rewrite (string_state_plain p k buf c Htop H92 H34). eexists.
      split; [reflexivity|].
      apply (sound_store p k _ Hs Hk); [reflexivity|discriminate].
    + rewrite (string_state_escaped p k buf c Htop).
      destruct (string_escape c) as [x|].
      * eexists. split; [reflexivity|].
        apply (sound_store p k _ Hs Hk); [reflexivity|discriminate].
      * eexists. split; [reflexivity|]. sound_unchanged Hs.
    + exists p. split; [|exact Hs]. unfold string_state.
      rewrite (load_top_slot p k _ (proj1 Htop) (proj2 Htop)). reflexivity.
    + exists p. split; [|exact Hs]. unfold string_state.
      rewrite (load_top_slot p k _ (proj1 Htop) (proj2 Htop)). reflexivity.
  - exfalso. exact (Hnotoken k buf Htop).
Qed.

(** Such a byte is dealt with in at most two rounds of the loop. *)
Lemma dispatch_loop_settled (p : GstParser) (c : Z) (fuel : nat) :
  sound_stack p -> status p = GST_PARSER_PENDING ->
  (count p < cap p)%nat \/ is_closing c = true ->
  (forall k buf, ~ at_top p k (StToken buf)) ->
  exists r, dispatch_loop (S (S fuel)) p c false = Done (r, true) /\ sound_stack r.
Proof.
  intros Hs Hpend Hcase Hnotoken.
  rewrite (dispatch_loop_S (S fuel) p c Hpend).
  destruct (dispatch_step_settled p c Hs Hcase Hnotoken)
    as [(q & -> & Hq)|(Ht & Hroom & ->)]; cbn [bind].
  - rewrite dispatch_loop_done. exists q. split; [reflexivity|exact Hq].
  - destruct (token_pushed_sound p c Hs Hroom Ht) as (r & Hstep & Hr).
    rewrite (dispatch_loop_S fuel
               (set_data (set_count p (S (count p)))
                  (list_store (data p) (count p) (Some (StToken [])))) c Hpend).
    rewrite Hstep. cbn [bind].
    rewrite dispatch_loop_done. exists r. split; [reflexivity|exact Hr].
Qed.

Lemma build_token_defined (p : GstParser) (buf : list Z) :
  buf <> [] ->
  match build_token p buf with
  | Done (q, _) => data q = data p /\ count q = count p /\ cap q = cap p
  | Undef => read_number buf false = Undef
  | OutOfFuel => False
  end.
Proof.
  intros Hne. unfold build_token.
  destruct (read_number buf false) as [[number|]| |] eqn:E; cbn [bind].
  - repeat split.
  - destruct (check_str_const _ buf); [repeat split|].
    destruct (check_str_const _ buf); [repeat split|].
    destruct (check_str_const _ buf); [repeat split|].
    destruct buf as [|first rest]; [contradiction|].
    destruct (_ && _); repeat split.
  - reflexivity.
  - exact (read_number_fuel _ _ E).
Qed.

(** A byte met by a Token frame on top of a sound stack: the loop returns
    with a sound stack, unless the byte ends the token and the text of the
    token has no defined value. *)
Lemma dispatch_loop_token (p : GstParser) (c : Z) (k : nat) (buf : list Z) :
  sound_stack p -> status p = GST_PARSER_PENDING -> at_top p k (StToken buf) ->
  match dispatch_loop 3 p c false with
  | Done (r, _) => sound_stack r
  | Undef => read_number buf false = Undef
  | OutOfFuel => False
  end.
Proof.
  intros Hs Hpend Htop.
  assert (1 <= k)%nat as Hk
      by exact (stack_ok_slot_pos p k _ (proj1 Hs) (proj2 Htop) ltac:(discriminate)).
  assert (buf <> []) as Hne.
  { intros ->. pose proof (proj2 Hs k _ ltac:(rewrite (proj1 Htop); lia) (proj2 Htop)).
    discriminate. }
  rewrite (dispatch_loop_S 2 p c Hpend).
  rewrite (dispatch_step_top p k _ c (proj1 Htop) (proj2 Htop)). cbn [frame_type].
  destruct (is_whitespace c || is_closing c) eqn:Hend.
  - rewrite (token_state_end p k buf c (proj1 Htop) (proj2 Htop) Hend).
    pose proof (build_token_defined (set_count p k) buf Hne) as Hbuild.
    destruct (build_token (set_count p k) buf) as [[q1 x]| |]; cbn [bind];
      [|exact Hbuild|exact Hbuild].
    destruct Hbuild as (Hd & Hc & Hcap).
    pose proof (sound_same (set_count p k) q1 Hd Hc Hcap
                  (sound_pop p k Hs (proj1 Htop) Hk)) as Hq1.
    destruct (sound_append q1 x Hq1) as (q2 & -> & Hq2 & Hc2 & Hcap2 & Hform).
    cbn [bind]. destruct (is_closing c) eqn:Hcl; cbn [negb].
    + destruct (status_eqb (status q2) GST_PARSER_PENDING) eqn:Hst.
      * apply status_eqb_eq in Hst. destruct (Hform Hst) as (j & d & a & Hj).
        destruct (dispatch_loop_settled q2 c 0 Hq2 Hst (or_intror Hcl))
          as (r & -> & Hr); [|exact Hr].
        intros j' buf' [Hc' Hf']. destruct Hj as [Hcj Hfj].
        rewrite Hcj in Hc'. injection Hc' as <-. rewrite Hfj in Hf'. discriminate.
      * rewrite dispatch_loop_stopped; [exact Hq2|].
        intros H. apply status_eqb_eq in H. congruence.
    + rewrite dispatch_loop_done. exact Hq2.
  - assert (1 <= k < count p)%nat as Hkc by (rewrite (proj1 Htop); lia).
    apply orb_false_iff in Hend. destruct Hend as [Hw Hcl].
    destruct (is_symbol_char c) eqn:Hsym.
    + rewrite (token_state_byte p k buf c Htop
                 ltac:(unfold token_byte; rewrite Hsym, Hw; reflexivity)).
      cbn [bind]. rewrite dispatch_loop_done.
      apply (sound_store p k _ Hs Hkc); [|discriminate].
      destruct buf; reflexivity.
    + rewrite (token_state_reject p k buf c Htop Hw Hcl Hsym). cbn [bind].
      rewrite dispatch_loop_done. sound_unchanged Hs.
Qed.

Lemma sound_fresh_parser : sound_stack fresh_parser.
Proof.
  split; [exact stack_ok_fresh_parser|].
  intros i f Hi Hslot. cbn in Hi. assert (i = 0%nat) as -> by lia.
  cbn in Hslot. injection Hslot as <-. reflexivity.
Qed.

(** X16. Below the capacity of the stack the reader runs into no undefined
    behaviour of its own: from a stack that is sound (the Root frame at the
    bottom only, every Form frame with its closing delimiter, every Token
    frame with at least one byte) and has room for one more frame,
    dispatch_char returns on every byte, with a stack that is sound again;
    it reads no slot it has not written, pops no empty stack and takes no
    frame for one of another kind. The one exception is a token whose text
    read_number has no defined value for (an exponent outside int). *)
Theorem dispatch_char_defined (p : GstParser) (c : Z) :
  sound_stack p -> (count p < cap p)%nat ->
  match dispatch_char p c with
  | Done (p', _) => sound_stack p'
  | Undef => undefined_token p
  | OutOfFuel => False
  end.
Proof.
  intros Hs Hroom. unfold dispatch_char.
  destruct (status_eqb (status p) GST_PARSER_PENDING) eqn:Hst.
  - apply status_eqb_eq in Hst.
    destruct (sound_top p Hs) as (k & f & Htop & _).
    assert ((exists buf, f = StToken buf) \/ forall j buf, ~ at_top p j (StToken buf))
      as [[buf ->]|Hnotoken].
    { destruct f as [| | |buf]; [right|right|right|left; exists buf; reflexivity];
        intros j buf [Hc Hf]; destruct Htop as [Hck Hfk];
        rewrite Hck in Hc; injection Hc as <-; rewrite Hfk in Hf; discriminate. }
    + pose proof (dispatch_loop_token p c k buf Hs Hst Htop) as H.
      destruct (dispatch_loop 3 p c false) as [[r done]| |]; cbn [bind].
      * sound_unchanged H.
      * exists k, buf. split; [exact Htop|exact H].
      * exact H.
    + destruct (dispatch_loop_settled p c 1 Hs Hst (or_introl Hroom) Hnotoken)
        as (r & -> & Hr).
      cbn [bind]. sound_unchanged Hr.
  - rewrite dispatch_loop_stopped
      by (intros H; apply status_eqb_eq in H; congruence).
    cbn [bind]. sound_unchanged Hs.
Qed.

Lemma dispatch_char_defined_witness :
  match dispatch_char fresh_parser (ch "(") with
  | Done (p', _) => sound_stack p'
  | Undef => undefined_token fresh_parser
  | OutOfFuel => False
  end.
Proof.
  apply (dispatch_char_defined fresh_parser (ch "(")).
  - exact sound_fresh_parser.
  - vm_compute. lia.
Defined.

(** ** Token classification and the digit error *)

Lemma digit_token_byte (c : Z) : is_digit c = true -> token_byte c = true.
Proof.
  intros H. apply is_digit_range in H. apply token_byte_spec. lia.
Qed.

(** The byte that ends a token above the Root frame, when the token starts
    with a digit and is no number: the error build_token has recorded is
    followed by the append of nil, which makes the parser Complete. *)
Lemma digit_token_end_at_root (p : GstParser) (first : Z) (t : list Z) (c : Z)
  (rest : list Z) (n : nat) :
  status p = GST_PARSER_PENDING -> at_top p 1 (StToken (first :: t)) ->
  nth_error (data p) 0 = Some (Some StRoot) ->
  is_digit first = true -> read_number (first :: t) false = Done None ->
  ends_token c = true ->
  parse_loop p (c :: rest) n
  = Done (set_index
            (set_status
               (set_value
                  (set_status
                     (set_error (set_count p 1)
                        (Some "Symbols cannot start with digits."%string))
                     GST_PARSER_ERROR) GstNil) GST_PARSER_FULL)
            (S (index p)), S n).
Proof.
  intros Hs Htop Hslot Hd Hn Hc. destruct (ends_token_spec c Hc) as [H0 Hend].
  rewrite (parse_loop_step p
             (set_index
                (set_status
                   (set_value
                      (set_status
                         (set_error (set_count p 1)
                            (Some "Symbols cannot start with digits."%string))
                         GST_PARSER_ERROR) GstNil) GST_PARSER_FULL)
                (S (index p))) c (is_closing c) rest n Hs H0).
  - apply parse_loop_stopped. discriminate.
  - unfold dispatch_char. rewrite (dispatch_loop_S 2 p c Hs).
    rewrite (dispatch_step_top p 1 _ c (proj1 Htop) (proj2 Htop)). cbn [frame_type].
    rewrite (token_state_end p 1 _ c (proj1 Htop) (proj2 Htop) Hend).
    rewrite (build_token_digit_error (set_count p 1) first t Hd Hn). cbn [bind].
    rewrite (parser_append_slot
               (p_error (set_count p 1) "Symbols cannot start with digits.")
               0 StRoot GstNil eq_refl Hslot).
    cbn [bind]. rewrite dispatch_loop_stopped by discriminate.
    cbn [bind]. rewrite negb_involutive. reflexivity.
Qed.

Lemma digit_token_at_root (p : GstParser) (first : Z) (t : list Z) (c : Z)
  (rest : list Z) :
  is_digit first = true -> forallb token_byte t = true ->
  read_number (first :: t) false = Done None -> ends_token c = true ->
  at_top p 0 StRoot -> (count p < cap p)%nat -> (cap p <= List.length (data p))%nat ->
  exists p',
    gst_parse_cstring p (first :: t ++ c :: rest) = Done (p', S (S (List.length t)))
    /\ status p' = GST_PARSER_FULL /\ value p' = GstNil
    /\ error p' = Some "Symbols cannot start with digits."%string
    /\ at_top p' 0 StRoot.
Proof.
  intros Hd Ht Hn Hc Htop Hroom Hblock. unfold gst_parse_cstring. cbv zeta.
  set (p0 := set_status p GST_PARSER_PENDING).
  assert (nth_error (data p0) 0 = Some (Some StRoot)) as Hslot by exact (proj2 Htop).
  destruct (feed_token_start p0 0 _ first (t ++ c :: rest) 0 eq_refl Htop
              (or_introl eq_refl) Hroom Hblock (digit_token_byte first Hd))
    as (p1 & Hrun1 & Htop1 & Hev1).
  pose proof (evolves_status _ _ _ _ Hev1 eq_refl) as Hs1.
  destruct (feed_token_bytes t p1 1 [first] (c :: rest) 1 Hs1 Htop1 Ht)
    as (p2 & Hrun2 & Htop2 & Hev2).
  pose proof (evolves_status _ _ _ _ Hev2 Hs1) as Hs2.
  pose proof (evolves_trans p0 p1 p2 1 1 _ _ Hev1 Hev2 (le_n _)) as Hev.
  pose proof (evolves_slot p0 p2 1 _ 0 _ Hev Nat.lt_0_1 Hslot) as Hslot2.
  eexists. split; [|split; [|split; [|split]]].
  - rewrite Hrun1, Hrun2.
    exact (digit_token_end_at_root p2 first t c rest _ Hs2 Htop2 Hslot2 Hd Hn Hc).
  - reflexivity.
  - reflexivity.
  - reflexivity.
  - split; [reflexivity|exact Hslot2].
Qed.

(** C5. build_token classifies the bytes of a finished token in this
    order: a Number when read_number accepts them; else Nil for exactly
    "nil", Boolean false for exactly "false", Boolean true for exactly
    "true"; else, when the first byte is an ASCII digit, it sets the status
    to Error, stores the message "Symbols cannot start with digits." and
    hands back nil; else a String holding the raw bytes. So "truex" is the
    String "truex" and for "1abc" build_token records the digit error. But
    the parser does not end in Error for every such token: token_state
    appends the nil all the same, and above the Root frame parser_append
    then sets the status to Complete. Every token that starts with a digit
    and is no number, read at the top level, ends the call Complete with
    the value nil; "1abc " does so on a fresh parser, while "(1abc " ends
    in Error. *)
Theorem token_classification :
  (forall p first rest,
     build_token p (first :: rest) =
       (number <- read_number (first :: rest) false ;;
        Done match number with
             | Some number => (p, GstNumber number)
             | None =>
                 if list_Z_eqb (first :: rest) (bytes_of "nil") then (p, GstNil)
                 else if list_Z_eqb (first :: rest) (bytes_of "false")
                      then (p, GstBoolean false)
                 else if list_Z_eqb (first :: rest) (bytes_of "true")
                      then (p, GstBoolean true)
                 else if is_digit first
                      then (mkGstParser (data p) (count p) (cap p) (index p)
                              (Some "Symbols cannot start with digits."%string)
                              GST_PARSER_ERROR (value p), GstNil)
                 else (p, GstString (first :: rest))
             end))
  /\ (forall a b : list Z, list_Z_eqb a b = true <-> a = b)
  /\ (forall p,
        build_token p (bytes_of "12.5") = Done (p, GstNumber 12.5%float)
        /\ build_token p (bytes_of "nil") = Done (p, GstNil)
        /\ build_token p (bytes_of "false") = Done (p, GstBoolean false)
        /\ build_token p (bytes_of "true") = Done (p, GstBoolean true)
        /\ build_token p (bytes_of "truex") = Done (p, GstString (bytes_of "truex"))
        /\ build_token p (bytes_of "1abc")
           = Done (mkGstParser (data p) (count p) (cap p) (index p)
                     (Some "Symbols cannot start with digits."%string)
                     GST_PARSER_ERROR (value p), GstNil))
  /\ (forall p first t c rest,
        is_digit first = true -> forallb token_byte t = true ->
        read_number (first :: t) false = Done None -> ends_token c = true ->
        at_top p 0 StRoot -> (count p < cap p)%nat ->
        (cap p <= List.length (data p))%nat ->
        exists p',
          gst_parse_cstring p (first :: t ++ c :: rest)
          = Done (p', S (S (List.length t)))
          /\ status p' = GST_PARSER_FULL /\ value p' = GstNil
          /\ error p' = Some "Symbols cannot start with digits."%string
          /\ at_top p' 0 StRoot)
  /\ outcome (gst_parse_cstring fresh_parser (bytes_of "1abc "))
     = Some (GST_PARSER_FULL, GstNil,
             Some "Symbols cannot start with digits."%string, 5%nat, 5%nat)
  /\ outcome (gst_parse_cstring fresh_parser (bytes_of "(1abc "))
     = Some (GST_PARSER_ERROR, GstNil,
             Some "Symbols cannot start with digits."%string, 6%nat, 6%nat).
Proof.
  split; [intros p first rest; apply build_token_cascade|]. split.
  { intros a b. unfold list_Z_eqb.
    destruct (list_eq_dec Z.eq_dec a b); split; congruence. }
  split; [intros p; repeat split; vm_compute; reflexivity|].
  split; [exact digit_token_at_root|].
  split; vm_compute; reflexivity.
Qed.
